(** * rmux: the wire-protocol engine (packages [protocol] and [connection])

    A shallow embedding of the two Go packages of the proxy core:
    [connection] (the backend session object) and [protocol] (the
    integer parser, the peeking command scanner and the bulk /
    multibulk streamers).

    Conventions of the embedding:
    - a Go [byte] is a [Byte.byte]; byte arithmetic wraps modulo 256;
    - a Go [int] is a [Z] kept in the signed 64-bit range, every
      addition and multiplication followed by [wrap];
    - a [[]byte] is a [list byte]; the nil slice of a result that was
      never assigned is [None];
    - a run-time panic (index or slice bounds out of range, nil
      dereference) is the outcome [Panic];
    - [bufio.Reader] and [bufio.Writer] are modelled by records that
      keep what the standard library documents: the bytes buffered, the
      bytes still to come from the underlying source, and the bytes
      delivered to the underlying destination;
    - [Debug], [log.*] calls only print and are left out, except where
      an effect is counted ([graphite.Increment], the socket close). *)

From Stdlib Require Import String ZArith List Bool Lia.
From Stdlib Require Import Strings.Byte DecimalString.
From Stdlib Require DecimalPos.
Import ListNotations.

Local Open Scope Z_scope.

(** ** Bytes *)

Abbreviation byte := Byte.byte.

Definition byte_val (b : byte) : Z := Z.of_N (Byte.to_N b).

Definition byte_of (z : Z) : byte :=
  match Byte.of_N (Z.to_N (z mod 256)) with
  | Some b => b
  | None => x00
  end.

(** [b - c] and [b + c] on Go's [uint8]. *)
Definition byte_sub (b c : byte) : byte := byte_of (byte_val b - byte_val c).
Definition byte_add (b c : byte) : byte := byte_of (byte_val b + byte_val c).

Definition byte_eqb (b c : byte) : bool := Byte.eqb b c.

(** A byte string written as text. *)
Definition bs (s : string) : list byte := list_byte_of_string s.

Definition CR : byte := x0d.
Definition LF : byte := x0a.

(** ** Go's [int] on a 64-bit platform *)

Definition int_min : Z := - 2 ^ 63.
Definition int_max : Z := 2 ^ 63 - 1.

Definition wrap (z : Z) : Z := (z + 2 ^ 63) mod 2 ^ 64 - 2 ^ 63.

Definition int_add (a b : Z) : Z := wrap (a + b).
Definition int_mul (a b : Z) : Z := wrap (a * b).
Definition int_sub (a b : Z) : Z := wrap (a - b).

(** [len(s)] as a Go [int]. *)
Definition len {A} (s : list A) : Z := Z.of_nat (List.length s).

(** ** Errors *)

Inductive error : Type :=
| ERROR_INVALID_INT
| ERROR_MULTIBULK_FORMAT_REQUIRED
| ERROR_BAD_BULK_FORMAT
| io_EOF
| bufio_ErrBufferFull
| bufio_ErrNegativeCount
| io_ErrShortWrite
| errors_New (msg : string).

(** ** Wire constants of package [protocol] *)

Definition BUFFER_SIZE : Z := 4096.

Definition OK_RESPONSE : list byte := bs "+OK".
Definition PONG_RESPONSE : list byte := bs "+PONG".
Definition ERR_RESPONSE : list byte := bs "$-1".
Definition REDIS_NEWLINE : list byte := [CR; LF].
Definition SHORT_PING_COMMAND : list byte := bs "PING".

(** [bytes.Equal] *)
Fixpoint bytes_Equal (a b : list byte) : bool :=
  match a, b with
  | [], [] => true
  | x :: a', y :: b' => byte_eqb x y && bytes_Equal a' b'
  | _, _ => false
  end.

(** [bytes.IndexByte]: the index of the first [c] in [s], or -1. *)
Fixpoint IndexByte_from (s : list byte) (c : byte) (i : Z) : Z :=
  match s with
  | [] => -1
  | x :: s' => if byte_eqb x c then i else IndexByte_from s' c (i + 1)
  end.

Definition IndexByte (s : list byte) (c : byte) : Z := IndexByte_from s c 0.

(** ** Outcomes and the state monad of the embedding *)

Inductive panic : Type :=
| index_out_of_range
| slice_bounds_out_of_range
| nil_pointer_dereference.

Inductive outcome (A : Type) : Type :=
| Done (a : A)
| Panic (p : panic).

Arguments Done {A} a.
Arguments Panic {A} p.

(** A computation over a mutable state [S]: it ends normally with a
    value or panics, and in both cases leaves a state behind. *)
Definition M (S A : Type) : Type := S -> outcome A * S.

Definition ret {S A} (a : A) : M S A := fun s => (Done a, s).

Definition bind {S A B} (m : M S A) (k : A -> M S B) : M S B :=
  fun s =>
    match m s with
    | (Done a, s') => k a s'
    | (Panic p, s') => (Panic p, s')
    end.

Definition throw {S A} (p : panic) : M S A := fun s => (Panic p, s).

Declare Scope go_scope.
Delimit Scope go_scope with go.
Notation "x <- m ;; k" := (bind m (fun x => k))
  (at level 61, m at next level, right associativity) : go_scope.
Notation "' pat <- m ;; k" := (bind m (fun x => match x with pat => k end))
  (at level 61, pat pattern, m at next level, right associativity) : go_scope.
Notation "m ;;; k" := (bind m (fun _ => k))
  (at level 61, right associativity) : go_scope.

(** [s[i]] *)
Definition index {S} (s : list byte) (i : Z) : M S byte :=
  if (0 <=? i) && (i <? len s)
  then ret (nth (Z.to_nat i) s x00)
  else throw index_out_of_range.

(** [s[lo:hi]].  Go bounds the expression by the capacity of [s]; the
    model bounds it by the length.  The two differ only for a high
    bound between the length and the capacity, which no slice
    expression of this program can produce: each one is either
    guarded by a comparison with [len(s)] or has wrapped around. *)
Definition slice {S} (s : list byte) (lo hi : Z) : M S (list byte) :=
  if (0 <=? lo) && (lo <=? hi) && (hi <=? len s)
  then ret (firstn (Z.to_nat (hi - lo)) (skipn (Z.to_nat lo) s))
  else throw slice_bounds_out_of_range.

(** [s[lo:]] *)
Definition slice_from {S} (s : list byte) (lo : Z) : M S (list byte) :=
  slice s lo (len s).

(** The bytes of [s] with [data] written over them from offset [off]:
    what the stores through a sub-slice [s[off:off+len(data)]] leave.
    A store never reaches past the end of [s]. *)
Fixpoint overwrite_at (s : list byte) (off : nat) (data : list byte) : list byte :=
  match s with
  | [] => []
  | x :: s' =>
      match off with
      | S off' => x :: overwrite_at s' off' data
      | O =>
          match data with
          | [] => s
          | d :: data' => d :: overwrite_at s' O data'
          end
      end
  end.

Definition overwrite (s : list byte) (off : Z) (data : list byte) : list byte :=
  overwrite_at s (Z.to_nat off) data.

(** ** [bufio.Reader] and [bufio.Writer] *)

Module Bufio.

Definition defaultBufSize : Z := 4096.

(** What one [Read] call on the underlying source delivers when there
    is room for it: at least one byte. *)
Definition chunk : Type := (byte * list byte)%type.

Definition chunk_bytes (c : chunk) : list byte := fst c :: snd c.

(** A [*bufio.Reader] over a source.
    - [buffered]: the bytes [buf[r:w]], read from the source and not yet
      consumed;
    - [pending]: what the successive [Read] calls on the source will
      deliver; once it is empty every [Read] returns [(0, io.EOF)];
    - [fetched]: how many bytes have been taken from the source;
    - [reads]: how many [Read] calls the source has received;
    - [rerr]: the error kept in [b.err] until [readErr] hands it out. *)
Record Reader : Type := mkReader {
  buffered : list byte;
  pending : list chunk;
  fetched : Z;
  reads : Z;
  rerr : option error
}.

Definition set_buffered (bytes : list byte) (r : Reader) : Reader :=
  mkReader bytes (pending r) (fetched r) (reads r) (rerr r).

Definition clear_rerr (r : Reader) : Reader :=
  mkReader (buffered r) (pending r) (fetched r) (reads r) None.

(** One [Read(p)] on the underlying source with [len(p) = room]. *)
Definition src_Read (room : Z) (r : Reader) : list byte * option error * Reader :=
  match pending r with
  | [] =>
      ([], Some io_EOF,
       mkReader (buffered r) [] (fetched r) (reads r + 1) (rerr r))
  | c :: rest =>
      let got := firstn (Z.to_nat room) (chunk_bytes c) in
      let left := skipn (Z.to_nat room) (chunk_bytes c) in
      (got, None,
       mkReader (buffered r)
                (match left with [] => rest | b :: l => (b, l) :: rest end)
                (fetched r + len got) (reads r + 1) (rerr r))
  end.

(** [b.fill()]: one read of the source into the free part of the
    buffer; an error of the source is kept in [b.err]. *)
Definition fill (r : Reader) : Reader :=
  let '(got, err, r') := src_Read (defaultBufSize - len (buffered r)) r in
  mkReader (buffered r' ++ got) (pending r') (fetched r') (reads r') err.

(** [b.Buffered()] *)
Definition Buffered (r : Reader) : Z := len (buffered r).

(** The loop of [Peek]: fill while fewer than [n] bytes are buffered,
    the buffer is not full and no error is kept. *)
Fixpoint Peek_fill (fuel : nat) (n : Z) (r : Reader) : Reader :=
  match fuel with
  | O => r
  | S fuel' =>
      if (Buffered r <? n) && (Buffered r <? defaultBufSize)
         && (match rerr r with None => true | Some _ => false end)
      then Peek_fill fuel' n (fill r)
      else r
  end.

(** [b.Peek(n)]: the next [n] bytes without advancing the reader. *)
Definition Peek (n : Z) (r : Reader) : list byte * option error * Reader :=
  if n <? 0 then ([], Some bufio_ErrNegativeCount, r)
  else
    let r := Peek_fill (S (Z.to_nat n)) n r in
    if defaultBufSize <? n then (buffered r, Some bufio_ErrBufferFull, r)
    else if Buffered r <? n then
      (buffered r,
       Some (match rerr r with Some e => e | None => bufio_ErrBufferFull end),
       clear_rerr r)
    else (firstn (Z.to_nat n) (buffered r), None, r).

(** [b.ReadSlice(delim)] *)
Fixpoint ReadSlice_loop (fuel : nat) (delim : byte) (r : Reader)
  : list byte * option error * Reader :=
  let i := IndexByte (buffered r) delim in
  if 0 <=? i then
    (firstn (Z.to_nat (i + 1)) (buffered r), None,
     set_buffered (skipn (Z.to_nat (i + 1)) (buffered r)) r)
  else
    match rerr r with
    | Some e => (buffered r, Some e, clear_rerr (set_buffered [] r))
    | None =>
        if defaultBufSize <=? Buffered r then
          (buffered r, Some bufio_ErrBufferFull, set_buffered [] r)
        else
          match fuel with
          | O => (buffered r, Some io_EOF, set_buffered [] r)
          | S fuel' => ReadSlice_loop fuel' delim (fill r)
          end
    end.

(** The bytes the source has still to deliver. *)
Definition pending_size (r : Reader) : nat :=
  List.length (concat (map chunk_bytes (pending r))).

(** Every [fill] of the loop takes a byte from the source or meets its
    end, so [pending_size r + 1] rounds are enough. *)
Definition ReadSlice (delim : byte) (r : Reader) : list byte * option error * Reader :=
  ReadSlice_loop (S (pending_size r)) delim r.

(** [b.ReadLine()]: [(line, isPrefix, err)]. *)
Definition ReadLine (r : Reader) : list byte * bool * option error * Reader :=
  let '(line, err, r) := ReadSlice LF r in
  match err with
  | Some bufio_ErrBufferFull =>
      match rev line with
      | last :: front =>
          if byte_eqb last CR
          then (rev front, true, None, set_buffered [CR] r)
          else (line, true, None, r)
      | [] => (line, true, None, r)
      end
  | _ =>
      match rev line with
      | [] => ([], false, err, r)
      | last :: front =>
          if byte_eqb last LF then
            match front with
            | before :: front' =>
                if byte_eqb before CR then (rev front', false, None, r)
                else (rev front, false, None, r)
            | [] => ([], false, None, r)
            end
          else (line, false, None, r)
      end
  end.

(** [b.ReadByte()]: the loop fills an empty buffer; one round is
    enough, for a fill brings a byte or an error. *)
Fixpoint ReadByte_loop (fuel : nat) (r : Reader) : byte * option error * Reader :=
  match buffered r with
  | c :: rest => (c, None, set_buffered rest r)
  | [] =>
      match rerr r with
      | Some e => (x00, Some e, clear_rerr r)
      | None =>
          match fuel with
          | O => (x00, Some io_EOF, r)
          | S fuel' => ReadByte_loop fuel' (fill r)
          end
      end
  end.

Definition ReadByte (r : Reader) : byte * option error * Reader :=
  ReadByte_loop 2 r.

(** [b.Read(p)] with [len(p) = k]: the bytes stored in [p[0:n]]. *)
Definition Read (k : Z) (r : Reader) : list byte * option error * Reader :=
  if k =? 0 then
    if 0 <? Buffered r then ([], None, r) else ([], rerr r, clear_rerr r)
  else
    match buffered r with
    | _ :: _ =>
        (firstn (Z.to_nat k) (buffered r), None,
         set_buffered (skipn (Z.to_nat k) (buffered r)) r)
    | [] =>
        match rerr r with
        | Some e => ([], Some e, clear_rerr r)
        | None =>
            if defaultBufSize <=? k then
              (* large read, empty buffer: straight into [p] *)
              let '(got, err, r') := src_Read k r in (got, err, r')
            else
              let r' := fill r in
              match buffered r' with
              | [] => ([], rerr r', clear_rerr r')
              | _ :: _ =>
                  (firstn (Z.to_nat k) (buffered r'), None,
                   set_buffered (skipn (Z.to_nat k) (buffered r')) r')
              end
        end
    end.

(** A [*bufio.Writer] over a destination.
    - [wbuf]: the bytes written and not yet flushed;
    - [sent]: the bytes delivered to the destination;
    - [werr]: the error kept in [b.err], returned by every later call;
    - [sink_err]: the error with which the destination refuses every
      write, if it does. *)
Record Writer : Type := mkWriter {
  wbuf : list byte;
  sent : list byte;
  werr : option error;
  sink_err : option error
}.

Definition Available (w : Writer) : Z := defaultBufSize - len (wbuf w).

(** One [Write(p)] on the underlying destination. *)
Definition sink_Write (p : list byte) (w : Writer) : option error * Writer :=
  match sink_err w with
  | Some e => (Some e, mkWriter (wbuf w) (sent w) (Some e) (sink_err w))
  | None => (None, mkWriter (wbuf w) (sent w ++ p) None None)
  end.

(** [b.Flush()] *)
Definition Flush (w : Writer) : option error * Writer :=
  match werr w with
  | Some e => (Some e, w)
  | None =>
      match wbuf w with
      | [] => (None, w)
      | _ :: _ =>
          match sink_Write (wbuf w) w with
          | (Some e, w') => (Some e, w')
          | (None, w') => (None, mkWriter [] (sent w') None (sink_err w'))
          end
      end
  end.

Definition buffer_bytes (p : list byte) (w : Writer) : Writer :=
  mkWriter (wbuf w ++ p) (sent w) (werr w) (sink_err w).

(** [b.Write(p)]: while [p] exceeds the room left, either hand it to
    the destination (empty buffer) or top the buffer up and flush;
    what remains is buffered.  Two rounds at most. *)
Fixpoint Write_loop (fuel : nat) (p : list byte) (w : Writer) : option error * Writer :=
  match werr w with
  | Some e => (Some e, w)
  | None =>
      if len p <=? Available w then (None, buffer_bytes p w)
      else
        match fuel with
        | O => (Some io_ErrShortWrite, w)
        | S fuel' =>
            match wbuf w with
            | [] =>
                match sink_Write p w with
                | (Some e, w') => (Some e, w')
                | (None, w') => (None, w')
                end
            | _ :: _ =>
                let room := Z.to_nat (Available w) in
                let '(_, w') := Flush (buffer_bytes (firstn room p) w) in
                Write_loop fuel' (skipn room p) w'
            end
        end
  end.

Definition Write (p : list byte) (w : Writer) : option error * Writer :=
  Write_loop 2 p w.

(** Everything the writer has accepted, in order. *)
Definition output (w : Writer) : list byte := sent w ++ wbuf w.

(** The two ends of a copy: [source] and [destination]. *)
Record Streams : Type := mkStreams {
  source : Reader;
  destination : Writer
}.

End Bufio.

(** ** Package [protocol] *)

Module Protocol.

Import Bufio.
Local Open Scope go_scope.

(** The loop of [ParseInt]: [length] is the named result, returned as
    it stands when an invalid byte stops the loop. *)
Fixpoint ParseInt_loop (response : list byte) (length : Z) : Z * option error :=
  match response with
  | [] => (length, None)
  | b :: rest =>
      let b := byte_sub b "0"%byte in
      if 9 <? byte_val b then (length, Some ERROR_INVALID_INT)
      else ParseInt_loop rest (int_add (int_mul length 10) (byte_val b))
  end.

Definition ParseInt (response : list byte) : Z * option error :=
  ParseInt_loop response 0.

(** The body of the loop of [GetCommand] over the command's bytes:
    [if value <= 'Z' { command[index] = value + 32 }]. *)
Definition lowercaseize (value : byte) : byte :=
  if byte_val value <=? byte_val "Z"%byte then byte_add value x20 else value.

(** The reader's methods as computations on the reader. *)
Definition source_Buffered : M Reader Z := fun r => (Done (Buffered r), r).

Definition source_Peek (n : Z) : M Reader (list byte * option error) :=
  fun r => let '(b, e, r') := Peek n r in (Done (b, e), r').

Definition source_ReadLine : M Reader (list byte * bool * option error) :=
  fun r => let '(l, p, e, r') := ReadLine r in (Done (l, p, e), r').

Definition source_ReadByte : M Reader (byte * option error) :=
  fun r => let '(c, e, r') := ReadByte r in (Done (c, e), r').

Definition source_Read (k : Z) : M Reader (Z * option error) :=
  fun r => let '(got, e, r') := Read k r in (Done (len got, e), r').

(** A store through a slice of the peeked contents lands in the
    reader's buffer, which the slice shares. *)
Definition store (off : Z) (data : list byte) : M Reader unit :=
  fun r => (Done tt, set_buffered (overwrite (buffered r) off data) r).

(** The three results of [GetCommand]: [command], [firstArgument], [err]. *)
Definition command_result : Type :=
  (option (list byte) * option (list byte) * option error)%type.

Definition GetCommand : M Reader command_result :=
  n <- source_Buffered ;;
  '(contents, err) <- source_Peek n ;;
  match err with
  | Some e => ret (None, None, Some e)
  | None =>
  let nextLine := IndexByte contents CR in
  if nextLine =? -1 then ret (None, None, Some ERROR_MULTIBULK_FORMAT_REQUIRED)
  else
  header <- slice contents 1 nextLine ;;
  let '(messageLength, err) := ParseInt header in
  match err with
  | Some e => ret (None, None, Some e)
  | None =>
  let nextLine := int_add nextLine 2 in
  if len contents <? int_add (int_add nextLine messageLength) 2
  then ret (None, None, Some ERROR_MULTIBULK_FORMAT_REQUIRED)
  else
  command <- slice contents nextLine (int_add nextLine messageLength) ;;
  let command := map lowercaseize command in
  store nextLine command ;;;
  let contents := overwrite contents nextLine command in
  if int_add (int_add nextLine messageLength) 2 =? len contents
  then ret (Some command, None, None)
  else
  let messageLength := int_add (int_add nextLine messageLength) 2 in
  rest <- slice_from contents messageLength ;;
  let nextLine := IndexByte rest CR in
  if nextLine =? -1
  then ret (Some command, None, Some ERROR_MULTIBULK_FORMAT_REQUIRED)
  else
  let nextLine := int_add nextLine messageLength in
  header <- slice contents (int_add messageLength 1) nextLine ;;
  let '(messageLength, err) := ParseInt header in
  match err with
  | Some e => ret (Some command, None, Some e)
  | None =>
  let nextLine := int_add nextLine 2 in
  if len contents <? int_add (int_add nextLine messageLength) 2
  then ret (Some command, None, Some ERROR_MULTIBULK_FORMAT_REQUIRED)
  else
  firstArgument <- slice contents nextLine (int_add nextLine messageLength) ;;
  ret (Some command, Some firstArgument, None)
  end end end.

(** The streaming operations work on a source and a destination. *)
Definition on_source {A} (m : M Reader A) : M Streams A :=
  fun s => let '(o, r') := m (source s) in (o, mkStreams r' (destination s)).

Definition destination_Write (p : list byte) : M Streams (option error) :=
  fun s => let '(e, w') := Write p (destination s) in
           (Done e, mkStreams (source s) w').

Definition destination_Flush : M Streams (option error) :=
  fun s => let '(e, w') := Flush (destination s) in
           (Done e, mkStreams (source s) w').

Definition writeLine (line : list byte) : M Streams (option error) :=
  err <- destination_Write line ;;
  match err with
  | Some e => ret (Some e)
  | None => destination_Write REDIS_NEWLINE
  end.

Definition FlushLine (line : list byte) : M Streams (option error) :=
  err <- writeLine line ;;
  match err with
  | Some e => ret (Some e)
  | None => destination_Flush
  end.

(** [len(firstLine) < 2 || firstLine[0] != sigil], evaluated left to
    right: the index is reached only when the length test fails. *)
Definition bad_first_line {S} (firstLine : list byte) (sigil : byte) : M S bool :=
  if len firstLine <? 2 then ret true
  else c <- index firstLine 0 ;; ret (negb (byte_eqb c sigil)).

(** The loop [for n > 0] of [ignoreBulkMessage].  [Some err] is the
    [return] from inside the loop, [None] its normal end.  Each round
    that goes on has read a byte, so [n] rounds are enough. *)
Fixpoint ignore_loop (fuel : nat) (n : Z) : M Reader (option (option error)) :=
  if 0 <? n then
    match fuel with
    | O => ret (Some None)
    | S fuel' =>
        '(copied, err) <-
          (if BUFFER_SIZE <? n then source_Read BUFFER_SIZE else source_Read n) ;;
        match err with
        | Some e => ret (Some (Some e))
        | None =>
            if copied =? 0 then ret (Some None)
            else ignore_loop fuel' (int_sub n copied)
        end
    end
  else ret None.

(** The two bytes that must end a bulk payload. *)
Definition read_newline : M Reader (option error) :=
  '(char, err) <- source_ReadByte ;;
  match err with
  | Some e => ret (Some e)
  | None =>
  if negb (byte_eqb char CR) then ret (Some ERROR_BAD_BULK_FORMAT)
  else
  '(char, err) <- source_ReadByte ;;
  match err with
  | Some e => ret (Some e)
  | None =>
  if negb (byte_eqb char LF) then ret (Some ERROR_BAD_BULK_FORMAT)
  else ret None
  end end.

Definition ignoreBulkMessage (firstLine : list byte) : M Reader (option error) :=
  bad <- bad_first_line firstLine "$"%byte ;;
  if bad then ret (Some ERROR_BAD_BULK_FORMAT)
  else if bytes_Equal firstLine ERR_RESPONSE then ret None
  else
  digits <- slice_from firstLine 1 ;;
  let '(n, err) := ParseInt digits in
  match err with
  | Some e => ret (Some e)
  | None =>
  returned <- ignore_loop (Z.to_nat n) n ;;
  match returned with
  | Some err => ret err
  | None => read_newline
  end end.

(** The loop [for i := 0; i < n; i++] of [IgnoreMultiBulkMessage],
    [k] rounds from the current one on. *)
Fixpoint IgnoreMultiBulkMessage_loop (k : nat) : M Reader (option error) :=
  match k with
  | O => ret None
  | S k' =>
      '(firstLine, _, err) <- source_ReadLine ;;
      match err with
      | Some e => ret (Some e)
      | None =>
      c <- index firstLine 0 ;;
      if byte_eqb c ":"%byte then IgnoreMultiBulkMessage_loop k'
      else
      err <- ignoreBulkMessage firstLine ;;
      match err with
      | Some e => ret (Some e)
      | None => IgnoreMultiBulkMessage_loop k'
      end end
  end.

Definition IgnoreMultiBulkMessage (firstLine : list byte) : M Reader (option error) :=
  bad <- bad_first_line firstLine "*"%byte ;;
  if bad then ret (Some ERROR_BAD_BULK_FORMAT)
  else
  digits <- slice_from firstLine 1 ;;
  let '(n, err) := ParseInt digits in
  match err with
  | Some e => ret (Some e)
  | None => IgnoreMultiBulkMessage_loop (Z.to_nat n)
  end.

(** [source.Read(p)] with [len(p) = k]. *)
Definition source_Read_bytes (k : Z) : M Reader (list byte * option error) :=
  fun r => let '(got, e, r') := Read k r in (Done (got, e), r').

(** [l.Read(p)] of the [io.LimitedReader], with [l.N = left] and
    [len(p) = room]. *)
Definition limited_Read (room left : Z) : M Reader (list byte * option error) :=
  if left <=? 0 then ret ([], Some io_EOF)
  else source_Read_bytes (Z.min room left).

(** The steps of [b.ReadFrom] on the writer: the flush of a buffer
    with no room left ([b.Available() == 0]; the room is never below
    0), the room a read is given, and the bytes a read has stored in
    [b.buf[b.n:]]. *)
Definition flush_if_full : M Streams (option error) :=
  fun s => if Available (destination s) <=? 0 then destination_Flush s
           else (Done None, s).

Definition destination_Available : M Streams Z :=
  fun s => (Done (Available (destination s)), s).

Definition destination_store (p : list byte) : M Streams unit :=
  fun s => (Done tt, mkStreams (source s) (buffer_bytes p (destination s))).

(** The loop of [b.ReadFrom(r)], [r] the limited reader with [left]
    bytes to go and [n] the bytes read so far.  A read of the source
    brings a byte or an error, so that the loop ends within [left + 1]
    rounds and never has to give up on empty reads.  [ReadFrom] itself
    starts with the error the writer keeps, if it keeps one. *)
Fixpoint ReadFrom_loop (fuel : nat) (left n : Z) : M Streams (Z * option error) :=
  match fuel with
  | O => ret (n, None)
  | S fuel' =>
      err1 <- flush_if_full ;;
      match err1 with
      | Some e => ret (n, Some e)
      | None =>
          room <- destination_Available ;;
          '(got, err) <- on_source (limited_Read room left) ;;
          destination_store got ;;;
          match err with
          | Some io_EOF =>
              (* a buffer filled exactly is flushed, [io.EOF] is no error *)
              err <- flush_if_full ;; ret (n + len got, err)
          | Some e => ret (n + len got, Some e)
          | None => ReadFrom_loop fuel' (left - len got) (n + len got)
          end
      end
  end.

Definition ReadFrom (left : Z) : M Streams (Z * option error) :=
  fun s =>
    match werr (destination s) with
    | Some e => (Done (0, Some e), s)
    | None => ReadFrom_loop (S (Z.to_nat left)) left 0 s
    end.

(** [io.CopyN(destination, source, n)] is [io.Copy] from an
    [io.LimitedReader] on the source, and [io.Copy] hands the copy to
    the destination's [ReadFrom], which a [*bufio.Writer] has: the
    bytes are read straight into the free part of the writer's
    buffer, and the buffer is flushed when it has no room left.  The
    writer's own destination is taken as a plain [io.Writer], with no
    [ReadFrom] of its own to hand the copy further to.
    It returns [(written, err)]: [written = n] and no error, or the
    error that stopped the copy, [io.EOF] when the source ended
    early.  For [n <= 0] nothing is read. *)
Definition io_CopyN (n : Z) : M Streams (Z * option error) :=
  '(written, err) <- ReadFrom n ;;
  if written =? n then ret (n, None)
  else
    match err with
    | None => if written <? n then ret (written, Some io_EOF)
              else ret (written, None)
    | Some e => ret (written, Some e)
    end.

Definition copyBulkMessage (firstLine : list byte) : M Streams (option error) :=
  bad <- bad_first_line firstLine "$"%byte ;;
  if bad then ret (Some ERROR_BAD_BULK_FORMAT)
  else if bytes_Equal firstLine ERR_RESPONSE then writeLine ERR_RESPONSE
  else
  digits <- slice_from firstLine 1 ;;
  let '(n, err) := ParseInt digits in
  match err with
  | Some e => ret (Some e)
  | None =>
  err <- writeLine firstLine ;;
  match err with
  | Some e => ret (Some e)
  | None =>
  '(written, err) <- io_CopyN n ;;
  match err with
  | Some e => ret (Some e)
  | None =>
  if negb (written =? n) then ret None
  else
  err <- on_source read_newline ;;
  match err with
  | Some e => ret (Some e)
  | None => destination_Write REDIS_NEWLINE
  end end end end.

(** The loop [for i := 0; i < n; i++] of [CopyMultiBulkMessage]. *)
Fixpoint CopyMultiBulkMessage_loop (k : nat) : M Streams (option error) :=
  match k with
  | O => ret None
  | S k' =>
      '(firstLine, _, err) <- on_source source_ReadLine ;;
      match err with
      | Some e => ret (Some e)
      | None =>
      err <- copyBulkMessage firstLine ;;
      match err with
      | Some e => ret (Some e)
      | None => CopyMultiBulkMessage_loop k'
      end end
  end.

Definition CopyMultiBulkMessage (firstLine : list byte) : M Streams (option error) :=
  bad <- bad_first_line firstLine "*"%byte ;;
  if bad then ret (Some ERROR_BAD_BULK_FORMAT)
  else
  digits <- slice_from firstLine 1 ;;
  let '(n, err) := ParseInt digits in
  match err with
  | Some e => ret (Some e)
  | None =>
  err <- writeLine firstLine ;;
  match err with
  | Some e => ret (Some e)
  | None =>
  err <- CopyMultiBulkMessage_loop (Z.to_nat n) ;;
  match err with
  | Some e => ret (Some e)
  | None => destination_Flush
  end end end.

Definition CopyServerResponse : M Streams (option error) :=
  '(firstLine, _, err) <- on_source source_ReadLine ;;
  match err with
  | Some e => ret (Some e)
  | None =>
  if len firstLine <? 2 then ret (Some ERROR_BAD_BULK_FORMAT)
  else
  c0 <- index firstLine 0 ;;
  err <-
    (if byte_eqb c0 "$"%byte then copyBulkMessage firstLine
     else
       multi <- (if byte_eqb c0 "*"%byte
                 then c1 <- index firstLine 1 ;; ret (negb (byte_eqb c1 "-"%byte))
                 else ret false) ;;
       if multi then CopyMultiBulkMessage firstLine
       else writeLine firstLine) ;;
  match err with
  | Some e => ret (Some e)
  | None => destination_Flush ;;; ret None
  end end.

(** The three tables of commands, [map[string]bool] with every key
    mapped to [true]: a lookup is [true] for the keys and [false] for
    everything else. *)
Definition UNSAFE_FUNCTIONS : list string :=
  ["auth"; "bgrewriteaof"; "bgsave"; "client"; "config"; "dbsize"; "debug";
   "flushall"; "flushdb"; "lastsave"; "move"; "monitor"; "migrate"; "object";
   "punsubscribe"; "psubscribe"; "pubsub"; "randomkey"; "save"; "shutdown";
   "slaveof"; "slowlog"; "sync"; "time"; "unsubscribe"]%string.

Definition SINGLE_DB_FUNCTIONS : list string :=
  ["exec"; "multi"; "watch"; "unwatch"; "discard"; "bitop"; "brpoplpush";
   "eval"; "keys"; "mget"; "mset"; "msetnx"; "rename"; "renamenx";
   "rpoplpush"; "script"; "sdiff"; "sdiffstore"; "sinter"; "sinterstore";
   "smove"; "sunion"; "sunionstore"; "zinterstore"; "zunionstore"]%string.

Definition PUBSUB_FUNCTIONS : list string := ["subscribe"]%string.

(** [table[string(command)]] *)
Definition lookup (table : list string) (command : list byte) : bool :=
  existsb (fun key => bytes_Equal (bs key) command) table.

End Protocol.

(** ** Package [connection] *)

Module Connection.

Local Open Scope go_scope.

(** What a connection does to its collaborators: the socket it closes
    and the counter it increments. *)
Inductive event : Type :=
| socket_Close (socket : Z)
| graphite_Increment (name : string).

(** The struct [Connection].  [connection] is the [net.Conn], [None]
    for nil; [Reader] and [Writer] are pointers, [None] for nil. *)
Record Connection : Type := mkConnection {
  connection : option Z;
  DatabaseId : Z;
  Reader : option Bufio.Reader;
  Writer : option Bufio.Writer;
  protocol : string;
  endpoint : string;
  authUser : string;
  authPassword : string;
  connectTimeout : Z;
  readTimeout : Z;
  writeTimeout : Z
}.

(** A connection together with the effects it has had so far. *)
Record World : Type := mkWorld {
  this : Connection;
  trace : list event
}.

Definition NewConnection (Protocol Endpoint : string)
    (ConnectTimeout ReadTimeout WriteTimeout : Z)
    (authUser authPassword : string) : Connection :=
  mkConnection None 0 None None Protocol Endpoint authUser authPassword
               ConnectTimeout ReadTimeout WriteTimeout.

Definition modify (f : Connection -> Connection) : M World unit :=
  fun w => (Done tt, mkWorld (f (this w)) (trace w)).

Definition emit (e : event) : M World unit :=
  fun w => (Done tt, mkWorld (this w) (trace w ++ [e])).

Definition get : M World Connection := fun w => (Done (this w), w).

Definition set_connection (s : option Z) (c : Connection) : Connection :=
  mkConnection s (DatabaseId c) (Reader c) (Writer c) (protocol c)
    (endpoint c) (authUser c) (authPassword c) (connectTimeout c)
    (readTimeout c) (writeTimeout c).

Definition set_DatabaseId (d : Z) (c : Connection) : Connection :=
  mkConnection (connection c) d (Reader c) (Writer c) (protocol c)
    (endpoint c) (authUser c) (authPassword c) (connectTimeout c)
    (readTimeout c) (writeTimeout c).

Definition set_Reader (r : option Bufio.Reader) (c : Connection) : Connection :=
  mkConnection (connection c) (DatabaseId c) r (Writer c) (protocol c)
    (endpoint c) (authUser c) (authPassword c) (connectTimeout c)
    (readTimeout c) (writeTimeout c).

Definition set_Writer (w : option Bufio.Writer) (c : Connection) : Connection :=
  mkConnection (connection c) (DatabaseId c) (Reader c) w (protocol c)
    (endpoint c) (authUser c) (authPassword c) (connectTimeout c)
    (readTimeout c) (writeTimeout c).

Definition Disconnect : M World unit :=
  c <- get ;;
  (match connection c with
   | Some socket =>
       emit (socket_Close socket) ;;;
       emit (graphite_Increment "disconnect")
   | None => ret tt
   end) ;;;
  modify (set_connection None) ;;;
  modify (set_DatabaseId 0) ;;;
  modify (set_Reader None) ;;;
  modify (set_Writer None).

(** Modelled from the spec: [protocol.WriteLine(line, writer, flush)]
    and the [writer.FlexibleWriter] it writes to are not in the source
    at hand.  The spec's LineWriter writes the line and the fixed
    newline to the buffered writer and, when asked, flushes; any
    write error is returned unchanged.  A nil writer panics. *)
Definition WriteLine (line : list byte) (flush : bool) : M World (option error) :=
  c <- get ;;
  match Writer c with
  | None => throw nil_pointer_dereference
  | Some w =>
      let '(err, w) := Bufio.Write line w in
      let '(err, w) :=
        match err with
        | Some e => (Some e, w)
        | None => Bufio.Write REDIS_NEWLINE w
        end in
      let '(err, w) :=
        match err with
        | Some e => (Some e, w)
        | None => if flush then Bufio.Flush w else (None, w)
        end in
      modify (set_Writer (Some w)) ;;; ret err
  end.

(** [this.Reader.ReadLine()] *)
Definition Reader_ReadLine : M World (list byte * bool * option error) :=
  c <- get ;;
  match Reader c with
  | None => throw nil_pointer_dereference
  | Some r =>
      let '(line, isPrefix, err, r) := Bufio.ReadLine r in
      modify (set_Reader (Some r)) ;;; ret (line, isPrefix, err)
  end.

(** [fmt.Sprintf("select %d", DatabaseId)] *)
Definition select_command (DatabaseId : Z) : list byte :=
  bs ("select " ++ NilZero.string_of_int (Z.to_int DatabaseId)).

Definition is_nil {A} (o : option A) : bool :=
  match o with None => true | Some _ => false end.

Definition SelectDatabase (DatabaseId : Z) : M World (option error) :=
  c <- get ;;
  if is_nil (connection c)
  then ret (Some (errors_New "Selecting database on an invalid connection"))
  else
  err <- WriteLine (select_command DatabaseId) true ;;
  match err with
  | Some e => ret (Some e)
  | None =>
  '(line, isPrefix, err) <- Reader_ReadLine ;;
  if negb (is_nil err) || isPrefix || negb (bytes_Equal line OK_RESPONSE)
  then Disconnect ;;; ret (Some (errors_New "Invalid select response"))
  else modify (set_DatabaseId DatabaseId) ;;; ret None
  end.

(** [fmt.Sprintf("AUTH %s", password)], or with the user before the
    password when there is one. *)
Definition auth_command (user password : string) : list byte :=
  if String.eqb user ""
  then bs ("AUTH " ++ password)
  else bs ("AUTH " ++ user ++ " " ++ password).

Definition authenticate : M World (option error) :=
  c <- get ;;
  if is_nil (connection c)
  then ret (Some (errors_New "authenticating against an invalid connection"))
  else if String.eqb (authPassword c) "" then ret None
  else
  err <- WriteLine (auth_command (authUser c) (authPassword c)) true ;;
  match err with
  | Some e => ret (Some e)
  | None =>
  '(line, isPrefix, err) <- Reader_ReadLine ;;
  if negb (is_nil err) || isPrefix || negb (bytes_Equal line OK_RESPONSE)
  then Disconnect ;;; ret (Some (errors_New "invalid authentication response"))
  else ret None
  end.

Definition CheckConnection : M World bool :=
  c <- get ;;
  if is_nil (connection c) then ret false
  else
  err <- WriteLine SHORT_PING_COMMAND true ;;
  match err with
  | Some _ => Disconnect ;;; ret false
  | None =>
  '(line, isPrefix, err) <- Reader_ReadLine ;;
  if is_nil err && negb isPrefix && bytes_Equal line PONG_RESPONSE
  then ret true
  else Disconnect ;;; ret false
  end.

(** What a read of the socket finds when no byte is waiting: the
    deadline passes (a timeout, the peer is still there) or the read
    fails (the peer has closed, the socket is broken). *)
Inductive quiet_socket : Type :=
| deadline_passes
| read_fails.

(** The read of [IsConnected] goes to the socket itself, not through
    the buffered reader: the bytes it gets are the next ones the
    reader's source would have delivered, and they are gone. *)
Definition socket_Read (room : Z) (r : Bufio.Reader) : Z * Bufio.Reader :=
  let '(got, _, r') := Bufio.src_Read room r in
  (len got,
   Bufio.mkReader (Bufio.buffered r) (Bufio.pending r')
                  (Bufio.fetched r) (Bufio.reads r) (Bufio.rerr r)).

Definition IsConnected (quiet : quiet_socket) : M World bool :=
  c <- get ;;
  if is_nil (connection c) then ret false
  else
    match Reader c with
    | Some r =>
        match Bufio.pending r with
        | _ :: _ =>
            let '(n, r') := socket_Read 4 r in
            modify (set_Reader (Some r')) ;;; ret true
        | [] =>
            ret (match quiet with deadline_passes => true | read_fails => false end)
        end
    | None =>
        ret (match quiet with deadline_passes => true | read_fails => false end)
    end.

(** What [net.DialTimeout] returns: an error, or a socket together
    with what the server will send on it and the error, if any, with
    which it will refuse writes. *)
Inductive dial_result : Type :=
| dial_error (e : error)
| dial_socket (socket : Z) (incoming : list Bufio.chunk) (refuses : option error).

Definition ReconnectIfNecessary (quiet : quiet_socket) (dial : dial_result)
  : M World (option error) :=
  connected <- IsConnected quiet ;;
  if connected then ret None
  else
  Disconnect ;;;
  match dial with
  | dial_error e => modify (set_connection None) ;;; ret (Some e)
  | dial_socket socket incoming refuses =>
      modify (set_connection (Some socket)) ;;;
      modify (set_DatabaseId 0) ;;;
      modify (set_Writer (Some (Bufio.mkWriter [] [] None refuses))) ;;;
      modify (set_Reader (Some (Bufio.mkReader [] incoming 0 0 None))) ;;;
      authenticate
  end.

End Connection.

(** ** Vocabulary of the properties *)

(** The decimal digits ['0'..'9']. *)
Definition is_digit (b : byte) : bool :=
  (48 <=? byte_val b) && (byte_val b <=? 57).

(** The ASCII capitals ['A'..'Z']. *)
Definition is_upper (b : byte) : bool :=
  (65 <=? byte_val b) && (byte_val b <=? 90).

(** The exact value of a digit string read in base ten, with no bound. *)
Definition decimal_value (digits : list byte) : Z :=
  fold_left (fun acc b => acc * 10 + (byte_val b - 48)) digits 0.

(** The offset at which an element ends by its own header, when it
    starts at [offset] with the header byte, the digits [ds] and CR LF:
    the payload of the declared length and its CR LF follow.  It is the
    sum [nextLine + messageLength + 2] that [GetCommand] compares with
    [len(contents)], taken without wrap-around. *)
Definition declared_end (offset : Z) (ds : list byte) : Z :=
  offset + 1 + len ds + 2 + decimal_value ds + 2.

(** A reader that holds [bytes] in its buffer after one read of its
    source, which has nothing more to give. *)
Definition buf_reader (bytes : list byte) : Bufio.Reader :=
  Bufio.mkReader bytes [] (len bytes) 1 None.

Definition CRLF : list byte := [CR; LF].

Definition empty_writer : Bufio.Writer := Bufio.mkWriter [] [] None None.

Definition copying (bytes : list byte) : Bufio.Streams :=
  Bufio.mkStreams (buf_reader bytes) empty_writer.

(** The request [GET foo] as a client sends it, and what is left of
    it once its first line, the multibulk header, has been read. *)
Definition GET_foo_elements : list byte :=
  bs "$3" ++ CRLF ++ bs "GET" ++ CRLF ++ bs "$3" ++ CRLF ++ bs "foo" ++ CRLF.

Definition GET_foo_request : list byte := bs "*2" ++ CRLF ++ GET_foo_elements.


(** A reply of three elements, after its header line [*3]: an
    integer, a bulk message and an integer. *)
Definition mixed_elements : list byte :=
  bs ":1" ++ CRLF ++ bs "$3" ++ CRLF ++ bs "foo" ++ CRLF ++ bs ":2" ++ CRLF.

(** A connection on socket 7 with database [d] recorded, whose server
    answers [reply]. *)
Definition connected (d : Z) (reply : list byte) : Connection.World :=
  Connection.mkWorld
    (Connection.mkConnection (Some 7) d (Some (buf_reader reply))
       (Some empty_writer) "tcp" "localhost:6379" "" "" 50 50 50)
    [].

(** Whether a reply [(line, isPrefix, err)] is the acknowledgement
    [SelectDatabase] waits for: no error, a whole line, and exactly
    [+OK] (see [bytes_Equal_eq]). *)
Definition acknowledged (line : list byte) (isPrefix : bool) (err : option error) : bool :=
  Connection.is_nil err && negb isPrefix && bytes_Equal line OK_RESPONSE.

(** The side of a reader that faces its source is the same in [r'] as
    in [r], and as many bytes are buffered. *)
Definition same_source (r r' : Bufio.Reader) : Prop :=
  Bufio.pending r' = Bufio.pending r /\
  Bufio.fetched r' = Bufio.fetched r /\
  Bufio.reads r' = Bufio.reads r /\
  Bufio.rerr r' = Bufio.rerr r /\
  length (Bufio.buffered r') = length (Bufio.buffered r).

(** A computation that neither reads the source nor consumes the
    buffer, and whose outcome does not depend on the reader. *)
Definition framed {A} (m : M Bufio.Reader A) : Prop :=
  (forall r, same_source r (snd (m r))) /\
  (forall r1 r2, fst (m r1) = fst (m r2)).

(** What [source.Peek(source.Buffered())] returns. *)
Definition peeked (r : Bufio.Reader) : list byte * option error :=
  (Bufio.buffered r,
   if Bufio.defaultBufSize <? Bufio.Buffered r
   then Some bufio_ErrBufferFull else None).

(** A computation that ends normally from every state. *)
Definition never_panics {S A} (m : M S A) : Prop :=
  forall (s : S) (p : panic), fst (m s) <> Panic p.

(** A reply of three bulk elements, after its header line [*3]: a
    payload, the null bulk and the empty payload. *)
Definition bulk_elements : list byte :=
  bs "$3" ++ CRLF ++ bs "foo" ++ CRLF ++ bs "$-1" ++ CRLF ++ bs "$0" ++ CRLF ++ CRLF.

(** The bytes a reader has still to hand out: those it has buffered,
    then those its source will deliver. *)
Definition stream (r : Bufio.Reader) : list byte :=
  Bufio.buffered r ++ concat (map Bufio.chunk_bytes (Bufio.pending r)).

(** A writer that keeps no error and whose destination accepts writes. *)
Definition healthy (w : Bufio.Writer) : Prop :=
  Bufio.werr w = None /\ Bufio.sink_err w = None.

(** No byte of [s] is [c]. *)
Definition absent (c : byte) (s : list byte) : Prop :=
  forallb (fun x => negb (byte_eqb x c)) s = true.

(** The elements of a multibulk reply as they travel: a bulk message
    with the digits of its header and its payload, the null bulk
    [$-1], and an integer reply with the text that follows its ':'. *)
Inductive element : Type :=
| bulk (digits payload : list byte)
| null_bulk
| integer_reply (text : list byte).

Definition encode_element (e : element) : list byte :=
  match e with
  | bulk digits payload => "$"%byte :: digits ++ CRLF ++ payload ++ CRLF
  | null_bulk => ERR_RESPONSE ++ CRLF
  | integer_reply text => ":"%byte :: text ++ CRLF
  end.

Definition encode_elements (es : list element) : list byte :=
  concat (map encode_element es).

(** A bulk header carries at least one digit, its digits give the
    length of the payload, and its line fits the reader's buffer; the
    text of an integer reply has no line feed and fits as well. *)
Definition well_formed_element (e : element) : Prop :=
  match e with
  | bulk digits payload =>
      digits <> [] /\ forallb is_digit digits = true /\
      decimal_value digits = len payload /\ len payload <= int_max /\
      len digits + 2 < Bufio.defaultBufSize
  | null_bulk => True
  | integer_reply text =>
      absent LF text /\ len text + 2 < Bufio.defaultBufSize
  end.

Definition is_integer_reply (e : element) : bool :=
  match e with integer_reply _ => true | _ => false end.

(** A whole reply of the server: a line that is neither a bulk nor a
    multibulk header (status, error, integer, null multibulk), a bulk
    message, or a multibulk message with the digits of its count. *)
Inductive reply : Type :=
| line_reply (text : list byte)
| bulk_reply (e : element)
| multibulk_reply (count : list byte) (es : list element).

Definition encode_reply (rp : reply) : list byte :=
  match rp with
  | line_reply text => text ++ CRLF
  | bulk_reply e => encode_element e
  | multibulk_reply count es => "*"%byte :: count ++ CRLF ++ encode_elements es
  end.

(** The first two bytes of a line that [CopyServerResponse] forwards as
    it is: no '$', and no '*' unless a '-' follows. *)
Definition is_plain_line (text : list byte) : bool :=
  match text with
  | c0 :: c1 :: _ =>
      negb (byte_eqb c0 "$"%byte)
      && (negb (byte_eqb c0 "*"%byte) || byte_eqb c1 "-"%byte)
  | _ => false
  end.

(** The digits [count] of a multibulk header give the number of the
    elements [es], and the header line fits the reader's buffer. *)
Definition counts (count : list byte) (es : list element) : Prop :=
  count <> [] /\ forallb is_digit count = true /\
  decimal_value count = len es /\ len es <= int_max /\
  len count + 2 < Bufio.defaultBufSize.

(** The multibulk messages [CopyMultiBulkMessage] forwards: the count
    is right, and no element is an integer reply. *)
Definition well_formed_multibulk (count : list byte) (es : list element) : Prop :=
  counts count es /\
  Forall well_formed_element es /\ existsb is_integer_reply es = false.

Definition well_formed_reply (rp : reply) : Prop :=
  match rp with
  | line_reply text =>
      is_plain_line text = true /\ absent LF text /\
      len text + 1 < Bufio.defaultBufSize
  | bulk_reply e => well_formed_element e /\ is_integer_reply e = false
  | multibulk_reply count es => well_formed_multibulk count es
  end.

(** A reader with [buffered] in its buffer and one more [Read] of
    [more] to come from its source. *)
Definition net_reader (buffered : list byte) (more : Bufio.chunk) : Bufio.Reader :=
  Bufio.mkReader buffered [more] (len buffered) 1 None.

(** A payload of five bytes that holds a line end, split between the
    buffer and the source, its terminator, and the reply [+OK]. *)
Definition binary_payload_source : Bufio.Reader :=
  net_reader (bs "a" ++ [CR]) (LF, bs "bc" ++ CRLF ++ bs "+OK" ++ CRLF).

(** The reply [*3 $3 foo $-1 :7] and the reply [+OK] behind it,
    arriving in two reads. *)
Definition three_elements : list element :=
  [bulk (bs "3") (bs "foo"); null_bulk; integer_reply (bs "7")].

Definition two_bulk_elements : list element :=
  [bulk (bs "3") (bs "foo"); null_bulk].

(** The elements [$3 foo $-1] followed by the reply [+OK], in two reads. *)
Definition two_elements_source : Bufio.Reader :=
  net_reader (bs "$3" ++ CRLF ++ bs "fo")
             ("o"%byte, CRLF ++ bs "$-1" ++ CRLF ++ bs "+OK" ++ CRLF).

(** The elements [$3 foo $-1 :7] followed by [+OK], in two reads. *)
Definition three_elements_source : Bufio.Reader :=
  net_reader (bs "$3" ++ CRLF ++ bs "fo")
             ("o"%byte, CRLF ++ bs "$-1" ++ CRLF ++ bs ":7" ++ CRLF
                        ++ bs "+OK" ++ CRLF).

(** The whole reply [*2 $3 foo $-1] followed by [+OK], in two reads. *)
Definition multibulk_source : Bufio.Reader :=
  net_reader (bs "*2" ++ CRLF ++ bs "$3" ++ CRLF ++ bs "fo")
             ("o"%byte, CRLF ++ bs "$-1" ++ CRLF ++ bs "+OK" ++ CRLF).

(** The ASCII small letters, the letters, and the small letter of a
    byte: a capital moved down by 32, any other byte itself. *)
Definition is_lower (b : byte) : bool :=
  (97 <=? byte_val b) && (byte_val b <=? 122).

Definition is_letter (b : byte) : bool := is_upper b || is_lower b.

Definition to_lower (b : byte) : byte :=
  if is_upper b then byte_add b x20 else b.

(** All the commands the three tables know. *)
Definition known_commands : list string :=
  Protocol.UNSAFE_FUNCTIONS ++ Protocol.SINGLE_DB_FUNCTIONS
    ++ Protocol.PUBSUB_FUNCTIONS.

(** No key of [a] is a key of [b]. *)
Definition tables_apart (a b : list string) : bool :=
  forallb (fun key => negb (Protocol.lookup b (bs key))) a.

(** What [Disconnect] adds to the effects: the close of the socket
    and the count of the disconnect when there is a socket, nothing
    when there is none. *)
Definition closing (c : Connection.Connection) : list Connection.event :=
  match Connection.connection c with
  | Some socket =>
      [Connection.socket_Close socket; Connection.graphite_Increment "disconnect"]
  | None => []
  end.

(** The world after a dial that gave [socket], as [authenticate] finds
    it: the old socket closed, the new one in its place, database 0, a
    reader and a writer that have read and written nothing yet, and
    the configuration as it was. *)
Definition dialled (socket : Z) (incoming : list Bufio.chunk)
    (refuses : option error) (w : Connection.World) : Connection.World :=
  let c := Connection.this w in
  Connection.mkWorld
    (Connection.mkConnection
       (Some socket) 0
       (Some (Bufio.mkReader [] incoming 0 0 None))
       (Some (Bufio.mkWriter [] [] None refuses))
       (Connection.protocol c) (Connection.endpoint c)
       (Connection.authUser c) (Connection.authPassword c)
       (Connection.connectTimeout c) (Connection.readTimeout c)
       (Connection.writeTimeout c))
    (Connection.trace w ++ closing c).

(** A connection that is torn down, one that is live, and the
    invariant that it is one or the other. *)
Definition torn_down (c : Connection.Connection) : Prop :=
  Connection.connection c = None /\ Connection.Reader c = None /\
  Connection.Writer c = None /\ Connection.DatabaseId c = 0.

Definition live (c : Connection.Connection) : Prop :=
  Connection.connection c <> None /\ Connection.Reader c <> None /\
  Connection.Writer c <> None.

Definition consistent (c : Connection.Connection) : Prop :=
  torn_down c \/ live c.

(** An operation that, started on a consistent connection, ends
    normally on a consistent connection. *)
Definition keeps_consistent {A} (m : M Connection.World A) : Prop :=
  forall w : Connection.World,
    consistent (Connection.this w) ->
    (exists a, fst (m w) = Done a) /\
    consistent (Connection.this (snd (m w))).

(** A connection on socket 7 with credentials, database [d] recorded,
    whose server answers [reply]. *)
Definition session (user password : string) (d : Z) (reply : list byte)
  : Connection.World :=
  Connection.mkWorld
    (Connection.mkConnection (Some 7) d (Some (buf_reader reply))
       (Some empty_writer) "tcp" "localhost:6379" user password 50 50 50)
    [].

(** Whether a reply [(line, isPrefix, err)] is the answer
    [CheckConnection] waits for: no error, a whole line, exactly [+PONG]. *)
Definition ponged (line : list byte) (isPrefix : bool) (err : option error) : bool :=
  Connection.is_nil err && negb isPrefix && bytes_Equal line PONG_RESPONSE.

(** The part of a full buffer that [ReadLine] hands out as a line: all
    of it, or all but a final CR, which it keeps for the next call. *)
Definition cut_line (full : list byte) : list byte :=
  match rev full with
  | last :: front => if byte_eqb last CR then rev front else full
  | [] => full
  end.

(** An error line of 4098 bytes, [-ERR xx...xyz]: its first 4096
    bytes, and a source that delivers the line and its CR LF. *)
Definition long_line : list byte := bs "-ERR " ++ repeat "x"%byte 4091.

Definition long_line_source : Bufio.Streams :=
  Bufio.mkStreams
    (net_reader [] ("-"%byte, bs "ERR " ++ repeat "x"%byte 4091 ++ bs "yz" ++ CRLF))
    empty_writer.

(** * Properties *)

(** ** Bytes and machine integers *)

Lemma digit_test (b : byte) :
  (9 <? byte_val (byte_sub b "0"%byte)) = negb (is_digit b).
Proof. destruct b; reflexivity. Qed.

Lemma digit_offset (b : byte) :
  is_digit b = true -> byte_val (byte_sub b "0"%byte) = byte_val b - 48.
Proof. destruct b; intros H; try discriminate H; reflexivity. Qed.

Lemma byte_val_range (b : byte) : 0 <= byte_val b < 256.
Proof. destruct b; vm_compute; split; congruence. Qed.

Lemma is_digit_range (b : byte) :
  is_digit b = true -> 0 <= byte_val b - 48 <= 9.
Proof. unfold is_digit. intros H. apply andb_prop in H. lia. Qed.

Lemma wrap_mod (x : Z) : wrap x mod 2 ^ 64 = x mod 2 ^ 64.
Proof.
  unfold wrap.
  rewrite Zminus_mod, Zmod_mod, <- Zminus_mod.
  f_equal. lia.
Qed.

Lemma wrap_congr (x y : Z) : x mod 2 ^ 64 = y mod 2 ^ 64 -> wrap x = wrap y.
Proof.
  intros H. unfold wrap.
  rewrite (Zplus_mod x), (Zplus_mod y), H. reflexivity.
Qed.

Lemma wrap_small (x : Z) : int_min <= x <= int_max -> wrap x = x.
Proof.
  unfold wrap, int_min, int_max. intros H.
  rewrite Z.mod_small; lia.
Qed.

Lemma wrap_range (x : Z) : int_min <= wrap x <= int_max.
Proof.
  unfold wrap, int_min, int_max.
  pose proof (Z.mod_pos_bound (x + 2 ^ 63) (2 ^ 64) ltac:(lia)). lia.
Qed.

Lemma wrap_fixed (x : Z) : wrap x = x <-> int_min <= x <= int_max.
Proof.
  split.
  - intros H. rewrite <- H. apply wrap_range.
  - apply wrap_small.
Qed.

(** One round of the accumulator of [ParseInt] is one round of the
    exact computation, modulo [2 ^ 64]. *)
Lemma wrap_round (a d : Z) :
  int_add (int_mul (wrap a) 10) d = wrap (a * 10 + d).
Proof.
  unfold int_add, int_mul. apply wrap_congr.
  rewrite Zplus_mod, wrap_mod, Zmult_mod, wrap_mod.
  rewrite <- Zmult_mod, <- Zplus_mod. reflexivity.
Qed.

(** ** [ParseInt] *)

Lemma ParseInt_loop_err (response : list byte) (acc : Z) :
  snd (Protocol.ParseInt_loop response acc)
  = if forallb is_digit response then None else Some ERROR_INVALID_INT.
Proof.
  revert acc. induction response as [|b rest IH]; intros acc; simpl.
  - reflexivity.
  - rewrite digit_test. destruct (is_digit b); simpl.
    + apply IH.
    + reflexivity.
Qed.

Lemma ParseInt_loop_digits (response : list byte) (acc : Z) :
  forallb is_digit response = true ->
  Protocol.ParseInt_loop response (wrap acc)
  = (wrap (fold_left (fun a b => a * 10 + (byte_val b - 48)) response acc), None).
Proof.
  revert acc. induction response as [|b rest IH]; intros acc H; simpl in *.
  - reflexivity.
  - apply andb_prop in H. destruct H as [Hb Hrest].
    rewrite digit_test, Hb. simpl.
    rewrite (digit_offset b Hb), wrap_round.
    apply IH, Hrest.
Qed.

Lemma ParseInt_digits (response : list byte) :
  forallb is_digit response = true ->
  Protocol.ParseInt response = (wrap (decimal_value response), None).
Proof.
  intros H. unfold Protocol.ParseInt, decimal_value.
  change 0 with (wrap 0) at 1.
  apply ParseInt_loop_digits, H.
Qed.

Lemma fold_decimal_nonneg (digits : list byte) (acc : Z) :
  forallb is_digit digits = true -> 0 <= acc ->
  0 <= fold_left (fun a b => a * 10 + (byte_val b - 48)) digits acc.
Proof.
  revert acc. induction digits as [|b rest IH]; intros acc H Hacc; simpl in *.
  - assumption.
  - apply andb_prop in H. destruct H as [Hb Hrest].
    apply IH; [assumption|].
    pose proof (is_digit_range b Hb). lia.
Qed.

Lemma decimal_value_nonneg (digits : list byte) :
  forallb is_digit digits = true -> 0 <= decimal_value digits.
Proof. intros H. apply fold_decimal_nonneg; [assumption | lia]. Qed.

(** C7.  [ParseInt] accepts unsigned decimal digit strings and nothing
    else: "0" gives 0, "123" gives 123, "12a" is an invalid integer,
    the empty input gives 0 with no error, a sign is refused, and in
    general the error is [ERROR_INVALID_INT] exactly when some byte of
    the input is not one of '0'..'9'. *)
Theorem ParseInt_unsigned_decimal :
  Protocol.ParseInt (bs "0") = (0, None) /\
  Protocol.ParseInt (bs "123") = (123, None) /\
  snd (Protocol.ParseInt (bs "12a")) = Some ERROR_INVALID_INT /\
  Protocol.ParseInt [] = (0, None) /\
  snd (Protocol.ParseInt (bs "+1")) = Some ERROR_INVALID_INT /\
  snd (Protocol.ParseInt (bs "-1")) = Some ERROR_INVALID_INT /\
  (forall response : list byte,
      snd (Protocol.ParseInt response)
      = if forallb is_digit response then None else Some ERROR_INVALID_INT).
Proof.
  repeat split; try reflexivity.
  intros response. apply ParseInt_loop_err.
Qed.

(** C10.  On an input made of digits only [ParseInt] returns no
    error and the exact decimal value reduced modulo [2 ^ 64] into the
    signed range: the exact value when it is at most [2 ^ 63 - 1], and
    otherwise another number, which can be negative, as for
    "9223372036854775808". *)
Theorem ParseInt_wraps_silently :
  (forall digits : list byte,
      forallb is_digit digits = true ->
      Protocol.ParseInt digits = (wrap (decimal_value digits), None) /\
      (fst (Protocol.ParseInt digits) = decimal_value digits
       <-> decimal_value digits <= int_max)) /\
  Protocol.ParseInt (bs "9223372036854775808") = (- 2 ^ 63, None).
Proof.
  split; [|reflexivity].
  intros digits H. rewrite (ParseInt_digits digits H). split; [reflexivity|].
  simpl fst. rewrite wrap_fixed.
  pose proof (decimal_value_nonneg digits H).
  unfold int_min. lia.
Qed.

Lemma ParseInt_wraps_silently_witness :
  Protocol.ParseInt (bs "18446744073709551619") = (wrap (2 ^ 64 + 3), None) /\
  (fst (Protocol.ParseInt (bs "18446744073709551619")) = 2 ^ 64 + 3
   <-> 2 ^ 64 + 3 <= int_max).
Proof.
  exact (proj1 ParseInt_wraps_silently (bs "18446744073709551619") eq_refl).
Defined.

(** ** [Disconnect] *)

Lemma Disconnect_unfold (w : Connection.World) :
  Connection.Disconnect w
  = (Done tt,
     Connection.mkWorld
       (Connection.mkConnection None 0 None None
          (Connection.protocol (Connection.this w))
          (Connection.endpoint (Connection.this w))
          (Connection.authUser (Connection.this w))
          (Connection.authPassword (Connection.this w))
          (Connection.connectTimeout (Connection.this w))
          (Connection.readTimeout (Connection.this w))
          (Connection.writeTimeout (Connection.this w)))
       (Connection.trace w
        ++ match Connection.connection (Connection.this w) with
           | Some socket =>
               [Connection.socket_Close socket;
                Connection.graphite_Increment "disconnect"]
           | None => []
           end)).
Proof.
  destruct w as [c t].
  cbv [Connection.Disconnect Connection.get Connection.emit
       Connection.modify bind ret].
  simpl. destruct (Connection.connection c); simpl.
  - rewrite <- app_assoc. reflexivity.
  - rewrite app_nil_r. reflexivity.
Qed.

(** C9.  [Disconnect] never fails, and doing it twice is doing it
    once: the first call closes the socket if there is one and leaves
    the connection without socket, reader and writer and with database
    0; the second call closes nothing and leaves that state as it is. *)
Theorem Disconnect_idempotent (w : Connection.World) :
  fst (Connection.Disconnect w) = Done tt /\
  Connection.Disconnect (snd (Connection.Disconnect w))
  = (Done tt, snd (Connection.Disconnect w)) /\
  Connection.connection (Connection.this (snd (Connection.Disconnect w))) = None /\
  Connection.Reader (Connection.this (snd (Connection.Disconnect w))) = None /\
  Connection.Writer (Connection.this (snd (Connection.Disconnect w))) = None /\
  Connection.DatabaseId (Connection.this (snd (Connection.Disconnect w))) = 0 /\
  Connection.trace (snd (Connection.Disconnect w))
  = Connection.trace w
    ++ match Connection.connection (Connection.this w) with
       | Some socket =>
           [Connection.socket_Close socket;
            Connection.graphite_Increment "disconnect"]
       | None => []
       end.
Proof.
  rewrite (Disconnect_unfold w). simpl.
  repeat split.
Qed.

(** ** [SelectDatabase] *)

Lemma byte_eqb_eq (a b : byte) : byte_eqb a b = true <-> a = b.
Proof.
  unfold byte_eqb. split.
  - intros H. apply Byte.byte_dec_bl. exact H.
  - intros ->. apply Byte.byte_dec_lb. reflexivity.
Qed.

Lemma bytes_Equal_eq (a b : list byte) : bytes_Equal a b = true <-> a = b.
Proof.
  revert b. induction a as [|x a IH]; intros [|y b]; simpl;
    try (split; [discriminate | discriminate]); try tauto.
  rewrite andb_true_iff, byte_eqb_eq, IH.
  split.
  - intros [-> ->]. reflexivity.
  - intros H. injection H as -> ->. tauto.
Qed.

(** The write of a line touches nothing but the writer. *)
Lemma WriteLine_world (line : list byte) (flush : bool)
      (c : Connection.Connection) (t : list Connection.event) (wr : Bufio.Writer) :
  Connection.Writer c = Some wr ->
  exists (err : option error) (wr' : Bufio.Writer),
    Connection.WriteLine line flush (Connection.mkWorld c t)
    = (Done err, Connection.mkWorld (Connection.set_Writer (Some wr') c) t).
Proof.
  intros Hw.
  cbv [Connection.WriteLine Connection.get Connection.modify bind ret].
  simpl. rewrite Hw.
  destruct (Bufio.Write line wr) as [e1 w1].
  destruct e1 as [e1|].
  - exists (Some e1), w1. reflexivity.
  - destruct (Bufio.Write REDIS_NEWLINE w1) as [e2 w2].
    destruct e2 as [e2|].
    + exists (Some e2), w2. reflexivity.
    + destruct flush.
      * destruct (Bufio.Flush w2) as [e3 w3]. exists e3, w3. reflexivity.
      * exists None, w2. reflexivity.
Qed.

(** C2, as the code has it.  On a connection with a socket, once the
    select command has been written, [SelectDatabase] reads one reply.
    If the reply is exactly [+OK] it records the requested index and
    returns no error, the socket staying open.  On any other reply
    (a read error, a prefix of a longer line, another line) it
    disconnects and returns the selection error: the socket is closed,
    reader and writer are cleared, and the recorded index is reset to
    0, whatever it was before. *)
Theorem SelectDatabase_reply
    (w : Connection.World) (id socket : Z) (rd : Bufio.Reader) :
  Connection.connection (Connection.this w) = Some socket ->
  Connection.Reader (Connection.this w) = Some rd ->
  fst (Connection.WriteLine (Connection.select_command id) true w) = Done None ->
  let '(line, isPrefix, err, _) := Bufio.ReadLine rd in
  let w' := snd (Connection.SelectDatabase id w) in
  if acknowledged line isPrefix err then
    fst (Connection.SelectDatabase id w) = Done None /\
    Connection.DatabaseId (Connection.this w') = id /\
    Connection.connection (Connection.this w') = Some socket /\
    Connection.trace w' = Connection.trace w
  else
    fst (Connection.SelectDatabase id w)
    = Done (Some (errors_New "Invalid select response")) /\
    Connection.DatabaseId (Connection.this w') = 0 /\
    Connection.connection (Connection.this w') = None /\
    Connection.Reader (Connection.this w') = None /\
    Connection.Writer (Connection.this w') = None /\
    Connection.trace w'
    = Connection.trace w
      ++ [Connection.socket_Close socket;
          Connection.graphite_Increment "disconnect"].
Proof.
  destruct w as [c t]. simpl. intros Hc Hr Hw.
  destruct (Connection.Writer c) as [wr|] eqn:Hwr.
  2:{ revert Hw.
      cbv [Connection.WriteLine Connection.get bind throw]. simpl.
      rewrite Hwr. discriminate. }
  destruct (WriteLine_world (Connection.select_command id) true c t wr Hwr)
    as (e & wr' & HW).
  rewrite HW in Hw. simpl in Hw. injection Hw as ->.
  destruct (Bufio.ReadLine rd) as [[[line isPrefix] err] rd'] eqn:HRL.
  cbv zeta.
  unfold Connection.SelectDatabase.
  cbv [bind Connection.get ret]. simpl. rewrite Hc. simpl.
  rewrite HW.
  cbv [Connection.Reader_ReadLine Connection.get bind]. simpl.
  rewrite Hr. rewrite HRL.
  cbv [Connection.modify bind ret]. simpl.
  unfold acknowledged.
  destruct err as [e|]; simpl.
  - rewrite Disconnect_unfold. simpl. rewrite Hc. repeat split.
  - destruct isPrefix; simpl.
    + rewrite Disconnect_unfold. simpl. rewrite Hc. repeat split.
    + destruct (bytes_Equal line OK_RESPONSE); simpl.
      * rewrite Hc. repeat split.
      * rewrite Disconnect_unfold. simpl. rewrite Hc. repeat split.
Qed.

(** ** [GetCommand] and the reader's source *)

Lemma same_source_refl (r : Bufio.Reader) : same_source r r.
Proof. repeat split. Qed.

Lemma same_source_trans (r1 r2 r3 : Bufio.Reader) :
  same_source r1 r2 -> same_source r2 r3 -> same_source r1 r3.
Proof.
  unfold same_source. intros (a1 & a2 & a3 & a4 & a5) (b1 & b2 & b3 & b4 & b5).
  repeat split; congruence.
Qed.

Lemma framed_ret {A} (a : A) : framed (ret a).
Proof. split; intros; [apply same_source_refl | reflexivity]. Qed.

Lemma framed_throw {A} (p : panic) : framed (@throw Bufio.Reader A p).
Proof. split; intros; [apply same_source_refl | reflexivity]. Qed.

Lemma framed_bind {A B} (m : M Bufio.Reader A) (k : A -> M Bufio.Reader B) :
  framed m -> (forall a, framed (k a)) -> framed (bind m k).
Proof.
  intros [Hs Hv] Hk. split.
  - intros r. unfold bind. specialize (Hs r).
    destruct (m r) as [[a|p] r']; simpl in *.
    + eapply same_source_trans; [exact Hs | apply (Hk a)].
    + exact Hs.
  - intros r1 r2. unfold bind. specialize (Hv r1 r2).
    destruct (m r1) as [[a1|p1] r1'], (m r2) as [[a2|p2] r2'];
      simpl in *; try discriminate.
    + injection Hv as ->. apply (Hk a2).
    + injection Hv as ->. reflexivity.
Qed.

Lemma framed_slice (s : list byte) (lo hi : Z) : framed (@slice Bufio.Reader s lo hi).
Proof.
  unfold slice.
  destruct ((0 <=? lo) && (lo <=? hi) && (hi <=? len s));
    [apply framed_ret | apply framed_throw].
Qed.

Lemma overwrite_at_length (s : list byte) (off : nat) (data : list byte) :
  length (overwrite_at s off data) = length s.
Proof.
  revert off data. induction s as [|x s IH]; intros off data; simpl.
  - reflexivity.
  - destruct off as [|off].
    + destruct data as [|d data]; simpl; [reflexivity | now rewrite IH].
    + simpl. now rewrite IH.
Qed.

Lemma framed_store (off : Z) (data : list byte) : framed (Protocol.store off data).
Proof.
  split.
  - intros r. unfold Protocol.store, same_source, overwrite. simpl.
    rewrite overwrite_at_length. repeat split.
  - reflexivity.
Qed.

Ltac framed_steps :=
  repeat first
    [ apply framed_ret
    | apply framed_throw
    | apply framed_slice
    | apply framed_store
    | apply framed_bind; [| intros ?]
    | match goal with
      | |- framed (match ?x with _ => _ end) => destruct x
      end ].

Lemma Peek_Buffered (r : Bufio.Reader) :
  Bufio.Peek (Bufio.Buffered r) r = (peeked r, r).
Proof.
  unfold Bufio.Peek, peeked.
  assert (H0 : (Bufio.Buffered r <? 0) = false).
  { apply Z.ltb_ge. unfold Bufio.Buffered, len. lia. }
  rewrite H0. cbn [Bufio.Peek_fill].
  rewrite !Z.ltb_irrefl. cbn [andb].
  destruct (Bufio.defaultBufSize <? Bufio.Buffered r); [reflexivity|].
  unfold Bufio.Buffered, len. rewrite Nat2Z.id, firstn_all. reflexivity.
Qed.

Lemma bind_Buffered_Peek {A}
      (k : list byte * option error -> M Bufio.Reader A) (r : Bufio.Reader) :
  bind Protocol.source_Buffered (fun n => bind (Protocol.source_Peek n) k) r
  = k (peeked r) r.
Proof.
  cbv [bind Protocol.source_Buffered Protocol.source_Peek].
  rewrite Peek_Buffered. reflexivity.
Qed.

(** C8.  [GetCommand] looks at the bytes the buffer already holds and
    at nothing else.  Whatever its outcome (a result, an error, a
    panic), the source has received no further [Read] call and given
    no further byte, its pending data and the reader's kept error are
    as before, and as many bytes are buffered; and the outcome is the
    one the same buffer gives over a source with nothing left. *)
Theorem GetCommand_reads_nothing (r : Bufio.Reader) :
  same_source r (snd (Protocol.GetCommand r)) /\
  fst (Protocol.GetCommand r)
  = fst (Protocol.GetCommand (buf_reader (Bufio.buffered r))).
Proof.
  unfold Protocol.GetCommand.
  rewrite !bind_Buffered_Peek.
  assert (Hp : peeked (buf_reader (Bufio.buffered r)) = peeked r) by reflexivity.
  rewrite Hp.
  destruct (peeked r) as [contents err].
  match goal with
  | |- same_source r (snd (?k r)) /\ _ =>
      assert (Hk : framed k); [| split; apply Hk]
  end.
  framed_steps.
Qed.

(** ** Slices of a buffer laid out as header, payload and rest *)

Lemma len_app {A} (a b : list A) : len (a ++ b) = len a + len b.
Proof. unfold len. rewrite length_app. lia. Qed.

Lemma len_cons {A} (x : A) (a : list A) : len (x :: a) = 1 + len a.
Proof. unfold len. simpl length. lia. Qed.

Lemma len_nonneg {A} (a : list A) : 0 <= len a.
Proof. unfold len. lia. Qed.

Lemma len_map {A B} (f : A -> B) (a : list A) : len (map f a) = len a.
Proof. unfold len. now rewrite length_map. Qed.

Lemma bind_ret {S A B} (a : A) (k : A -> M S B) : bind (ret a) k = k a.
Proof. reflexivity. Qed.

Lemma IndexByte_from_app (a rest : list byte) (c : byte) (i : Z) :
  forallb (fun x => negb (byte_eqb x c)) a = true ->
  IndexByte_from (a ++ c :: rest) c i = i + len a.
Proof.
  revert i. induction a as [|x a IH]; intros i H; simpl in *.
  - assert (Hc : byte_eqb c c = true) by now apply byte_eqb_eq.
    rewrite Hc. unfold len. simpl. lia.
  - apply andb_prop in H. destruct H as [Hx Ha].
    apply negb_true_iff in Hx. rewrite Hx, (IH _ Ha), len_cons. lia.
Qed.

Lemma digits_hold_no_CR (ds : list byte) :
  forallb is_digit ds = true ->
  forallb (fun x => negb (byte_eqb x CR)) ds = true.
Proof.
  induction ds as [|d ds IH]; simpl; [reflexivity|].
  intros H. apply andb_prop in H. destruct H as [Hd Hds].
  rewrite (IH Hds), andb_true_r.
  destruct d; try discriminate Hd; reflexivity.
Qed.

(** The index of the carriage return that ends a header [h :: ds]. *)
Lemma IndexByte_header (h : byte) (ds rest : list byte) :
  byte_eqb h CR = false -> forallb is_digit ds = true ->
  IndexByte (h :: ds ++ CR :: rest) CR = 1 + len ds.
Proof.
  intros Hh Hds. unfold IndexByte.
  change (h :: ds ++ CR :: rest) with ((h :: ds) ++ CR :: rest).
  rewrite IndexByte_from_app.
  - rewrite len_cons. lia.
  - simpl. rewrite Hh. simpl. now apply digits_hold_no_CR.
Qed.

Lemma slice_middle {S} (a b c : list byte) (lo hi : Z) :
  lo = len a -> hi = len a + len b ->
  @slice S (a ++ b ++ c) lo hi = ret b.
Proof.
  intros -> ->. unfold slice.
  assert (Hc : (0 <=? len a) && (len a <=? len a + len b)
               && (len a + len b <=? len (a ++ b ++ c)) = true).
  { rewrite !len_app.
    pose proof (len_nonneg a). pose proof (len_nonneg b).
    pose proof (len_nonneg c).
    rewrite !andb_true_iff, !Z.leb_le. lia. }
  rewrite Hc. f_equal.
  replace (len a + len b - len a) with (len b) by lia.
  unfold len. rewrite !Nat2Z.id.
  rewrite skipn_app, skipn_all, Nat.sub_diag. simpl.
  rewrite firstn_app, firstn_all, Nat.sub_diag. simpl.
  apply app_nil_r.
Qed.

Lemma overwrite_middle (a b c data : list byte) (off : Z) :
  off = len a -> length data = length b ->
  overwrite (a ++ b ++ c) off data = a ++ data ++ c.
Proof.
  intros -> Hlen. unfold overwrite, len. rewrite Nat2Z.id.
  induction a as [|x a IH]; simpl.
  - revert data Hlen. induction b as [|y b IHb]; intros [|d data] Hlen;
      simpl in *; try discriminate.
    + destruct c; reflexivity.
    + f_equal. apply IHb. now injection Hlen.
  - f_equal. exact IH.
Qed.

(** A digit string whose value fits is parsed exactly. *)
Lemma ParseInt_exact (ds : list byte) :
  forallb is_digit ds = true -> decimal_value ds <= int_max ->
  Protocol.ParseInt ds = (decimal_value ds, None).
Proof.
  intros Hds Hfit. rewrite (ParseInt_digits ds Hds), wrap_small; [reflexivity|].
  pose proof (decimal_value_nonneg ds Hds). unfold int_min. lia.
Qed.

Lemma int_add_small (a b : Z) :
  int_min <= a + b <= int_max -> int_add a b = a + b.
Proof. apply wrap_small. Qed.

Ltac lens := repeat (rewrite len_app || rewrite len_cons || rewrite len_map);
             change (len (@nil byte)) with 0.

Lemma bind_store {A} (off : Z) (data : list byte)
      (k : unit -> M Bufio.Reader A) (r : Bufio.Reader) :
  bind (Protocol.store off data) k r
  = k tt (Bufio.set_buffered (overwrite (Bufio.buffered r) off data) r).
Proof. reflexivity. Qed.



(** ** [GetCommand] on requests *)

(** C1, as stated, fails: on the whole request [GetCommand] takes the
    2 of the header [*2] for the length of the command, returns the
    two bytes that follow it ([$3], shifted to [DS]) and stops on the
    next length with [ERROR_INVALID_INT]. *)
Lemma GetCommand_whole_request :
  fst (Protocol.GetCommand (buf_reader GET_foo_request))
  = Done (Some (bs "DS"), None, Some ERROR_INVALID_INT) /\
  fst (Protocol.GetCommand (buf_reader GET_foo_request))
  <> Done (Some (bs "get"), Some (bs "foo"), None).
Proof. split; [reflexivity | discriminate]. Qed.

(** C1, as the code has it.  [GetCommand] reads the first line of the
    buffer as the length of the command: applied to a reader that
    holds the request after its header line, the elements
    [$3 GET $3 foo], it returns the command "get", the first argument
    "foo" and no error, whatever the source has still to give. *)
Theorem GetCommand_GET_foo
    (pending : list Bufio.chunk) (fetched reads : Z) (rerr : option error) :
  fst (Protocol.GetCommand
         (Bufio.mkReader GET_foo_elements pending fetched reads rerr))
  = Done (Some (bs "get"), Some (bs "foo"), None).
Proof. reflexivity. Qed.

(** C5.  The loop over the command adds 32 to every byte up to 'Z',
    not only to the capitals: a byte above 'Z' is kept, a capital
    becomes its small letter, and every byte below 'A' is shifted as
    well, '1' to 'Q' and '-' to 'M', so that the command [A1-z] comes
    back as [aQMz]. *)
Theorem lowercaseize_shifts_low_bytes :
  (forall b : byte,
      byte_val (Protocol.lowercaseize b)
      = if is_upper b then byte_val b + 32
        else if byte_val b <? 65 then byte_val b + 32
        else byte_val b) /\
  Protocol.lowercaseize "1"%byte = "Q"%byte /\
  Protocol.lowercaseize "-"%byte = "M"%byte /\
  fst (Protocol.GetCommand (buf_reader (bs "$4" ++ CRLF ++ bs "A1-z" ++ CRLF)))
  = Done (Some (bs "aQMz"), None, None).
Proof.
  repeat split.
  intros b. destruct b; reflexivity.
Qed.




(** Outside those bounds [GetCommand] can panic: a declared length
    of [2 ^ 63 - 1] makes the bound check wrap around and the slice
    expression fail, and so does a buffer that starts with a carriage
    return, whose header slice is [contents[1:0]]. *)
Lemma GetCommand_panics :
  fst (Protocol.GetCommand
         (buf_reader (bs "$9223372036854775807" ++ CRLF ++ bs "GET" ++ CRLF)))
  = Panic slice_bounds_out_of_range /\
  fst (Protocol.GetCommand (buf_reader CRLF)) = Panic slice_bounds_out_of_range.
Proof. split; reflexivity. Qed.

(** ** The streaming operations on replies *)

(** A line that starts with ':' is no bulk header for [copyBulkMessage]. *)
Lemma copyBulkMessage_integer_line (rest : list byte) (s : Bufio.Streams) :
  Protocol.copyBulkMessage (":"%byte :: rest) s
  = (Done (Some ERROR_BAD_BULK_FORMAT), s).
Proof.
  unfold Protocol.copyBulkMessage, Protocol.bad_first_line.
  destruct (len (":"%byte :: rest) <? 2) eqn:Hlen.
  - reflexivity.
  - unfold index. rewrite len_cons.
    pose proof (len_nonneg rest).
    replace ((0 <=? 0) && (0 <? 1 + len rest)) with true
      by (symmetry; rewrite andb_true_iff, Z.leb_le, Z.ltb_lt; lia).
    reflexivity.
Qed.

(** C3.  [CopyMultiBulkMessage] hands every element line to
    [copyBulkMessage], integer replies included, and that one refuses
    a line that does not start with '$'.  On the reply
    [*3 :1 $3 foo :2] it returns [ERROR_BAD_BULK_FORMAT] with nothing
    but the header line written, through [CopyServerResponse] as
    well, whereas [IgnoreMultiBulkMessage] skips the integer lines and
    ends with no error. *)
Theorem CopyMultiBulkMessage_integer_element :
  fst (Protocol.CopyMultiBulkMessage (bs "*3") (copying mixed_elements))
  = Done (Some ERROR_BAD_BULK_FORMAT) /\
  Bufio.output (Bufio.destination
    (snd (Protocol.CopyMultiBulkMessage (bs "*3") (copying mixed_elements))))
  = bs "*3" ++ CRLF /\
  fst (Protocol.CopyServerResponse (copying (bs "*3" ++ CRLF ++ mixed_elements)))
  = Done (Some ERROR_BAD_BULK_FORMAT) /\
  fst (Protocol.IgnoreMultiBulkMessage (bs "*3") (buf_reader mixed_elements))
  = Done None /\
  (forall (rest : list byte) (s : Bufio.Streams),
      Protocol.copyBulkMessage (":"%byte :: rest) s
      = (Done (Some ERROR_BAD_BULK_FORMAT), s)).
Proof.
  split; [reflexivity|]. split; [reflexivity|]. split; [reflexivity|].
  split; [vm_compute; reflexivity|].
  exact copyBulkMessage_integer_line.
Qed.

(** C4.  [IgnoreMultiBulkMessage] reads the first byte of each element
    line before any test of its length: on the reply [*1] followed by
    an empty line it panics with an index out of range.  The copying
    operations test the length first and return
    [ERROR_BAD_BULK_FORMAT] on the same bytes. *)
Theorem IgnoreMultiBulkMessage_empty_line :
  fst (Protocol.IgnoreMultiBulkMessage (bs "*1") (buf_reader CRLF))
  = Panic index_out_of_range /\
  fst (Bufio.ReadLine (buf_reader CRLF)) = ([], false, None) /\
  fst (Protocol.CopyMultiBulkMessage (bs "*1") (copying CRLF))
  = Done (Some ERROR_BAD_BULK_FORMAT) /\
  fst (Protocol.CopyServerResponse (copying CRLF))
  = Done (Some ERROR_BAD_BULK_FORMAT).
Proof. repeat split. Qed.

(** A reply made of bulk elements only is forwarded as it is. *)
Lemma CopyMultiBulkMessage_bulk_elements :
  fst (Protocol.CopyMultiBulkMessage (bs "*3") (copying bulk_elements))
  = Done None /\
  Bufio.sent (Bufio.destination
    (snd (Protocol.CopyMultiBulkMessage (bs "*3") (copying bulk_elements))))
  = bs "*3" ++ CRLF ++ bulk_elements /\
  Bufio.buffered (Bufio.source
    (snd (Protocol.CopyMultiBulkMessage (bs "*3") (copying bulk_elements))))
  = [].
Proof. repeat split. Qed.

(** ** The copying operations never panic *)

Lemma never_panics_ret {S A} (a : A) : never_panics (@ret S A a).
Proof. intros s p. discriminate. Qed.

Lemma never_panics_bind {S A B} (m : M S A) (k : A -> M S B) :
  never_panics m -> (forall a, never_panics (k a)) -> never_panics (bind m k).
Proof.
  intros Hm Hk s p. unfold bind. specialize (Hm s).
  destruct (m s) as [[a|q] s']; simpl in *.
  - apply Hk.
  - exfalso. apply (Hm q). reflexivity.
Qed.

Lemma never_panics_on_source {A} (m : M Bufio.Reader A) :
  never_panics m -> never_panics (Protocol.on_source m).
Proof.
  intros Hm s p. unfold Protocol.on_source. specialize (Hm (Bufio.source s) p).
  destruct (m (Bufio.source s)) as [o r']. exact Hm.
Qed.

Lemma never_panics_ReadLine : never_panics Protocol.source_ReadLine.
Proof.
  intros r p. unfold Protocol.source_ReadLine.
  destruct (Bufio.ReadLine r) as [[[l b] e] r']. discriminate.
Qed.

Lemma never_panics_ReadByte : never_panics Protocol.source_ReadByte.
Proof.
  intros r p. unfold Protocol.source_ReadByte.
  destruct (Bufio.ReadByte r) as [[c e] r']. discriminate.
Qed.

Lemma never_panics_Read_bytes (k : Z) : never_panics (Protocol.source_Read_bytes k).
Proof.
  intros r p. unfold Protocol.source_Read_bytes.
  destruct (Bufio.Read k r) as [[c e] r']. discriminate.
Qed.

Lemma never_panics_Write (bytes : list byte) :
  never_panics (Protocol.destination_Write bytes).
Proof.
  intros s p. unfold Protocol.destination_Write.
  destruct (Bufio.Write bytes (Bufio.destination s)). discriminate.
Qed.

Lemma never_panics_Flush : never_panics Protocol.destination_Flush.
Proof.
  intros s p. unfold Protocol.destination_Flush.
  destruct (Bufio.Flush (Bufio.destination s)). discriminate.
Qed.

Ltac never_panics_steps :=
  repeat first
    [ apply never_panics_ret
    | apply never_panics_Write
    | apply never_panics_Flush
    | apply never_panics_ReadLine
    | apply never_panics_ReadByte
    | apply never_panics_Read_bytes
    | apply never_panics_on_source
    | apply never_panics_bind; [| intros ?]
    | match goal with
      | |- never_panics (match ?x with _ => _ end) => destruct x
      end ].

Lemma never_panics_read_newline : never_panics Protocol.read_newline.
Proof. unfold Protocol.read_newline. never_panics_steps. Qed.

Lemma never_panics_writeLine (line : list byte) :
  never_panics (Protocol.writeLine line).
Proof. unfold Protocol.writeLine. never_panics_steps. Qed.

Lemma never_panics_flush_if_full : never_panics Protocol.flush_if_full.
Proof.
  intros s p. unfold Protocol.flush_if_full.
  destruct (Bufio.Available (Bufio.destination s) <=? 0); [|discriminate].
  apply never_panics_Flush.
Qed.

Lemma never_panics_limited_Read (room left : Z) :
  never_panics (Protocol.limited_Read room left).
Proof.
  unfold Protocol.limited_Read.
  destruct (left <=? 0); [apply never_panics_ret | apply never_panics_Read_bytes].
Qed.

Lemma never_panics_ReadFrom_loop (fuel : nat) (left n : Z) :
  never_panics (Protocol.ReadFrom_loop fuel left n).
Proof.
  revert left n. induction fuel as [|fuel IH]; intros left n; simpl.
  - apply never_panics_ret.
  - apply never_panics_bind; [apply never_panics_flush_if_full|].
    intros [e|]; [apply never_panics_ret|].
    apply never_panics_bind; [intros s p; discriminate|]. intros room.
    apply never_panics_bind;
      [apply never_panics_on_source, never_panics_limited_Read|].
    intros [got err].
    apply never_panics_bind; [intros s p; discriminate|]. intros _.
    destruct err as [e|]; [|apply IH].
    destruct e; try apply never_panics_ret.
    apply never_panics_bind; [apply never_panics_flush_if_full|].
    intros err. apply never_panics_ret.
Qed.

Lemma never_panics_ReadFrom (left : Z) : never_panics (Protocol.ReadFrom left).
Proof.
  intros s p. unfold Protocol.ReadFrom.
  destruct (Bufio.werr (Bufio.destination s)); [discriminate|].
  apply never_panics_ReadFrom_loop.
Qed.

Lemma never_panics_CopyN (n : Z) : never_panics (Protocol.io_CopyN n).
Proof.
  unfold Protocol.io_CopyN.
  apply never_panics_bind; [apply never_panics_ReadFrom|].
  intros ?. never_panics_steps.
Qed.

(** Past the length test the first byte and the tail exist. *)
Lemma index_in_range {S} (s : list byte) (i : Z) :
  0 <= i < len s -> @index S s i = ret (nth (Z.to_nat i) s x00).
Proof.
  intros H. unfold index.
  replace ((0 <=? i) && (i <? len s)) with true
    by (symmetry; rewrite andb_true_iff, Z.leb_le, Z.ltb_lt; lia).
  reflexivity.
Qed.

Lemma slice_from_in_range {S} (s : list byte) (lo : Z) :
  0 <= lo <= len s -> exists t, @slice_from S s lo = ret t.
Proof.
  intros H. unfold slice_from, slice.
  replace ((0 <=? lo) && (lo <=? len s) && (len s <=? len s)) with true
    by (symmetry; rewrite !andb_true_iff, !Z.leb_le; lia).
  eexists. reflexivity.
Qed.

Lemma bad_first_line_cases {S} (firstLine : list byte) (sigil : byte) :
  (@Protocol.bad_first_line S firstLine sigil = ret true) \/
  (2 <= len firstLine /\
   exists b, @Protocol.bad_first_line S firstLine sigil = ret b).
Proof.
  unfold Protocol.bad_first_line.
  destruct (len firstLine <? 2) eqn:Hlen.
  - left. reflexivity.
  - right. apply Z.ltb_ge in Hlen. split; [exact Hlen|].
    rewrite index_in_range by lia. eexists. reflexivity.
Qed.

Lemma never_panics_copyBulkMessage (firstLine : list byte) :
  never_panics (Protocol.copyBulkMessage firstLine).
Proof.
  unfold Protocol.copyBulkMessage.
  destruct (@bad_first_line_cases Bufio.Streams firstLine "$"%byte)
    as [-> | (Hlen & b & ->)]; rewrite bind_ret.
  - apply never_panics_ret.
  - destruct b; [apply never_panics_ret|].
    destruct (bytes_Equal firstLine ERR_RESPONSE);
      [apply never_panics_writeLine|].
    destruct (@slice_from_in_range Bufio.Streams firstLine 1 ltac:(lia)) as [t ->].
    rewrite bind_ret.
    destruct (Protocol.ParseInt t) as [n [e|]]; [apply never_panics_ret|].
    apply never_panics_bind; [apply never_panics_writeLine|]. intros [e|].
    + apply never_panics_ret.
    + apply never_panics_bind; [apply never_panics_CopyN|]. intros [w [e|]].
      * apply never_panics_ret.
      * destruct (negb (w =? n)); [apply never_panics_ret|].
        apply never_panics_bind.
        -- apply never_panics_on_source, never_panics_read_newline.
        -- intros [e|]; [apply never_panics_ret | apply never_panics_Write].
Qed.

Lemma never_panics_CopyMultiBulkMessage_loop (k : nat) :
  never_panics (Protocol.CopyMultiBulkMessage_loop k).
Proof.
  induction k as [|k IH]; simpl.
  - apply never_panics_ret.
  - apply never_panics_bind.
    + apply never_panics_on_source, never_panics_ReadLine.
    + intros [[firstLine isPrefix] [e|]]; [apply never_panics_ret|].
      apply never_panics_bind; [apply never_panics_copyBulkMessage|].
      intros [e|]; [apply never_panics_ret | exact IH].
Qed.

Lemma never_panics_CopyMultiBulkMessage (firstLine : list byte) :
  never_panics (Protocol.CopyMultiBulkMessage firstLine).
Proof.
  unfold Protocol.CopyMultiBulkMessage.
  destruct (@bad_first_line_cases Bufio.Streams firstLine "*"%byte)
    as [-> | (Hlen & b & ->)]; rewrite bind_ret.
  - apply never_panics_ret.
  - destruct b; [apply never_panics_ret|].
    destruct (@slice_from_in_range Bufio.Streams firstLine 1 ltac:(lia)) as [t ->].
    rewrite bind_ret.
    destruct (Protocol.ParseInt t) as [n [e|]]; [apply never_panics_ret|].
    apply never_panics_bind; [apply never_panics_writeLine|]. intros [e|].
    + apply never_panics_ret.
    + apply never_panics_bind;
        [apply never_panics_CopyMultiBulkMessage_loop|].
      intros [e|]; [apply never_panics_ret | apply never_panics_Flush].
Qed.

Lemma never_panics_CopyServerResponse : never_panics Protocol.CopyServerResponse.
Proof.
  unfold Protocol.CopyServerResponse.
  apply never_panics_bind.
  - apply never_panics_on_source, never_panics_ReadLine.
  - intros [[firstLine isPrefix] [e|]]; [apply never_panics_ret|].
    destruct (len firstLine <? 2) eqn:Hlen; [apply never_panics_ret|].
    apply Z.ltb_ge in Hlen.
    rewrite !(index_in_range firstLine 0), bind_ret by lia.
    apply never_panics_bind.
    + destruct (byte_eqb _ "$"%byte); [apply never_panics_copyBulkMessage|].
      destruct (byte_eqb _ "*"%byte).
      * rewrite (index_in_range firstLine 1), bind_ret by lia.
        rewrite bind_ret.
        destruct (negb _);
          [apply never_panics_CopyMultiBulkMessage | apply never_panics_writeLine].
      * rewrite bind_ret. apply never_panics_writeLine.
    + intros [e|]; [apply never_panics_ret|].
      apply never_panics_bind; [apply never_panics_Flush|].
      intros ?. apply never_panics_ret.
Qed.

(** ** [SelectDatabase] on a refused selection *)

(** C2, as stated, fails: with database 3 recorded and the reply
    [-ERR invalid DB index] to [select 99], the error is returned but
    the recorded index is 0 afterwards, not 3. *)
Lemma SelectDatabase_refused_resets_index :
  fst (Connection.SelectDatabase 99
         (connected 3 (bs "-ERR invalid DB index" ++ CRLF)))
  = Done (Some (errors_New "Invalid select response")) /\
  Connection.DatabaseId (Connection.this
    (snd (Connection.SelectDatabase 99
            (connected 3 (bs "-ERR invalid DB index" ++ CRLF))))) = 0 /\
  Connection.DatabaseId (Connection.this
    (snd (Connection.SelectDatabase 99
            (connected 3 (bs "-ERR invalid DB index" ++ CRLF)))))
  <> Connection.DatabaseId (Connection.this
       (connected 3 (bs "-ERR invalid DB index" ++ CRLF))).
Proof. repeat split. discriminate. Qed.

Lemma SelectDatabase_reply_witness :
  fst (Connection.SelectDatabase 5 (connected 3 (bs "+OK" ++ CRLF))) = Done None /\
  Connection.DatabaseId (Connection.this
    (snd (Connection.SelectDatabase 5 (connected 3 (bs "+OK" ++ CRLF))))) = 5 /\
  Connection.connection (Connection.this
    (snd (Connection.SelectDatabase 5 (connected 3 (bs "+OK" ++ CRLF))))) = Some 7 /\
  Connection.trace
    (snd (Connection.SelectDatabase 5 (connected 3 (bs "+OK" ++ CRLF)))) = [].
Proof.
  exact (SelectDatabase_reply (connected 3 (bs "+OK" ++ CRLF)) 5 7
           (buf_reader (bs "+OK" ++ CRLF)) eq_refl eq_refl eq_refl).
Defined.

(** * Further properties *)

(** ** The reader as a stream of bytes *)

Lemma chunk_rest (c : Bufio.chunk) (rest : list Bufio.chunk) (room : nat) :
  concat (map Bufio.chunk_bytes
            (match skipn room (Bufio.chunk_bytes c) with
             | [] => rest
             | b :: l => (b, l) :: rest
             end))
  = skipn room (Bufio.chunk_bytes c) ++ concat (map Bufio.chunk_bytes rest).
Proof.
  destruct (skipn room (Bufio.chunk_bytes c)) as [|b l]; reflexivity.
Qed.

(** A read of the source moves bytes out of [pending]; at the end of
    the source it returns [io.EOF]. *)
Lemma src_Read_stream (room : Z) (r : Bufio.Reader) :
  match Bufio.src_Read room r with
  | (got, err, r') =>
      concat (map Bufio.chunk_bytes (Bufio.pending r))
      = got ++ concat (map Bufio.chunk_bytes (Bufio.pending r')) /\
      Bufio.buffered r' = Bufio.buffered r /\
      Bufio.rerr r' = Bufio.rerr r /\
      len got <= Z.max 0 room /\
      match Bufio.pending r with
      | [] => err = Some io_EOF /\ got = []
      | _ :: _ => err = None /\ (0 < room -> got <> [])
      end
  end.
Proof.
  unfold Bufio.src_Read. destruct (Bufio.pending r) as [|c rest] eqn:Hp; simpl.
  - repeat split. unfold len. simpl. lia.
  - rewrite chunk_rest, app_assoc, firstn_skipn. repeat split.
    + unfold len. rewrite length_firstn. lia.
    + intros Hroom. destruct (Z.to_nat room) eqn:Hn; [lia|].
      destruct c as [b l]. simpl. discriminate.
Qed.

Lemma fill_stream (r : Bufio.Reader) :
  stream (Bufio.fill r) = stream r /\
  match Bufio.pending r with
  | [] => Bufio.rerr (Bufio.fill r) = Some io_EOF /\
          Bufio.buffered (Bufio.fill r) = Bufio.buffered r
  | _ :: _ =>
      Bufio.rerr (Bufio.fill r) = None /\
      (len (Bufio.buffered r) < Bufio.defaultBufSize ->
       (Bufio.pending_size (Bufio.fill r) < Bufio.pending_size r)%nat /\
       Bufio.buffered (Bufio.fill r) <> [])
  end.
Proof.
  unfold Bufio.fill, stream, Bufio.pending_size.
  pose proof (src_Read_stream (Bufio.defaultBufSize - len (Bufio.buffered r)) r) as H.
  destruct (Bufio.src_Read _ r) as [[got err] r'].
  destruct H as (Hs & Hb & He & Hl & Hc). simpl.
  rewrite Hb, Hs, <- app_assoc. split; [reflexivity|].
  destruct (Bufio.pending r) as [|c rest].
  - destruct Hc as [-> ->]. split; [reflexivity|]. apply app_nil_r.
  - destruct Hc as [-> Hgot]. split; [reflexivity|]. intros Hroom.
    specialize (Hgot ltac:(lia)).
    split.
    + simpl Bufio.pending.
      apply (f_equal (@length byte)) in Hs. rewrite length_app in Hs.
      destruct got; [contradiction|]. simpl. rewrite length_app. lia.
    + destruct got; [contradiction|].
      destruct (Bufio.buffered r); discriminate.
Qed.

Lemma stream_set_buffered (bytes : list byte) (r : Bufio.Reader) :
  stream (Bufio.set_buffered bytes r)
  = bytes ++ concat (map Bufio.chunk_bytes (Bufio.pending r)).
Proof. reflexivity. Qed.

Lemma firstn_nonempty {A} (k : Z) (x : A) (l : list A) :
  0 < k -> firstn (Z.to_nat k) (x :: l) <> [].
Proof. intros Hk. destruct (Z.to_nat k) eqn:Hn; [lia | discriminate]. Qed.

Lemma len_firstn_le {A} (k : Z) (l : list A) :
  0 <= k -> len (firstn (Z.to_nat k) l) <= k.
Proof. intros Hk. unfold len. rewrite length_firstn. lia. Qed.

(** [Read] hands out a non-empty prefix of the stream, or [io.EOF] at
    its end. *)
Lemma Read_stream (k : Z) (r : Bufio.Reader) :
  Bufio.rerr r = None -> 0 < k ->
  match Bufio.Read k r with
  | (got, err, r') =>
      stream r = got ++ stream r' /\
      Bufio.rerr r' = None /\
      len got <= k /\
      ((err = None /\ got <> []) \/
       (err = Some io_EOF /\ got = [] /\ stream r = []))
  end.
Proof.
  intros Herr Hk. unfold Bufio.Read.
  replace (k =? 0) with false by (symmetry; apply Z.eqb_neq; lia).
  destruct (Bufio.buffered r) as [|x l] eqn:Hb.
  - rewrite Herr.
    destruct (Bufio.defaultBufSize <=? k) eqn:Hbig.
    + pose proof (src_Read_stream k r) as H.
      destruct (Bufio.src_Read k r) as [[got err] r'].
      destruct H as (Hs & Hb' & He & Hl & Hc).
      unfold stream. rewrite Hb', Hb, Hs. simpl.
      split; [reflexivity|]. split; [congruence|]. split; [lia|].
      destruct (Bufio.pending r).
      * right. destruct Hc as [-> ->]. repeat split.
        simpl in Hs. now rewrite <- Hs.
      * left. destruct Hc as [-> Hgot]. split; [reflexivity | apply Hgot; lia].
    + pose proof (fill_stream r) as [Hs Hc].
      destruct (Bufio.pending r) as [|c rest] eqn:Hp.
      * destruct Hc as [He Hbuf]. rewrite Hbuf, Hb, He.
        assert (Hempty : stream r = []).
        { unfold stream. rewrite Hb, Hp. reflexivity. }
        rewrite Hempty. split.
        { change (stream (Bufio.clear_rerr (Bufio.fill r)))
            with (stream (Bufio.fill r)).
          now rewrite Hs, Hempty. }
        split; [reflexivity|]. split; [unfold len; simpl; lia|].
        right. repeat split.
      * destruct Hc as [He Hprog].
        destruct Hprog as [_ Hne].
        { rewrite Hb. unfold len, Bufio.defaultBufSize. simpl. lia. }
        destruct (Bufio.buffered (Bufio.fill r)) as [|y l'] eqn:Hb'';
          [contradiction|].
        rewrite stream_set_buffered, app_assoc, firstn_skipn.
        split.
        { rewrite <- Hs. unfold stream. rewrite Hb''. reflexivity. }
        split; [exact He|]. split; [apply len_firstn_le; lia|].
        left. split; [reflexivity | apply firstn_nonempty, Hk].
  - rewrite stream_set_buffered, app_assoc, firstn_skipn.
    split; [unfold stream; rewrite Hb; reflexivity|].
    split; [exact Herr|]. split; [apply len_firstn_le; lia|].
    left. split; [reflexivity | apply firstn_nonempty, Hk].
Qed.

(** [ReadByte] hands out the next byte of the stream. *)
Lemma ReadByte_stream (r : Bufio.Reader) (c : byte) (rest : list byte) :
  Bufio.rerr r = None -> stream r = c :: rest ->
  exists r', Bufio.ReadByte r = (c, None, r') /\
             stream r' = rest /\ Bufio.rerr r' = None.
Proof.
  intros Herr Hs. unfold Bufio.ReadByte. simpl.
  destruct (Bufio.buffered r) as [|x l] eqn:Hb.
  - rewrite Herr.
    pose proof (fill_stream r) as [Hs' Hc].
    destruct (Bufio.pending r) as [|ch chs] eqn:Hp.
    + unfold stream in Hs. rewrite Hb, Hp in Hs. discriminate.
    + destruct Hc as [He Hprog]. destruct Hprog as [_ Hne].
      { rewrite Hb. unfold len, Bufio.defaultBufSize. simpl. lia. }
      destruct (Bufio.buffered (Bufio.fill r)) as [|y l'] eqn:Hb';
        [contradiction|].
      rewrite <- Hs' in Hs. unfold stream in Hs. rewrite Hb' in Hs.
      injection Hs as -> Hrest.
      eexists. split; [reflexivity|]. split; [exact Hrest | exact He].
  - unfold stream in Hs. rewrite Hb in Hs. injection Hs as -> Hrest.
    eexists. split; [reflexivity|]. split; [exact Hrest | exact Herr].
Qed.

(** ** The writer as an output *)

Lemma Flush_healthy (w : Bufio.Writer) :
  healthy w ->
  exists w', Bufio.Flush w = (None, w') /\ healthy w' /\
             Bufio.wbuf w' = [] /\ Bufio.sent w' = Bufio.output w.
Proof.
  intros [He Hs]. unfold Bufio.Flush, Bufio.sink_Write, Bufio.output.
  rewrite He. destruct (Bufio.wbuf w) as [|x l] eqn:Hb.
  - exists w. repeat split; try assumption. now rewrite app_nil_r.
  - rewrite Hs. eexists. split; [reflexivity|]. repeat split.
Qed.

Lemma Write_healthy (p : list byte) (w : Bufio.Writer) :
  healthy w ->
  exists w', Bufio.Write p w = (None, w') /\ healthy w' /\
             Bufio.output w' = Bufio.output w ++ p.
Proof.
  intros [He Hs]. unfold Bufio.Write. simpl. rewrite He.
  destruct (len p <=? Bufio.Available w).
  - eexists. split; [reflexivity|]. split; [split; assumption|].
    unfold Bufio.output. simpl. now rewrite app_assoc.
  - destruct (Bufio.wbuf w) as [|x l] eqn:Hb.
    + unfold Bufio.sink_Write. rewrite Hs.
      eexists. split; [reflexivity|]. split; [split; reflexivity|].
      unfold Bufio.output. simpl. rewrite Hb, !app_nil_r. reflexivity.
    + set (room := Z.to_nat (Bufio.Available w)).
      destruct (Flush_healthy (Bufio.buffer_bytes (firstn room p) w))
        as (w1 & HF & [He1 Hs1] & Hb1 & Hsent1); [split; assumption|].
      rewrite HF, He1.
      assert (Hout : Bufio.output w1 ++ skipn room p = Bufio.output w ++ p).
      { unfold Bufio.output at 1. rewrite Hb1, app_nil_r, Hsent1.
        unfold Bufio.output. simpl.
        rewrite <- !app_assoc. now rewrite firstn_skipn. }
      destruct (len (skipn room p) <=? Bufio.Available w1).
      * eexists. split; [reflexivity|]. split; [split; assumption|].
        rewrite <- Hout. unfold Bufio.output. simpl. now rewrite app_assoc.
      * rewrite Hb1. unfold Bufio.sink_Write. rewrite Hs1.
        eexists. split; [reflexivity|]. split; [split; reflexivity|].
        rewrite <- Hout. unfold Bufio.output. simpl.
        rewrite Hb1, !app_nil_r. reflexivity.
Qed.

(** ** Lines of the stream *)

Lemma IndexByte_from_spec (s : list byte) (c : byte) (i : Z) :
  (IndexByte_from s c i = -1 /\ absent c s) \/
  (exists a b, s = a ++ c :: b /\ absent c a /\
               IndexByte_from s c i = i + len a) \/
  i < 0.
Proof.
  destruct (Z.ltb_spec i 0) as [Hi|Hi]; [right; right; exact Hi|].
  revert i Hi. induction s as [|x s IH]; intros i Hi; simpl.
  - left. split; reflexivity.
  - destruct (byte_eqb x c) eqn:Hx.
    + right. left. apply byte_eqb_eq in Hx. subst x.
      exists [], s. repeat split. unfold len. simpl. lia.
    + destruct (IH (i + 1) ltac:(lia)) as [[Hn Ha] | [(a & b & -> & Ha & Hf) | Hneg]].
      * left. split; [exact Hn|]. unfold absent. simpl. now rewrite Hx.
      * right. left. exists (x :: a), b. repeat split.
        -- unfold absent. simpl. now rewrite Hx.
        -- rewrite Hf, len_cons. lia.
      * lia.
Qed.

Lemma IndexByte_spec (s : list byte) (c : byte) :
  (IndexByte s c = -1 /\ absent c s) \/
  (exists a b, s = a ++ c :: b /\ absent c a /\ IndexByte s c = len a).
Proof.
  unfold IndexByte.
  destruct (IndexByte_from_spec s c 0) as [H | [(a & b & H1 & H2 & H3) | H]].
  - left. exact H.
  - right. exists a, b. repeat split; assumption.
  - lia.
Qed.

Lemma absent_app (c : byte) (a b : list byte) :
  absent c (a ++ b) <-> absent c a /\ absent c b.
Proof. unfold absent. rewrite forallb_app, andb_true_iff. reflexivity. Qed.

Lemma absent_cons (c x : byte) (a : list byte) :
  absent c (x :: a) <-> x <> c /\ absent c a.
Proof.
  unfold absent. simpl. rewrite andb_true_iff, negb_true_iff.
  split; intros [H1 H2]; split; try assumption.
  - intros ->. assert (byte_eqb c c = true) by now apply byte_eqb_eq. congruence.
  - destruct (byte_eqb x c) eqn:E; [|reflexivity].
    apply byte_eqb_eq in E. contradiction.
Qed.

(** The first [c] of a list is where it is, however the list is cut. *)
Lemma first_occurrence (c : byte) (a b a' b' : list byte) :
  a ++ c :: b = a' ++ c :: b' -> absent c a -> absent c a' ->
  a = a' /\ b = b'.
Proof.
  revert a'. induction a as [|x a IH]; intros [|y a'] H Ha Ha'; simpl in *.
  - injection H as ->. split; reflexivity.
  - injection H as <- _. apply absent_cons in Ha'. destruct Ha' as [Hc _].
    contradiction.
  - injection H as -> _. apply absent_cons in Ha. destruct Ha as [Hc _].
    contradiction.
  - injection H as -> H. apply absent_cons in Ha, Ha'.
    destruct (IH a' H ltac:(tauto) ltac:(tauto)) as [-> ->].
    split; reflexivity.
Qed.

(** A prefix without [c] of a list whose first [c] comes after [body]
    is a prefix of [body]. *)
Lemma prefix_before (c : byte) (p q body rest : list byte) :
  p ++ q = body ++ c :: rest -> absent c p ->
  exists more, body = p ++ more /\ q = more ++ c :: rest.
Proof.
  revert body. induction p as [|x p IH]; intros body H Hp; simpl in *.
  - exists body. split; [reflexivity | exact H].
  - apply absent_cons in Hp. destruct Hp as [Hx Hp].
    destruct body as [|y body]; simpl in H.
    + injection H as -> _. contradiction.
    + injection H as -> H. destruct (IH body H Hp) as (more & -> & ->).
      exists more. split; reflexivity.
Qed.

Lemma ReadSlice_loop_stream (fuel : nat) (r : Bufio.Reader) (body rest : list byte) :
  Bufio.rerr r = None ->
  stream r = body ++ LF :: rest ->
  absent LF body ->
  len body < Bufio.defaultBufSize ->
  (Bufio.pending_size r < fuel)%nat ->
  exists r', Bufio.ReadSlice_loop fuel LF r = (body ++ [LF], None, r') /\
             stream r' = rest /\ Bufio.rerr r' = None.
Proof.
  revert r. induction fuel as [|fuel IH]; intros r Herr Hs Hbody Hfit Hfuel;
    [lia|].
  simpl.
  destruct (IndexByte_spec (Bufio.buffered r) LF)
    as [[Hi Hab] | (a & b & Hbuf & Ha & Hi)]; rewrite Hi.
  - simpl. rewrite Herr.
    unfold stream in Hs.
    destruct (prefix_before LF _ _ body rest Hs Hab) as (more & Hmore & Hpend).
    assert (Hlen : len (Bufio.buffered r) <= len body).
    { rewrite Hmore, len_app. pose proof (len_nonneg more). lia. }
    unfold Bufio.Buffered.
    replace (Bufio.defaultBufSize <=? len (Bufio.buffered r)) with false
      by (symmetry; apply Z.leb_gt; lia).
    pose proof (fill_stream r) as [Hs' Hc].
    destruct (Bufio.pending r) as [|ch chs] eqn:Hp.
    + simpl in Hpend. destruct more; discriminate.
    + destruct Hc as [He Hprog]. destruct (Hprog ltac:(lia)) as [Hdec _].
      apply IH; try assumption.
      * rewrite Hs'. unfold stream. rewrite Hp. exact Hs.
      * lia.
  - replace (0 <=? len a) with true
      by (symmetry; apply Z.leb_le; apply len_nonneg).
    unfold stream in Hs. rewrite Hbuf, <- app_assoc in Hs. simpl in Hs.
    destruct (first_occurrence LF _ _ _ _ Hs Ha Hbody) as [-> Hrest].
    exists (Bufio.set_buffered
              (skipn (Z.to_nat (len body + 1)) (Bufio.buffered r)) r).
    split; [|split; [|exact Herr]].
    + f_equal. f_equal. rewrite Hbuf.
      replace (Z.to_nat (len body + 1)) with (length (body ++ [LF]))
        by (rewrite length_app; unfold len; simpl; lia).
      change (body ++ LF :: b) with (body ++ [LF] ++ b).
      rewrite app_assoc, firstn_app, firstn_all, Nat.sub_diag. simpl.
      apply app_nil_r.
    + rewrite stream_set_buffered, Hbuf.
      replace (Z.to_nat (len body + 1)) with (length (body ++ [LF]))
        by (rewrite length_app; unfold len; simpl; lia).
      change (body ++ LF :: b) with (body ++ [LF] ++ b).
      rewrite app_assoc, skipn_app, skipn_all, Nat.sub_diag. simpl.
      exact Hrest.
Qed.

(** [ReadLine] on a stream that starts with a line ended by CR LF. *)
Lemma ReadLine_stream (r : Bufio.Reader) (line rest : list byte) :
  Bufio.rerr r = None ->
  stream r = line ++ CR :: LF :: rest ->
  absent LF line ->
  len line + 1 < Bufio.defaultBufSize ->
  exists r', Bufio.ReadLine r = (line, false, None, r') /\
             stream r' = rest /\ Bufio.rerr r' = None.
Proof.
  intros Herr Hs Hline Hfit.
  destruct (ReadSlice_loop_stream (S (Bufio.pending_size r)) r (line ++ [CR]) rest)
    as (r' & HR & Hs' & He'); try assumption.
  - rewrite Hs, <- app_assoc. reflexivity.
  - apply absent_app. split; [exact Hline|]. reflexivity.
  - rewrite len_app. unfold len at 2. simpl. lia.
  - lia.
  - exists r'. unfold Bufio.ReadLine, Bufio.ReadSlice. rewrite HR.
    rewrite !rev_app_distr. simpl. rewrite rev_involutive.
    repeat split; assumption.
Qed.

(** The same when the line is ended by a bare LF. *)
Lemma ReadLine_stream_LF (r : Bufio.Reader) (line rest : list byte) :
  Bufio.rerr r = None ->
  stream r = line ++ LF :: rest ->
  absent LF line ->
  (forall front, line <> front ++ [CR]) ->
  len line < Bufio.defaultBufSize ->
  exists r', Bufio.ReadLine r = (line, false, None, r') /\
             stream r' = rest /\ Bufio.rerr r' = None.
Proof.
  intros Herr Hs Hline Hcr Hfit.
  destruct (ReadSlice_loop_stream (S (Bufio.pending_size r)) r line rest)
    as (r' & HR & Hs' & He'); try assumption; [lia|].
  exists r'. unfold Bufio.ReadLine, Bufio.ReadSlice. rewrite HR.
  rewrite rev_app_distr. simpl.
  destruct (rev line) as [|before front'] eqn:Hrev.
  - apply (f_equal (@rev byte)) in Hrev. rewrite rev_involutive in Hrev.
    subst line. repeat split; assumption.
  - apply (f_equal (@rev byte)) in Hrev. rewrite rev_involutive in Hrev.
    simpl in Hrev.
    destruct (byte_eqb before CR) eqn:Hb.
    + apply byte_eqb_eq in Hb. subst before. exfalso. apply (Hcr (rev front')).
      exact Hrev.
    + simpl. rewrite <- Hrev. repeat split; assumption.
Qed.

(** ** Copying a counted payload *)

Lemma bind_on_source {A B} (m : M Bufio.Reader A) (k : A -> M Bufio.Streams B)
      (s : Bufio.Streams) (a : A) (r' : Bufio.Reader) :
  m (Bufio.source s) = (Done a, r') ->
  bind (Protocol.on_source m) k s = k a (Bufio.mkStreams r' (Bufio.destination s)).
Proof. intros H. unfold bind, Protocol.on_source. rewrite H. reflexivity. Qed.

Lemma bind_destination_Write {B} (p : list byte)
      (k : option error -> M Bufio.Streams B) (s : Bufio.Streams)
      (e : option error) (w' : Bufio.Writer) :
  Bufio.Write p (Bufio.destination s) = (e, w') ->
  bind (Protocol.destination_Write p) k s = k e (Bufio.mkStreams (Bufio.source s) w').
Proof. intros H. unfold bind, Protocol.destination_Write. rewrite H. reflexivity. Qed.

Lemma app_prefix_split {A} (got x data tail : list A) :
  got ++ x = data ++ tail -> (length got <= length data)%nat ->
  exists data', data = got ++ data' /\ x = data' ++ tail.
Proof.
  revert data. induction got as [|g got IH]; intros data H Hlen; simpl in *.
  - exists data. split; [reflexivity | exact H].
  - destruct data as [|d data]; simpl in *; [lia|].
    injection H as -> H. destruct (IH data H ltac:(lia)) as (data' & -> & ->).
    exists data'. split; reflexivity.
Qed.

Lemma bind_step {S A B} (m : M S A) (k : A -> M S B) (s s' : S) (a : A) :
  m s = (Done a, s') -> bind m k s = k a s'.
Proof. intros H. unfold bind. rewrite H. reflexivity. Qed.

(** The steps of [ReadFrom] on a writer that accepts writes. *)
Lemma flush_if_full_healthy (s : Bufio.Streams) :
  healthy (Bufio.destination s) ->
  exists w1,
    Protocol.flush_if_full s = (Done None, Bufio.mkStreams (Bufio.source s) w1) /\
    healthy w1 /\
    Bufio.output w1 = Bufio.output (Bufio.destination s) /\
    0 < Bufio.Available w1.
Proof.
  intros Hw. unfold Protocol.flush_if_full.
  destruct (Bufio.Available (Bufio.destination s) <=? 0) eqn:Hfull.
  - destruct (Flush_healthy _ Hw) as (w' & HF & Hw' & Hb & Hs).
    exists w'. unfold Protocol.destination_Flush. rewrite HF.
    split; [reflexivity|]. split; [exact Hw'|]. split.
    + unfold Bufio.output at 1. rewrite Hb, app_nil_r. exact Hs.
    + unfold Bufio.Available. rewrite Hb. reflexivity.
  - apply Z.leb_gt in Hfull. exists (Bufio.destination s).
    destruct s as [r w]. repeat split; try apply Hw. exact Hfull.
Qed.

Lemma bind_destination_Available {B} (k : Z -> M Bufio.Streams B)
      (s : Bufio.Streams) :
  bind Protocol.destination_Available k s
  = k (Bufio.Available (Bufio.destination s)) s.
Proof. reflexivity. Qed.

Lemma bind_destination_store {B} (p : list byte)
      (k : unit -> M Bufio.Streams B) (s : Bufio.Streams) :
  bind (Protocol.destination_store p) k s
  = k tt (Bufio.mkStreams (Bufio.source s)
            (Bufio.buffer_bytes p (Bufio.destination s))).
Proof. reflexivity. Qed.

Lemma buffer_bytes_healthy (p : list byte) (w : Bufio.Writer) :
  healthy w ->
  healthy (Bufio.buffer_bytes p w) /\
  Bufio.output (Bufio.buffer_bytes p w) = Bufio.output w ++ p.
Proof.
  intros Hw. split; [exact Hw|].
  unfold Bufio.output, Bufio.buffer_bytes. simpl. now rewrite app_assoc.
Qed.

(** The end of the copy: the limited reader has nothing more to give,
    or the source has ended. *)
Lemma ReadFrom_end (n : Z) (r : Bufio.Reader) (w : Bufio.Writer) :
  healthy w ->
  exists w',
    bind Protocol.flush_if_full (fun err => ret (n, err))
         (Bufio.mkStreams r (Bufio.buffer_bytes [] w))
    = (Done (n, None), Bufio.mkStreams r w') /\
    healthy w' /\ Bufio.output w' = Bufio.output w.
Proof.
  intros Hw. destruct (buffer_bytes_healthy [] w Hw) as [Hw0 Ho0].
  destruct (flush_if_full_healthy
              (Bufio.mkStreams r (Bufio.buffer_bytes [] w)) Hw0)
    as (w' & HF & Hw' & Ho' & _).
  exists w'. rewrite (bind_step _ _ _ _ _ HF).
  split; [reflexivity|]. split; [exact Hw'|].
  rewrite Ho'. cbn [Bufio.destination]. rewrite Ho0. apply app_nil_r.
Qed.

Lemma ReadFrom_loop_stream (fuel : nat) :
  forall (left n : Z) (s : Bufio.Streams) (data tail : list byte),
    Bufio.rerr (Bufio.source s) = None ->
    healthy (Bufio.destination s) ->
    stream (Bufio.source s) = data ++ tail ->
    len data = left ->
    left < Z.of_nat fuel ->
    exists s',
      Protocol.ReadFrom_loop fuel left n s = (Done (n + left, None), s') /\
      stream (Bufio.source s') = tail /\
      Bufio.rerr (Bufio.source s') = None /\
      healthy (Bufio.destination s') /\
      Bufio.output (Bufio.destination s')
      = Bufio.output (Bufio.destination s) ++ data.
Proof.
  induction fuel as [|fuel IH]; intros left n s data tail Herr Hw Hs Hlen Hfuel.
  - pose proof (len_nonneg data). lia.
  - cbn [Protocol.ReadFrom_loop].
    destruct (flush_if_full_healthy s Hw) as (w1 & HF & Hw1 & Ho1 & Hroom).
    rewrite (bind_step _ _ _ _ _ HF). cbv beta iota.
    rewrite bind_destination_Available. cbn [Bufio.source Bufio.destination].
    destruct (left <=? 0) eqn:Hle.
    + apply Z.leb_le in Hle.
      assert (Hd : data = []).
      { destruct data; [reflexivity|]. unfold len in *. simpl in *. lia. }
      subst data. change (len (@nil byte)) with 0 in Hlen. subst left.
      erewrite bind_on_source
        by (unfold Protocol.limited_Read; cbn [Bufio.source]; reflexivity).
      cbv beta iota. rewrite bind_destination_store. cbv beta iota.
      cbn [Bufio.source Bufio.destination].
      destruct (ReadFrom_end (n + len (@nil byte)) (Bufio.source s) w1 Hw1)
        as (w' & HE & Hw' & Ho').
      rewrite HE. eexists. split; [reflexivity|].
      cbn [Bufio.source Bufio.destination].
      repeat split; try assumption; try apply Hw'.
      rewrite Ho', Ho1. now rewrite app_nil_r.
    + apply Z.leb_gt in Hle.
      set (k := Z.min (Bufio.Available w1) left).
      assert (Hk : 0 < k) by (unfold k; lia).
      pose proof (Read_stream k (Bufio.source s) Herr Hk) as HR.
      destruct (Bufio.Read k (Bufio.source s)) as [[got err] r1] eqn:HRead.
      destruct HR as (Hsplit & Herr1 & Hgot & Hcase).
      destruct Hcase as [[-> Hne] | (_ & _ & Hnil)].
      2:{ rewrite Hs in Hnil. destruct data; [unfold len in Hlen; simpl in Hlen; lia|].
          discriminate. }
      rewrite Hs in Hsplit. symmetry in Hsplit.
      destruct (app_prefix_split got _ data tail Hsplit) as (data' & Hdata & Hrest).
      { unfold len in Hgot, Hlen. unfold k in Hgot. lia. }
      erewrite bind_on_source
        by (unfold Protocol.limited_Read, Protocol.source_Read_bytes;
            cbn [Bufio.source]; rewrite (proj2 (Z.leb_gt _ _) Hle);
            fold k; rewrite HRead; reflexivity).
      cbv beta iota. rewrite bind_destination_store. cbv beta iota.
      cbn [Bufio.source Bufio.destination].
      destruct (buffer_bytes_healthy got w1 Hw1) as [Hw2 Ho2].
      assert (Hpos : 1 <= len got).
      { destruct got; [contradiction|]. rewrite len_cons.
        pose proof (len_nonneg got). lia. }
      destruct (IH (left - len got) (n + len got)
                   (Bufio.mkStreams r1 (Bufio.buffer_bytes got w1)) data' tail)
        as (s' & HC & Hs' & He' & Hw' & Hout'); try assumption.
      * subst data. rewrite len_app in Hlen. lia.
      * lia.
      * exists s'. rewrite HC. split.
        { f_equal. f_equal. f_equal. lia. }
        repeat split; try assumption; try apply Hw'.
        rewrite Hout'. cbn [Bufio.destination]. rewrite Ho2, Ho1, Hdata.
        now rewrite app_assoc.
Qed.

Lemma ReadFrom_stream (s : Bufio.Streams) (data tail : list byte) :
  Bufio.rerr (Bufio.source s) = None ->
  healthy (Bufio.destination s) ->
  stream (Bufio.source s) = data ++ tail ->
  exists s',
    Protocol.ReadFrom (len data) s = (Done (len data, None), s') /\
    stream (Bufio.source s') = tail /\
    Bufio.rerr (Bufio.source s') = None /\
    healthy (Bufio.destination s') /\
    Bufio.output (Bufio.destination s')
    = Bufio.output (Bufio.destination s) ++ data.
Proof.
  intros Herr Hw Hs.
  destruct (ReadFrom_loop_stream (S (Z.to_nat (len data))) (len data) 0 s data tail)
    as (s' & HC & H); try assumption; [reflexivity | unfold len; lia |].
  exists s'. split; [|exact H].
  unfold Protocol.ReadFrom. rewrite (proj1 Hw), HC, Z.add_0_l. reflexivity.
Qed.

Lemma io_CopyN_stream (s : Bufio.Streams) (data tail : list byte) :
  Bufio.rerr (Bufio.source s) = None ->
  healthy (Bufio.destination s) ->
  stream (Bufio.source s) = data ++ tail ->
  exists s',
    Protocol.io_CopyN (len data) s = (Done (len data, None), s') /\
    stream (Bufio.source s') = tail /\
    Bufio.rerr (Bufio.source s') = None /\
    healthy (Bufio.destination s') /\
    Bufio.output (Bufio.destination s')
    = Bufio.output (Bufio.destination s) ++ data.
Proof.
  intros Herr Hw Hs.
  destruct (ReadFrom_stream s data tail Herr Hw Hs) as (s' & HC & H).
  exists s'. split; [|exact H].
  unfold Protocol.io_CopyN. rewrite (bind_step _ _ _ _ _ HC).
  rewrite Z.eqb_refl. reflexivity.
Qed.

(** The two bytes CR LF are read off the stream. *)
Lemma read_newline_stream (r : Bufio.Reader) (rest : list byte) :
  Bufio.rerr r = None -> stream r = CR :: LF :: rest ->
  exists r', Protocol.read_newline r = (Done None, r') /\
             stream r' = rest /\ Bufio.rerr r' = None.
Proof.
  intros Herr Hs.
  destruct (ReadByte_stream r CR (LF :: rest) Herr Hs) as (r1 & H1 & Hs1 & He1).
  destruct (ReadByte_stream r1 LF rest He1 Hs1) as (r2 & H2 & Hs2 & He2).
  exists r2. split; [|split; assumption].
  unfold Protocol.read_newline, bind, Protocol.source_ReadByte.
  rewrite H1. cbv beta iota.
  change (byte_eqb CR CR) with true. cbv beta iota delta [negb ret].
  rewrite H2. reflexivity.
Qed.

Lemma destination_Write_healthy (p : list byte) (s : Bufio.Streams) :
  healthy (Bufio.destination s) ->
  exists w', Protocol.destination_Write p s
             = (Done None, Bufio.mkStreams (Bufio.source s) w') /\
             healthy w' /\
             Bufio.output w' = Bufio.output (Bufio.destination s) ++ p.
Proof.
  intros Hw. destruct (Write_healthy p _ Hw) as (w' & HW & Hw' & Hout).
  exists w'. unfold Protocol.destination_Write. rewrite HW.
  split; [reflexivity|]. split; assumption.
Qed.

Lemma writeLine_healthy (line : list byte) (s : Bufio.Streams) :
  healthy (Bufio.destination s) ->
  exists w', Protocol.writeLine line s
             = (Done None, Bufio.mkStreams (Bufio.source s) w') /\
             healthy w' /\
             Bufio.output w'
             = Bufio.output (Bufio.destination s) ++ line ++ CRLF.
Proof.
  intros Hw.
  destruct (destination_Write_healthy line s Hw) as (w1 & H1 & Hw1 & Ho1).
  destruct (destination_Write_healthy REDIS_NEWLINE
              (Bufio.mkStreams (Bufio.source s) w1) Hw1) as (w2 & H2 & Hw2 & Ho2).
  exists w2. unfold Protocol.writeLine.
  rewrite (bind_step _ _ _ _ _ H1). cbv beta iota. rewrite H2.
  split; [reflexivity|]. split; [exact Hw2|].
  rewrite Ho2. simpl Bufio.destination. rewrite Ho1, <- app_assoc. reflexivity.
Qed.

Lemma digit_header_not_null (d : byte) (ds : list byte) :
  is_digit d = true -> bytes_Equal ("$"%byte :: d :: ds) ERR_RESPONSE = false.
Proof. intros Hd. destruct d; try discriminate Hd; reflexivity. Qed.

Lemma bad_first_line_sigil {S} (sigil : byte) (d : byte) (ds : list byte) :
  @Protocol.bad_first_line S (sigil :: d :: ds) sigil = ret false.
Proof.
  unfold Protocol.bad_first_line.
  replace (len (sigil :: d :: ds) <? 2) with false
    by (symmetry; apply Z.ltb_ge; rewrite !len_cons; pose proof (len_nonneg ds); lia).
  rewrite index_in_range
    by (rewrite !len_cons; pose proof (len_nonneg ds); lia).
  rewrite bind_ret. simpl nth.
  assert (H : byte_eqb sigil sigil = true) by now apply byte_eqb_eq.
  rewrite H. reflexivity.
Qed.

Lemma slice_from_tail {S} (x : byte) (l : list byte) :
  @slice_from S (x :: l) 1 = ret l.
Proof.
  unfold slice_from, slice.
  pose proof (len_nonneg l) as Hl.
  replace ((0 <=? 1) && (1 <=? len (x :: l)) && (len (x :: l) <=? len (x :: l)))
    with true
    by (symmetry; rewrite !andb_true_iff, !Z.leb_le, len_cons; lia).
  f_equal. change (skipn (Z.to_nat 1) (x :: l)) with l.
  replace (Z.to_nat (len (x :: l) - 1)) with (length l)
    by (rewrite len_cons; unfold len; lia).
  apply firstn_all.
Qed.

Lemma copyBulkMessage_stream
    (s : Bufio.Streams) (d : byte) (ds payload rest : list byte) :
  Bufio.rerr (Bufio.source s) = None ->
  healthy (Bufio.destination s) ->
  forallb is_digit (d :: ds) = true ->
  decimal_value (d :: ds) = len payload ->
  len payload <= int_max ->
  stream (Bufio.source s) = payload ++ CR :: LF :: rest ->
  exists s',
    Protocol.copyBulkMessage ("$"%byte :: d :: ds) s = (Done None, s') /\
    stream (Bufio.source s') = rest /\
    Bufio.rerr (Bufio.source s') = None /\
    healthy (Bufio.destination s') /\
    Bufio.output (Bufio.destination s')
    = Bufio.output (Bufio.destination s)
      ++ ("$"%byte :: d :: ds) ++ CRLF ++ payload ++ CRLF.
Proof.
  intros Herr Hw Hds Hval Hfit Hs.
  unfold Protocol.copyBulkMessage.
  rewrite bad_first_line_sigil, bind_ret. cbv iota.
  rewrite digit_header_not_null
    by (simpl in Hds; apply andb_prop in Hds; tauto).
  rewrite slice_from_tail, bind_ret.
  rewrite (ParseInt_exact (d :: ds) Hds) by (rewrite Hval; exact Hfit).
  rewrite Hval.
  destruct (writeLine_healthy ("$"%byte :: d :: ds) s Hw) as (w1 & H1 & Hw1 & Ho1).
  rewrite (bind_step _ _ _ _ _ H1). cbv beta iota.
  destruct (io_CopyN_stream (Bufio.mkStreams (Bufio.source s) w1)
              payload (CR :: LF :: rest) Herr Hw1 Hs)
    as (s2 & H2 & Hs2 & He2 & Hw2 & Ho2).
  rewrite (bind_step _ _ _ _ _ H2). cbv beta iota.
  rewrite Z.eqb_refl. change (negb true) with false. cbv iota.
  destruct (read_newline_stream (Bufio.source s2) rest He2 Hs2)
    as (r3 & H3 & Hs3 & He3).
  rewrite (bind_on_source _ _ _ _ _ H3).
  destruct (destination_Write_healthy REDIS_NEWLINE
              (Bufio.mkStreams r3 (Bufio.destination s2)) Hw2)
    as (w4 & H4 & Hw4 & Ho4).
  eexists. split; [exact H4|]. cbn [Bufio.source Bufio.destination] in *.
  repeat split; try assumption; try apply Hw4.
  rewrite Ho4, Ho2, Ho1. rewrite <- !app_assoc. reflexivity.
Qed.

(** ** Copying the elements of a multibulk reply *)

Lemma digits_hold_no_LF (ds : list byte) :
  forallb is_digit ds = true -> absent LF ds.
Proof.
  unfold absent. induction ds as [|d ds IH]; simpl; [reflexivity|].
  intros H. apply andb_prop in H. destruct H as [Hd Hds].
  rewrite (IH Hds), andb_true_r.
  destruct d; try discriminate Hd; reflexivity.
Qed.

Lemma source_ReadLine_stream (s : Bufio.Streams) (line rest : list byte) :
  Bufio.rerr (Bufio.source s) = None ->
  stream (Bufio.source s) = line ++ CR :: LF :: rest ->
  absent LF line ->
  len line + 1 < Bufio.defaultBufSize ->
  exists r', Protocol.source_ReadLine (Bufio.source s)
             = (Done (line, false, None), r') /\
             stream r' = rest /\ Bufio.rerr r' = None.
Proof.
  intros Herr Hs Hline Hfit.
  destruct (ReadLine_stream _ line rest Herr Hs Hline Hfit) as (r' & HR & H).
  exists r'. unfold Protocol.source_ReadLine. rewrite HR. split; [reflexivity | exact H].
Qed.

Lemma copy_element_stream (s : Bufio.Streams) (e : element) (rest : list byte) :
  Bufio.rerr (Bufio.source s) = None ->
  healthy (Bufio.destination s) ->
  well_formed_element e -> is_integer_reply e = false ->
  stream (Bufio.source s) = encode_element e ++ rest ->
  exists line r1 s',
    Protocol.source_ReadLine (Bufio.source s) = (Done (line, false, None), r1) /\
    Protocol.copyBulkMessage line (Bufio.mkStreams r1 (Bufio.destination s))
    = (Done None, s') /\
    stream (Bufio.source s') = rest /\
    Bufio.rerr (Bufio.source s') = None /\
    healthy (Bufio.destination s') /\
    Bufio.output (Bufio.destination s')
    = Bufio.output (Bufio.destination s) ++ encode_element e.
Proof.
  intros Herr Hw Hwf Hint Hs.
  destruct e as [ds payload| |text]; [| |discriminate Hint].
  - destruct Hwf as (Hne & Hds & Hval & Hfit & Hline).
    destruct ds as [|d ds]; [contradiction|].
    destruct (source_ReadLine_stream s ("$"%byte :: d :: ds)
                (payload ++ CRLF ++ rest)) as (r1 & HR & Hs1 & He1);
      try assumption.
    + rewrite Hs. unfold CRLF. simpl.
      repeat (rewrite <- app_assoc; simpl). reflexivity.
    + apply absent_cons. split; [discriminate|]. now apply digits_hold_no_LF.
    + rewrite len_cons. lia.
    + destruct (copyBulkMessage_stream (Bufio.mkStreams r1 (Bufio.destination s))
                  d ds payload rest He1 Hw Hds Hval Hfit Hs1)
        as (s' & HC & H).
      exists ("$"%byte :: d :: ds), r1, s'.
      split; [exact HR|]. split; [exact HC|].
      simpl encode_element. exact H.
  - destruct (source_ReadLine_stream s ERR_RESPONSE rest) as (r1 & HR & Hs1 & He1);
      try assumption; try reflexivity.
    destruct (writeLine_healthy ERR_RESPONSE
                (Bufio.mkStreams r1 (Bufio.destination s)) Hw)
      as (w' & HW & Hw' & Ho).
    exists ERR_RESPONSE, r1, (Bufio.mkStreams r1 w').
    split; [exact HR|]. split; [exact HW|].
    repeat split; try assumption; apply Hw'.
Qed.

Lemma CopyMultiBulkMessage_loop_stream (es : list element) :
  forall (s : Bufio.Streams) (rest : list byte),
    Bufio.rerr (Bufio.source s) = None ->
    healthy (Bufio.destination s) ->
    Forall well_formed_element es ->
    existsb is_integer_reply es = false ->
    stream (Bufio.source s) = encode_elements es ++ rest ->
    exists s',
      Protocol.CopyMultiBulkMessage_loop (length es) s = (Done None, s') /\
      stream (Bufio.source s') = rest /\
      Bufio.rerr (Bufio.source s') = None /\
      healthy (Bufio.destination s') /\
      Bufio.output (Bufio.destination s')
      = Bufio.output (Bufio.destination s) ++ encode_elements es.
Proof.
  induction es as [|e es IH]; intros s rest Herr Hw Hwf Hint Hs.
  - exists s. simpl. rewrite app_nil_r. repeat split; try assumption; apply Hw.
  - simpl in Hint. apply orb_false_elim in Hint. destruct Hint as [He Hes].
    inversion Hwf as [|? ? Hwe Hwes]; subst.
    unfold encode_elements in Hs. simpl in Hs. rewrite <- app_assoc in Hs.
    destruct (copy_element_stream s e _ Herr Hw Hwe He Hs)
      as (line & r1 & s1 & HR & HC & Hs1 & He1 & Hw1 & Ho1).
    destruct (IH s1 rest He1 Hw1 Hwes Hes Hs1)
      as (s' & HL & Hs' & He' & Hw' & Ho').
    exists s'. cbn [length Protocol.CopyMultiBulkMessage_loop].
    rewrite (bind_on_source _ _ _ _ _ HR). cbv beta iota.
    rewrite (bind_step _ _ _ _ _ HC). cbv beta iota.
    split; [exact HL|]. repeat split; try assumption; try apply Hw'.
    rewrite Ho', Ho1. unfold encode_elements. simpl. now rewrite <- app_assoc.
Qed.

Lemma destination_Flush_healthy (s : Bufio.Streams) :
  healthy (Bufio.destination s) ->
  exists w', Protocol.destination_Flush s
             = (Done None, Bufio.mkStreams (Bufio.source s) w') /\
             healthy w' /\ Bufio.wbuf w' = [] /\
             Bufio.sent w' = Bufio.output (Bufio.destination s).
Proof.
  intros Hw. destruct (Flush_healthy _ Hw) as (w' & HF & H).
  exists w'. unfold Protocol.destination_Flush. rewrite HF.
  split; [reflexivity | exact H].
Qed.

Lemma CopyMultiBulkMessage_stream
    (s : Bufio.Streams) (count : list byte) (es : list element) (rest : list byte) :
  Bufio.rerr (Bufio.source s) = None ->
  healthy (Bufio.destination s) ->
  well_formed_multibulk count es ->
  stream (Bufio.source s) = encode_elements es ++ rest ->
  exists s',
    Protocol.CopyMultiBulkMessage ("*"%byte :: count) s = (Done None, s') /\
    stream (Bufio.source s') = rest /\
    Bufio.rerr (Bufio.source s') = None /\
    healthy (Bufio.destination s') /\
    Bufio.wbuf (Bufio.destination s') = [] /\
    Bufio.sent (Bufio.destination s')
    = Bufio.output (Bufio.destination s)
      ++ ("*"%byte :: count) ++ CRLF ++ encode_elements es.
Proof.
  intros Herr Hw ((Hne & Hds & Hval & Hfit & Hline) & Hwf & Hint) Hs.
  destruct count as [|c cs]; [contradiction|].
  unfold Protocol.CopyMultiBulkMessage.
  rewrite bad_first_line_sigil, bind_ret. cbv iota.
  rewrite slice_from_tail, bind_ret.
  rewrite (ParseInt_exact (c :: cs) Hds) by (rewrite Hval; exact Hfit).
  rewrite Hval.
  destruct (writeLine_healthy ("*"%byte :: c :: cs) s Hw) as (w1 & H1 & Hw1 & Ho1).
  rewrite (bind_step _ _ _ _ _ H1). cbv beta iota.
  replace (Z.to_nat (len es)) with (length es) by (unfold len; lia).
  destruct (CopyMultiBulkMessage_loop_stream es
              (Bufio.mkStreams (Bufio.source s) w1) rest Herr Hw1 Hwf Hint Hs)
    as (s2 & H2 & Hs2 & He2 & Hw2 & Ho2).
  rewrite (bind_step _ _ _ _ _ H2). cbv beta iota.
  destruct (destination_Flush_healthy s2 Hw2) as (w3 & H3 & Hw3 & Hb3 & Hsent3).
  eexists. split; [exact H3|]. cbn [Bufio.source Bufio.destination] in *.
  repeat split; try assumption; try apply Hw3.
  rewrite Hsent3, Ho2, Ho1. rewrite <- !app_assoc. reflexivity.
Qed.

Lemma CopyServerResponse_stream
    (s : Bufio.Streams) (rp : reply) (rest : list byte) :
  Bufio.rerr (Bufio.source s) = None ->
  healthy (Bufio.destination s) ->
  well_formed_reply rp ->
  stream (Bufio.source s) = encode_reply rp ++ rest ->
  exists s',
    Protocol.CopyServerResponse s = (Done None, s') /\
    stream (Bufio.source s') = rest /\
    Bufio.rerr (Bufio.source s') = None /\
    healthy (Bufio.destination s') /\
    Bufio.wbuf (Bufio.destination s') = [] /\
    Bufio.sent (Bufio.destination s')
    = Bufio.output (Bufio.destination s) ++ encode_reply rp.
Proof.
  intros Herr Hw Hwf Hs. unfold Protocol.CopyServerResponse.
  destruct rp as [text | e | count es].
  - (* a plain line *)
    destruct Hwf as (Hplain & Hline & Hfit).
    destruct text as [|c0 [|c1 text]]; try discriminate Hplain.
    destruct (source_ReadLine_stream s (c0 :: c1 :: text) rest)
      as (r1 & HR & Hs1 & He1); try assumption.
    { rewrite Hs. simpl. rewrite <- app_assoc. reflexivity. }
    rewrite (bind_on_source _ _ _ _ _ HR). cbv beta iota.
    replace (len (c0 :: c1 :: text) <? 2) with false
      by (symmetry; apply Z.ltb_ge; rewrite !len_cons;
          pose proof (len_nonneg text); lia).
    rewrite !index_in_range
      by (rewrite !len_cons; pose proof (len_nonneg text); lia).
    rewrite bind_ret. simpl nth.
    simpl in Hplain. apply andb_prop in Hplain. destruct Hplain as [H0 H1].
    apply negb_true_iff in H0. rewrite H0.
    assert (Hmulti :
      (if byte_eqb c0 "*"%byte
       then bind (@ret Bufio.Streams byte c1)
                 (fun c => ret (negb (byte_eqb c "-"%byte)))
       else ret false) = ret false).
    { destruct (byte_eqb c0 "*"%byte); [|reflexivity].
      simpl in H1. rewrite bind_ret, H1. reflexivity. }
    rewrite Hmulti, bind_ret. cbv iota.
    destruct (writeLine_healthy (c0 :: c1 :: text)
                (Bufio.mkStreams r1 (Bufio.destination s)) Hw)
      as (w2 & H2 & Hw2 & Ho2).
    rewrite (bind_step _ _ _ _ _ H2). cbv beta iota.
    destruct (destination_Flush_healthy (Bufio.mkStreams r1 w2) Hw2)
      as (w3 & H3 & Hw3 & Hb3 & Hsent3).
    rewrite (bind_step _ _ _ _ _ H3).
    eexists. split; [reflexivity|]. cbn [Bufio.source Bufio.destination] in *.
    repeat split; try assumption; try apply Hw3.
    rewrite Hsent3, Ho2. reflexivity.
  - (* a bulk message *)
    destruct Hwf as [Hwe Hint].
    destruct (copy_element_stream s e rest Herr Hw Hwe Hint Hs)
      as (line & r1 & s2 & HR & HC & Hs2 & He2 & Hw2 & Ho2).
    rewrite (bind_on_source _ _ _ _ _ HR). cbv beta iota.
    assert (Hline : exists t, line = "$"%byte :: t /\ 1 <= len t).
    { destruct e as [ds payload| |text]; [| |discriminate Hint].
      - destruct Hwe as (Hne & Hds & _ & _ & Hfit').
        destruct ds as [|d ds]; [contradiction|].
        destruct (source_ReadLine_stream s ("$"%byte :: d :: ds)
                    (payload ++ CRLF ++ rest)) as (r1' & HR' & _).
        + exact Herr.
        + rewrite Hs. unfold CRLF. simpl.
          repeat (rewrite <- app_assoc; simpl). reflexivity.
        + apply absent_cons. split; [discriminate|].
          now apply digits_hold_no_LF.
        + rewrite len_cons. lia.
        + rewrite HR in HR'. injection HR' as -> _.
          eexists. split; [reflexivity|]. rewrite len_cons.
          pose proof (len_nonneg ds). lia.
      - destruct (source_ReadLine_stream s ERR_RESPONSE rest) as (r1' & HR' & _);
          try assumption; try reflexivity.
        rewrite HR in HR'. injection HR' as -> _.
        eexists. split; [reflexivity|]. unfold len. simpl. lia. }
    destruct Hline as (t & -> & Ht).
    replace (len ("$"%byte :: t) <? 2) with false
      by (symmetry; apply Z.ltb_ge; rewrite len_cons; lia).
    rewrite index_in_range by (rewrite len_cons; lia).
    rewrite bind_ret. simpl nth.
    change (byte_eqb "$"%byte "$"%byte) with true. cbv iota.
    rewrite (bind_step _ _ _ _ _ HC). cbv beta iota.
    destruct (destination_Flush_healthy s2 Hw2) as (w3 & H3 & Hw3 & Hb3 & Hsent3).
    rewrite (bind_step _ _ _ _ _ H3).
    eexists. split; [reflexivity|]. cbn [Bufio.source Bufio.destination] in *.
    repeat split; try assumption; try apply Hw3.
    rewrite Hsent3, Ho2. reflexivity.
  - (* a multibulk message *)
    pose proof Hwf as ((Hne & Hds & Hval & Hfit & Hline) & Hwfe & Hint).
    destruct count as [|c cs]; [contradiction|].
    destruct (source_ReadLine_stream s ("*"%byte :: c :: cs)
                (encode_elements es ++ rest)) as (r1 & HR & Hs1 & He1);
      try assumption.
    { rewrite Hs. unfold CRLF. simpl.
      repeat (rewrite <- app_assoc; simpl). reflexivity. }
    { apply absent_cons. split; [discriminate|]. now apply digits_hold_no_LF. }
    { rewrite len_cons. lia. }
    rewrite (bind_on_source _ _ _ _ _ HR). cbv beta iota.
    replace (len ("*"%byte :: c :: cs) <? 2) with false
      by (symmetry; apply Z.ltb_ge; rewrite !len_cons;
          pose proof (len_nonneg cs); lia).
    rewrite !index_in_range
      by (rewrite !len_cons; pose proof (len_nonneg cs); lia).
    rewrite bind_ret. simpl nth.
    change (byte_eqb "*"%byte "$"%byte) with false.
    change (byte_eqb "*"%byte "*"%byte) with true. cbv iota.
    rewrite bind_ret.
    assert (Hc : byte_eqb c "-"%byte = false).
    { simpl in Hds. apply andb_prop in Hds. destruct Hds as [Hd _].
      destruct c; try discriminate Hd; reflexivity. }
    rewrite Hc, bind_ret. change (negb false) with true. cbv iota.
    destruct (CopyMultiBulkMessage_stream
                (Bufio.mkStreams r1 (Bufio.destination s)) (c :: cs) es rest
                He1 Hw Hwf Hs1)
      as (s2 & H2 & Hs2 & He2 & Hw2 & Hb2 & Hsent2).
    rewrite (bind_step _ _ _ _ _ H2). cbv beta iota.
    destruct (destination_Flush_healthy s2 Hw2) as (w3 & H3 & Hw3 & Hb3 & Hsent3).
    rewrite (bind_step _ _ _ _ _ H3).
    eexists. split; [reflexivity|]. cbn [Bufio.source Bufio.destination] in *.
    repeat split; try assumption; try apply Hw3.
    rewrite Hsent3. unfold Bufio.output at 1. rewrite Hb2, app_nil_r, Hsent2.
    reflexivity.
Qed.

(** ** Discarding the elements of a multibulk reply *)

Lemma ignore_loop_stream (fuel : nat) :
  forall (n : Z) (r : Bufio.Reader) (data tail : list byte),
    Bufio.rerr r = None ->
    stream r = data ++ tail ->
    len data = n -> n <= int_max -> n <= Z.of_nat fuel ->
    exists r',
      Protocol.ignore_loop fuel n r = (Done None, r') /\
      stream r' = tail /\ Bufio.rerr r' = None.
Proof.
  induction fuel as [|fuel IH]; intros n r data tail Herr Hs Hlen Hmax Hfuel.
  - assert (Hd : data = []).
    { destruct data; [reflexivity|]. unfold len in *. simpl in *. lia. }
    subst data. change (len (@nil byte)) with 0 in Hlen. subst n.
    exists r. repeat split; assumption.
  - cbn [Protocol.ignore_loop].
    destruct (0 <? n) eqn:Hpos.
    + apply Z.ltb_lt in Hpos.
      set (k := if BUFFER_SIZE <? n then BUFFER_SIZE else n).
      assert (Hk : 0 < k /\ k <= n).
      { unfold k. destruct (Z.ltb_spec BUFFER_SIZE n); unfold BUFFER_SIZE in *; lia. }
      assert (Hread :
        (if BUFFER_SIZE <? n
         then Protocol.source_Read BUFFER_SIZE else Protocol.source_Read n)
        = Protocol.source_Read k).
      { unfold k. destruct (BUFFER_SIZE <? n); reflexivity. }
      rewrite Hread.
      pose proof (Read_stream k r Herr (proj1 Hk)) as HR.
      destruct (Bufio.Read k r) as [[got err] r1] eqn:HRead.
      destruct HR as (Hsplit & Herr1 & Hgot & Hcase).
      destruct Hcase as [[-> Hne] | (_ & _ & Hnil)].
      2:{ rewrite Hs in Hnil.
          destruct data; [unfold len in Hlen; simpl in Hlen; lia | discriminate]. }
      rewrite Hs in Hsplit. symmetry in Hsplit.
      destruct (app_prefix_split got _ data tail Hsplit) as (data' & Hdata & Hrest).
      { unfold len in Hgot, Hlen. lia. }
      assert (Hstep : Protocol.source_Read k r = (Done (len got, None), r1)).
      { unfold Protocol.source_Read. rewrite HRead. reflexivity. }
      rewrite (bind_step _ _ _ _ _ Hstep). cbv beta iota.
      assert (Hgl : 0 < len got).
      { destruct got; [contradiction|]. rewrite len_cons.
        pose proof (len_nonneg got). lia. }
      replace (len got =? 0) with false by (symmetry; apply Z.eqb_neq; lia).
      assert (Hsub : int_sub n (len got) = n - len got).
      { apply wrap_small. unfold int_min, int_max in *. lia. }
      rewrite Hsub.
      apply (IH (n - len got) r1 data' tail); try assumption.
      * subst data. rewrite len_app in Hlen. lia.
      * lia.
      * lia.
    + apply Z.ltb_ge in Hpos.
      assert (Hd : data = []).
      { destruct data; [reflexivity|]. unfold len in *. simpl in *. lia. }
      subst data. exists r. repeat split; assumption.
Qed.

Lemma ignoreBulkMessage_stream
    (r : Bufio.Reader) (d : byte) (ds payload rest : list byte) :
  Bufio.rerr r = None ->
  forallb is_digit (d :: ds) = true ->
  decimal_value (d :: ds) = len payload ->
  len payload <= int_max ->
  stream r = payload ++ CR :: LF :: rest ->
  exists r',
    Protocol.ignoreBulkMessage ("$"%byte :: d :: ds) r = (Done None, r') /\
    stream r' = rest /\ Bufio.rerr r' = None.
Proof.
  intros Herr Hds Hval Hfit Hs.
  unfold Protocol.ignoreBulkMessage.
  rewrite bad_first_line_sigil, bind_ret. cbv iota.
  rewrite digit_header_not_null
    by (simpl in Hds; apply andb_prop in Hds; tauto).
  rewrite slice_from_tail, bind_ret.
  rewrite (ParseInt_exact (d :: ds) Hds) by (rewrite Hval; exact Hfit).
  rewrite Hval.
  destruct (ignore_loop_stream (Z.to_nat (len payload)) (len payload) r
              payload (CR :: LF :: rest) Herr Hs eq_refl Hfit)
    as (r1 & H1 & Hs1 & He1); [unfold len; lia|].
  rewrite (bind_step _ _ _ _ _ H1). cbv beta iota.
  apply read_newline_stream; assumption.
Qed.

Lemma ignore_element_stream (r : Bufio.Reader) (e : element) (rest : list byte)
      (k : nat) :
  Bufio.rerr r = None ->
  well_formed_element e ->
  stream r = encode_element e ++ rest ->
  exists r1,
    Protocol.IgnoreMultiBulkMessage_loop (S k) r
    = Protocol.IgnoreMultiBulkMessage_loop k r1 /\
    stream r1 = rest /\ Bufio.rerr r1 = None.
Proof.
  intros Herr Hwf Hs. cbn [Protocol.IgnoreMultiBulkMessage_loop].
  destruct e as [ds payload| |text].
  - destruct Hwf as (Hne & Hds & Hval & Hfit & Hline).
    destruct ds as [|d ds]; [contradiction|].
    destruct (ReadLine_stream r ("$"%byte :: d :: ds) (payload ++ CRLF ++ rest))
      as (r0 & HR & Hs0 & He0); try assumption.
    + rewrite Hs. unfold CRLF. simpl.
      repeat (rewrite <- app_assoc; simpl). reflexivity.
    + apply absent_cons. split; [discriminate|]. now apply digits_hold_no_LF.
    + rewrite len_cons. lia.
    + destruct (ignoreBulkMessage_stream r0 d ds payload rest He0 Hds Hval Hfit Hs0)
        as (r1 & HI & Hs1 & He1).
      exists r1. split; [|split; assumption].
      assert (HRL : Protocol.source_ReadLine r
                    = (Done ("$"%byte :: d :: ds, false, None), r0)).
      { unfold Protocol.source_ReadLine. rewrite HR. reflexivity. }
      rewrite (bind_step _ _ _ _ _ HRL). cbv beta iota.
      rewrite index_in_range
        by (rewrite !len_cons; pose proof (len_nonneg ds); lia).
      rewrite bind_ret.
      change (nth (Z.to_nat 0) ("$"%byte :: d :: ds) x00) with "$"%byte.
      change (byte_eqb "$"%byte ":"%byte) with false. cbv iota.
      rewrite (bind_step _ _ _ _ _ HI). reflexivity.
  - destruct (ReadLine_stream r ERR_RESPONSE rest) as (r0 & HR & Hs0 & He0);
      try assumption; try reflexivity.
    exists r0. split; [|split; assumption].
    assert (HRL : Protocol.source_ReadLine r
                  = (Done (ERR_RESPONSE, false, None), r0)).
    { unfold Protocol.source_ReadLine. rewrite HR. reflexivity. }
    rewrite (bind_step _ _ _ _ _ HRL). reflexivity.
  - destruct Hwf as (Hline & Hfit).
    assert (Hs' : stream r = (":"%byte :: text) ++ CR :: LF :: rest).
    { rewrite Hs. simpl. rewrite <- app_assoc. reflexivity. }
    assert (Hab : absent LF (":"%byte :: text)).
    { apply absent_cons. split; [discriminate | exact Hline]. }
    assert (Hlen : len (":"%byte :: text) + 1 < Bufio.defaultBufSize).
    { rewrite len_cons. lia. }
    destruct (ReadLine_stream r (":"%byte :: text) rest Herr Hs' Hab Hlen)
      as (r0 & HR & Hs0 & He0).
    exists r0. split; [|split; assumption].
    assert (HRL : Protocol.source_ReadLine r
                  = (Done (":"%byte :: text, false, None), r0)).
    { unfold Protocol.source_ReadLine. rewrite HR. reflexivity. }
    rewrite (bind_step _ _ _ _ _ HRL). cbv beta iota.
    rewrite index_in_range
      by (rewrite !len_cons; pose proof (len_nonneg text); lia).
    rewrite bind_ret. reflexivity.
Qed.

Lemma IgnoreMultiBulkMessage_loop_stream (es : list element) :
  forall (r : Bufio.Reader) (rest : list byte),
    Bufio.rerr r = None ->
    Forall well_formed_element es ->
    stream r = encode_elements es ++ rest ->
    exists r',
      Protocol.IgnoreMultiBulkMessage_loop (length es) r = (Done None, r') /\
      stream r' = rest /\ Bufio.rerr r' = None.
Proof.
  induction es as [|e es IH]; intros r rest Herr Hwf Hs.
  - exists r. repeat split; assumption.
  - inversion Hwf as [|? ? Hwe Hwes]; subst.
    unfold encode_elements in Hs. simpl in Hs. rewrite <- app_assoc in Hs.
    destruct (ignore_element_stream r e _ (length es) Herr Hwe Hs)
      as (r1 & Hstep & Hs1 & He1).
    destruct (IH r1 rest He1 Hwes Hs1) as (r' & HL & H).
    exists r'. simpl length. rewrite Hstep. split; [exact HL | exact H].
Qed.

Lemma IgnoreMultiBulkMessage_stream
    (r : Bufio.Reader) (count : list byte) (es : list element) (rest : list byte) :
  Bufio.rerr r = None ->
  counts count es ->
  Forall well_formed_element es ->
  stream r = encode_elements es ++ rest ->
  exists r',
    Protocol.IgnoreMultiBulkMessage ("*"%byte :: count) r = (Done None, r') /\
    stream r' = rest /\ Bufio.rerr r' = None.
Proof.
  intros Herr (Hne & Hds & Hval & Hfit & Hline) Hwf Hs.
  destruct count as [|c cs]; [contradiction|].
  unfold Protocol.IgnoreMultiBulkMessage.
  rewrite bad_first_line_sigil, bind_ret. cbv iota.
  rewrite slice_from_tail, bind_ret.
  rewrite (ParseInt_exact (c :: cs) Hds) by (rewrite Hval; exact Hfit).
  rewrite Hval.
  replace (Z.to_nat (len es)) with (length es) by (unfold len; lia).
  apply IgnoreMultiBulkMessage_loop_stream; assumption.
Qed.

(** A line that [CopyServerResponse] has read and that is no bulk or
    multibulk header is written with CR LF and flushed. *)
Lemma CopyServerResponse_plain_line
    (s : Bufio.Streams) (text : list byte) (r1 : Bufio.Reader) :
  Protocol.source_ReadLine (Bufio.source s) = (Done (text, false, None), r1) ->
  healthy (Bufio.destination s) ->
  is_plain_line text = true ->
  exists w',
    Protocol.CopyServerResponse s = (Done None, Bufio.mkStreams r1 w') /\
    healthy w' /\ Bufio.wbuf w' = [] /\
    Bufio.sent w' = Bufio.output (Bufio.destination s) ++ text ++ CRLF.
Proof.
  intros HR Hw Hplain. unfold Protocol.CopyServerResponse.
  destruct text as [|c0 [|c1 text]]; try discriminate Hplain.
  rewrite (bind_on_source _ _ _ _ _ HR). cbv beta iota.
  replace (len (c0 :: c1 :: text) <? 2) with false
    by (symmetry; apply Z.ltb_ge; rewrite !len_cons;
        pose proof (len_nonneg text); lia).
  rewrite !index_in_range
    by (rewrite !len_cons; pose proof (len_nonneg text); lia).
  rewrite bind_ret. simpl nth.
  simpl in Hplain. apply andb_prop in Hplain. destruct Hplain as [H0 H1].
  apply negb_true_iff in H0. rewrite H0.
  assert (Hmulti :
    (if byte_eqb c0 "*"%byte
     then bind (@ret Bufio.Streams byte c1)
               (fun c => ret (negb (byte_eqb c "-"%byte)))
     else ret false) = ret false).
  { destruct (byte_eqb c0 "*"%byte); [|reflexivity].
    simpl in H1. rewrite bind_ret, H1. reflexivity. }
  rewrite Hmulti, bind_ret. cbv iota.
  destruct (writeLine_healthy (c0 :: c1 :: text)
              (Bufio.mkStreams r1 (Bufio.destination s)) Hw)
    as (w2 & H2 & Hw2 & Ho2).
  rewrite (bind_step _ _ _ _ _ H2). cbv beta iota.
  destruct (destination_Flush_healthy (Bufio.mkStreams r1 w2) Hw2)
    as (w3 & H3 & Hw3 & Hb3 & Hsent3).
  rewrite (bind_step _ _ _ _ _ H3).
  exists w3. split; [reflexivity|]. cbn [Bufio.source Bufio.destination] in *.
  repeat split; try assumption; try apply Hw3.
  rewrite Hsent3, Ho2. reflexivity.
Qed.

(** ** What the streaming operations do to well-formed replies *)

(** X1.  [copyBulkMessage], given the header line [$<digits>] of a
    bulk message whose payload and CR LF are what the source holds
    next, forwards header, payload and terminator byte for byte,
    whatever bytes the payload is made of and however it is split
    between the buffer and the source, and leaves the source just
    behind the terminator. *)
Theorem copyBulkMessage_forwards
    (s : Bufio.Streams) (d : byte) (ds payload rest : list byte) :
  Bufio.rerr (Bufio.source s) = None ->
  healthy (Bufio.destination s) ->
  forallb is_digit (d :: ds) = true ->
  decimal_value (d :: ds) = len payload ->
  len payload <= int_max ->
  stream (Bufio.source s) = payload ++ CRLF ++ rest ->
  fst (Protocol.copyBulkMessage ("$"%byte :: d :: ds) s) = Done None /\
  Bufio.output (Bufio.destination
    (snd (Protocol.copyBulkMessage ("$"%byte :: d :: ds) s)))
  = Bufio.output (Bufio.destination s)
    ++ ("$"%byte :: d :: ds) ++ CRLF ++ payload ++ CRLF /\
  stream (Bufio.source (snd (Protocol.copyBulkMessage ("$"%byte :: d :: ds) s)))
  = rest.
Proof.
  intros Herr Hw Hds Hval Hfit Hs.
  destruct (copyBulkMessage_stream s d ds payload rest Herr Hw Hds Hval Hfit Hs)
    as (s' & H & Hs' & _ & _ & Ho).
  rewrite H. simpl. repeat split; assumption.
Qed.

Lemma copyBulkMessage_forwards_witness :
  fst (Protocol.copyBulkMessage (bs "$5")
         (Bufio.mkStreams binary_payload_source empty_writer)) = Done None /\
  Bufio.output (Bufio.destination
    (snd (Protocol.copyBulkMessage (bs "$5")
            (Bufio.mkStreams binary_payload_source empty_writer))))
  = Bufio.output empty_writer
    ++ bs "$5" ++ CRLF ++ (bs "a" ++ CRLF ++ bs "bc") ++ CRLF /\
  stream (Bufio.source
    (snd (Protocol.copyBulkMessage (bs "$5")
            (Bufio.mkStreams binary_payload_source empty_writer))))
  = bs "+OK" ++ CRLF.
Proof.
  apply (copyBulkMessage_forwards
           (Bufio.mkStreams binary_payload_source empty_writer)
           "5"%byte [] (bs "a" ++ CRLF ++ bs "bc") (bs "+OK" ++ CRLF)).
  - reflexivity.
  - split; reflexivity.
  - reflexivity.
  - reflexivity.
  - vm_compute. congruence.
  - reflexivity.
Defined.

Lemma writeLine_source (line : list byte) (s : Bufio.Streams) :
  Bufio.source (snd (Protocol.writeLine line s)) = Bufio.source s.
Proof.
  unfold Protocol.writeLine, bind, Protocol.destination_Write.
  destruct (Bufio.Write line (Bufio.destination s)) as [[e|] w1]; simpl.
  - reflexivity.
  - destruct (Bufio.Write REDIS_NEWLINE w1). reflexivity.
Qed.

(** X2.  The null bulk [$-1] is a whole message: [copyBulkMessage]
    writes that line and reads nothing from the source, whatever the
    state of the destination, and [ignoreBulkMessage] leaves the reader
    as it is. *)
Theorem null_bulk_is_one_line :
  (forall s : Bufio.Streams,
      Bufio.source (snd (Protocol.copyBulkMessage ERR_RESPONSE s))
      = Bufio.source s) /\
  (forall s : Bufio.Streams,
      healthy (Bufio.destination s) ->
      fst (Protocol.copyBulkMessage ERR_RESPONSE s) = Done None /\
      Bufio.output (Bufio.destination
        (snd (Protocol.copyBulkMessage ERR_RESPONSE s)))
      = Bufio.output (Bufio.destination s) ++ ERR_RESPONSE ++ CRLF) /\
  (forall r : Bufio.Reader,
      Protocol.ignoreBulkMessage ERR_RESPONSE r = (Done None, r)).
Proof.
  split; [|split].
  - intros s. apply (writeLine_source ERR_RESPONSE s).
  - intros s Hw.
    destruct (writeLine_healthy ERR_RESPONSE s Hw) as (w' & H & _ & Ho).
    change (Protocol.copyBulkMessage ERR_RESPONSE s)
      with (Protocol.writeLine ERR_RESPONSE s).
    rewrite H. simpl. split; [reflexivity | exact Ho].
  - intros r. reflexivity.
Qed.

Lemma null_bulk_is_one_line_witness :
  fst (Protocol.copyBulkMessage ERR_RESPONSE
         (Bufio.mkStreams binary_payload_source empty_writer)) = Done None /\
  Bufio.output (Bufio.destination
    (snd (Protocol.copyBulkMessage ERR_RESPONSE
            (Bufio.mkStreams binary_payload_source empty_writer))))
  = Bufio.output empty_writer ++ ERR_RESPONSE ++ CRLF.
Proof.
  apply (proj1 (proj2 null_bulk_is_one_line)
           (Bufio.mkStreams binary_payload_source empty_writer)).
  split; reflexivity.
Defined.

(** X3.  [CopyMultiBulkMessage], given the header line [*<count>] of a
    multibulk message whose [count] elements, bulk messages and null
    bulks with header lines that fit the reader's buffer of 4096
    bytes, are what the source holds next, forwards the header line
    and every element byte for byte, flushes them all to the
    destination and leaves the source just behind the last element. *)
Theorem CopyMultiBulkMessage_forwards
    (s : Bufio.Streams) (count : list byte) (es : list element) (rest : list byte) :
  Bufio.rerr (Bufio.source s) = None ->
  healthy (Bufio.destination s) ->
  well_formed_multibulk count es ->
  stream (Bufio.source s) = encode_elements es ++ rest ->
  fst (Protocol.CopyMultiBulkMessage ("*"%byte :: count) s) = Done None /\
  Bufio.sent (Bufio.destination
    (snd (Protocol.CopyMultiBulkMessage ("*"%byte :: count) s)))
  = Bufio.output (Bufio.destination s)
    ++ ("*"%byte :: count) ++ CRLF ++ encode_elements es /\
  Bufio.wbuf (Bufio.destination
    (snd (Protocol.CopyMultiBulkMessage ("*"%byte :: count) s))) = [] /\
  stream (Bufio.source
    (snd (Protocol.CopyMultiBulkMessage ("*"%byte :: count) s))) = rest.
Proof.
  intros Herr Hw Hwf Hs.
  destruct (CopyMultiBulkMessage_stream s count es rest Herr Hw Hwf Hs)
    as (s' & H & Hs' & _ & _ & Hb & Hsent).
  rewrite H. simpl. repeat split; assumption.
Qed.

Lemma two_bulk_elements_well_formed : Forall well_formed_element two_bulk_elements.
Proof.
  repeat constructor; try discriminate; try reflexivity; vm_compute; congruence.
Qed.

Lemma CopyMultiBulkMessage_forwards_witness :
  fst (Protocol.CopyMultiBulkMessage (bs "*2")
         (Bufio.mkStreams two_elements_source empty_writer)) = Done None /\
  Bufio.sent (Bufio.destination
    (snd (Protocol.CopyMultiBulkMessage (bs "*2")
            (Bufio.mkStreams two_elements_source empty_writer))))
  = Bufio.output empty_writer
    ++ bs "*2" ++ CRLF ++ encode_elements two_bulk_elements /\
  Bufio.wbuf (Bufio.destination
    (snd (Protocol.CopyMultiBulkMessage (bs "*2")
            (Bufio.mkStreams two_elements_source empty_writer)))) = [] /\
  stream (Bufio.source
    (snd (Protocol.CopyMultiBulkMessage (bs "*2")
            (Bufio.mkStreams two_elements_source empty_writer))))
  = bs "+OK" ++ CRLF.
Proof.
  apply (CopyMultiBulkMessage_forwards
           (Bufio.mkStreams two_elements_source empty_writer)
           (bs "2") two_bulk_elements (bs "+OK" ++ CRLF)).
  - reflexivity.
  - split; reflexivity.
  - split; [|split].
    + repeat split; try discriminate; vm_compute; congruence.
    + exact two_bulk_elements_well_formed.
    + reflexivity.
  - reflexivity.
Defined.

(** X4.  [CopyServerResponse] is the identity on a well-formed reply
    each of whose lines, with its CR LF, fits the reader's buffer of
    4096 bytes: a status, error or integer line, a bulk message, or a
    multibulk message of bulk elements; the payload of a bulk message
    may have any length.  It forwards the bytes of the reply as they
    came, has them all flushed when it returns, and consumes the reply
    and nothing behind it. *)
Theorem CopyServerResponse_forwards
    (s : Bufio.Streams) (rp : reply) (rest : list byte) :
  Bufio.rerr (Bufio.source s) = None ->
  healthy (Bufio.destination s) ->
  well_formed_reply rp ->
  stream (Bufio.source s) = encode_reply rp ++ rest ->
  fst (Protocol.CopyServerResponse s) = Done None /\
  Bufio.sent (Bufio.destination (snd (Protocol.CopyServerResponse s)))
  = Bufio.output (Bufio.destination s) ++ encode_reply rp /\
  Bufio.wbuf (Bufio.destination (snd (Protocol.CopyServerResponse s))) = [] /\
  stream (Bufio.source (snd (Protocol.CopyServerResponse s))) = rest.
Proof.
  intros Herr Hw Hwf Hs.
  destruct (CopyServerResponse_stream s rp rest Herr Hw Hwf Hs)
    as (s' & H & Hs' & _ & _ & Hb & Hsent).
  rewrite H. simpl. repeat split; assumption.
Qed.

Lemma CopyServerResponse_forwards_witness :
  fst (Protocol.CopyServerResponse
         (Bufio.mkStreams multibulk_source empty_writer)) = Done None /\
  Bufio.sent (Bufio.destination
    (snd (Protocol.CopyServerResponse
            (Bufio.mkStreams multibulk_source empty_writer))))
  = Bufio.output empty_writer
    ++ encode_reply (multibulk_reply (bs "2") two_bulk_elements) /\
  Bufio.wbuf (Bufio.destination
    (snd (Protocol.CopyServerResponse
            (Bufio.mkStreams multibulk_source empty_writer)))) = [] /\
  stream (Bufio.source
    (snd (Protocol.CopyServerResponse
            (Bufio.mkStreams multibulk_source empty_writer))))
  = bs "+OK" ++ CRLF.
Proof.
  apply (CopyServerResponse_forwards
           (Bufio.mkStreams multibulk_source empty_writer)
           (multibulk_reply (bs "2") two_bulk_elements) (bs "+OK" ++ CRLF)).
  - reflexivity.
  - split; reflexivity.
  - split; [|split].
    + repeat split; try discriminate; vm_compute; congruence.
    + exact two_bulk_elements_well_formed.
    + reflexivity.
  - reflexivity.
Defined.

(** X5.  [IgnoreMultiBulkMessage], given the header line [*<count>] of
    a multibulk message whose [count] elements (bulk messages, null
    bulks and integer replies, with header and integer lines that fit
    the reader's buffer of 4096 bytes) are what the source holds next,
    returns no error and leaves the source just behind the last
    element: it discards the message and nothing else. *)
Theorem IgnoreMultiBulkMessage_discards
    (r : Bufio.Reader) (count : list byte) (es : list element) (rest : list byte) :
  Bufio.rerr r = None ->
  counts count es ->
  Forall well_formed_element es ->
  stream r = encode_elements es ++ rest ->
  fst (Protocol.IgnoreMultiBulkMessage ("*"%byte :: count) r) = Done None /\
  stream (snd (Protocol.IgnoreMultiBulkMessage ("*"%byte :: count) r)) = rest.
Proof.
  intros Herr Hc Hwf Hs.
  destruct (IgnoreMultiBulkMessage_stream r count es rest Herr Hc Hwf Hs)
    as (r' & H & Hs' & _).
  rewrite H. simpl. split; [reflexivity | exact Hs'].
Qed.

Lemma IgnoreMultiBulkMessage_discards_witness :
  fst (Protocol.IgnoreMultiBulkMessage (bs "*3") three_elements_source)
  = Done None /\
  stream (snd (Protocol.IgnoreMultiBulkMessage (bs "*3") three_elements_source))
  = bs "+OK" ++ CRLF.
Proof.
  apply (IgnoreMultiBulkMessage_discards three_elements_source
           (bs "3") three_elements (bs "+OK" ++ CRLF)).
  - reflexivity.
  - repeat split; try discriminate; vm_compute; congruence.
  - repeat constructor; try discriminate; try reflexivity; vm_compute; congruence.
  - reflexivity.
Defined.

(** X6.  A plain line that the server ends with a bare line feed,
    and that fits with it the reader's buffer of 4096 bytes, is
    forwarded with CR LF: [CopyServerResponse] writes the line it has
    read followed by the protocol's newline, whatever ended it. *)
Theorem CopyServerResponse_line_feed_only
    (s : Bufio.Streams) (text rest : list byte) :
  Bufio.rerr (Bufio.source s) = None ->
  healthy (Bufio.destination s) ->
  is_plain_line text = true ->
  absent LF text ->
  (forall front, text <> front ++ [CR]) ->
  len text < Bufio.defaultBufSize ->
  stream (Bufio.source s) = text ++ LF :: rest ->
  fst (Protocol.CopyServerResponse s) = Done None /\
  Bufio.sent (Bufio.destination (snd (Protocol.CopyServerResponse s)))
  = Bufio.output (Bufio.destination s) ++ text ++ CRLF /\
  stream (Bufio.source (snd (Protocol.CopyServerResponse s))) = rest.
Proof.
  intros Herr Hw Hplain Hline Hcr Hfit Hs.
  destruct (ReadLine_stream_LF _ text rest Herr Hs Hline Hcr Hfit)
    as (r1 & HR & Hs1 & He1).
  assert (HRL : Protocol.source_ReadLine (Bufio.source s)
                = (Done (text, false, None), r1)).
  { unfold Protocol.source_ReadLine. rewrite HR. reflexivity. }
  destruct (CopyServerResponse_plain_line s text r1 HRL Hw Hplain)
    as (w' & H & _ & _ & Hsent).
  rewrite H. simpl. repeat split; assumption.
Qed.

Lemma CopyServerResponse_line_feed_only_witness :
  fst (Protocol.CopyServerResponse (copying (bs "+OK" ++ [LF] ++ bs ":1" ++ CRLF)))
  = Done None /\
  Bufio.sent (Bufio.destination
    (snd (Protocol.CopyServerResponse
            (copying (bs "+OK" ++ [LF] ++ bs ":1" ++ CRLF)))))
  = Bufio.output empty_writer ++ bs "+OK" ++ CRLF /\
  stream (Bufio.source
    (snd (Protocol.CopyServerResponse
            (copying (bs "+OK" ++ [LF] ++ bs ":1" ++ CRLF)))))
  = bs ":1" ++ CRLF.
Proof.
  apply (CopyServerResponse_line_feed_only
           (copying (bs "+OK" ++ [LF] ++ bs ":1" ++ CRLF))
           (bs "+OK") (bs ":1" ++ CRLF)).
  - reflexivity.
  - split; reflexivity.
  - reflexivity.
  - reflexivity.
  - intros front H. apply (f_equal (@rev byte)) in H.
    rewrite rev_app_distr in H. discriminate H.
  - vm_compute. reflexivity.
  - reflexivity.
Defined.

(** X7.  A first line of fewer than two bytes is refused:
    [CopyServerResponse] consumes the line, returns
    [ERROR_BAD_BULK_FORMAT] and leaves the destination as it was,
    nothing written and nothing flushed. *)
Theorem CopyServerResponse_short_line
    (s : Bufio.Streams) (text rest : list byte) :
  Bufio.rerr (Bufio.source s) = None ->
  len text < 2 ->
  absent LF text ->
  stream (Bufio.source s) = text ++ CRLF ++ rest ->
  fst (Protocol.CopyServerResponse s) = Done (Some ERROR_BAD_BULK_FORMAT) /\
  Bufio.destination (snd (Protocol.CopyServerResponse s)) = Bufio.destination s /\
  stream (Bufio.source (snd (Protocol.CopyServerResponse s))) = rest.
Proof.
  intros Herr Hshort Hline Hs.
  destruct (source_ReadLine_stream s text rest Herr Hs Hline)
    as (r1 & HR & Hs1 & He1).
  { unfold Bufio.defaultBufSize. lia. }
  unfold Protocol.CopyServerResponse.
  rewrite (bind_on_source _ _ _ _ _ HR). cbv beta iota.
  replace (len text <? 2) with true by (symmetry; apply Z.ltb_lt; exact Hshort).
  simpl. repeat split. exact Hs1.
Qed.

Lemma CopyServerResponse_short_line_witness :
  fst (Protocol.CopyServerResponse (copying (bs "+" ++ CRLF ++ bs "+OK" ++ CRLF)))
  = Done (Some ERROR_BAD_BULK_FORMAT) /\
  Bufio.destination
    (snd (Protocol.CopyServerResponse
            (copying (bs "+" ++ CRLF ++ bs "+OK" ++ CRLF))))
  = Bufio.destination (copying (bs "+" ++ CRLF ++ bs "+OK" ++ CRLF)) /\
  stream (Bufio.source
    (snd (Protocol.CopyServerResponse
            (copying (bs "+" ++ CRLF ++ bs "+OK" ++ CRLF)))))
  = bs "+OK" ++ CRLF.
Proof.
  apply (CopyServerResponse_short_line
           (copying (bs "+" ++ CRLF ++ bs "+OK" ++ CRLF))
           (bs "+") (bs "+OK" ++ CRLF)).
  - reflexivity.
  - vm_compute. reflexivity.
  - reflexivity.
  - reflexivity.
Defined.

Lemma ParseInt_invalid (t : list byte) :
  forallb is_digit t = false ->
  exists n, Protocol.ParseInt t = (n, Some ERROR_INVALID_INT).
Proof.
  intros H. pose proof (ParseInt_loop_err t 0) as He. rewrite H in He.
  unfold Protocol.ParseInt.
  destruct (Protocol.ParseInt_loop t 0) as [n e]. simpl in He. subst e.
  exists n. reflexivity.
Qed.

(** X8.  A header whose length is not made of digits is a parse
    error, found before anything is written or read: the four
    operations return [ERROR_INVALID_INT] and leave the streams as
    they were.  For the multibulk operations this includes [*-1]; for
    the bulk ones every text but the null bulk's [-1]. *)
Theorem invalid_length_header (x : byte) (t : list byte) :
  forallb is_digit (x :: t) = false ->
  (forall s, Protocol.CopyMultiBulkMessage ("*"%byte :: x :: t) s
             = (Done (Some ERROR_INVALID_INT), s)) /\
  (forall r, Protocol.IgnoreMultiBulkMessage ("*"%byte :: x :: t) r
             = (Done (Some ERROR_INVALID_INT), r)) /\
  (x :: t <> bs "-1" ->
   (forall s, Protocol.copyBulkMessage ("$"%byte :: x :: t) s
              = (Done (Some ERROR_INVALID_INT), s)) /\
   (forall r, Protocol.ignoreBulkMessage ("$"%byte :: x :: t) r
              = (Done (Some ERROR_INVALID_INT), r))).
Proof.
  intros Hbad. destruct (ParseInt_invalid (x :: t) Hbad) as [n Hn].
  split; [|split].
  - intros s. unfold Protocol.CopyMultiBulkMessage.
    rewrite bad_first_line_sigil, bind_ret. cbv iota.
    rewrite slice_from_tail, bind_ret, Hn. reflexivity.
  - intros r. unfold Protocol.IgnoreMultiBulkMessage.
    rewrite bad_first_line_sigil, bind_ret. cbv iota.
    rewrite slice_from_tail, bind_ret, Hn. reflexivity.
  - intros Hnull.
    assert (Hne : bytes_Equal ("$"%byte :: x :: t) ERR_RESPONSE = false).
    { destruct (bytes_Equal ("$"%byte :: x :: t) ERR_RESPONSE) eqn:E;
        [|reflexivity].
      apply bytes_Equal_eq in E. exfalso. apply Hnull.
      injection E as -> ->. reflexivity. }
    split.
    + intros s. unfold Protocol.copyBulkMessage.
      rewrite bad_first_line_sigil, bind_ret. cbv iota.
      rewrite Hne, slice_from_tail, bind_ret, Hn. reflexivity.
    + intros r. unfold Protocol.ignoreBulkMessage.
      rewrite bad_first_line_sigil, bind_ret. cbv iota.
      rewrite Hne, slice_from_tail, bind_ret, Hn. reflexivity.
Qed.

Lemma invalid_length_header_witness :
  (forall s, Protocol.CopyMultiBulkMessage (bs "*12a") s
             = (Done (Some ERROR_INVALID_INT), s)) /\
  (forall r, Protocol.IgnoreMultiBulkMessage (bs "*12a") r
             = (Done (Some ERROR_INVALID_INT), r)) /\
  (forall s, Protocol.copyBulkMessage (bs "$12a") s
             = (Done (Some ERROR_INVALID_INT), s)) /\
  (forall r, Protocol.ignoreBulkMessage (bs "$12a") r
             = (Done (Some ERROR_INVALID_INT), r)).
Proof.
  destruct (invalid_length_header "1"%byte (bs "2a") eq_refl) as (H1 & H2 & H3).
  split; [exact H1|]. split; [exact H2|]. apply H3. discriminate.
Defined.

Lemma read_newline_bad (r : Bufio.Reader) (t1 t2 : byte) (rest : list byte) :
  Bufio.rerr r = None -> stream r = t1 :: t2 :: rest ->
  t1 <> CR \/ t2 <> LF ->
  exists r', Protocol.read_newline r = (Done (Some ERROR_BAD_BULK_FORMAT), r').
Proof.
  intros Herr Hs Hbad.
  destruct (ReadByte_stream r t1 (t2 :: rest) Herr Hs) as (r1 & H1 & Hs1 & He1).
  destruct (ReadByte_stream r1 t2 rest He1 Hs1) as (r2 & H2 & Hs2 & He2).
  unfold Protocol.read_newline, bind, Protocol.source_ReadByte.
  rewrite H1. cbv beta iota.
  destruct (byte_eqb t1 CR) eqn:E1; cbv beta iota delta [negb ret].
  - rewrite H2. cbv beta iota.
    destruct (byte_eqb t2 LF) eqn:E2; cbv beta iota delta [negb].
    + apply byte_eqb_eq in E1, E2. tauto.
    + eexists. reflexivity.
  - eexists. reflexivity.
Qed.

(** X9.  The terminator of a bulk payload is checked after the
    payload has been copied: when the two bytes behind the declared
    length are not CR LF, [copyBulkMessage] returns
    [ERROR_BAD_BULK_FORMAT], and the header line and the whole payload
    have already been written to the destination. *)
Theorem copyBulkMessage_bad_terminator
    (s : Bufio.Streams) (d t1 t2 : byte) (ds payload rest : list byte) :
  Bufio.rerr (Bufio.source s) = None ->
  healthy (Bufio.destination s) ->
  forallb is_digit (d :: ds) = true ->
  decimal_value (d :: ds) = len payload ->
  len payload <= int_max ->
  stream (Bufio.source s) = payload ++ t1 :: t2 :: rest ->
  t1 <> CR \/ t2 <> LF ->
  fst (Protocol.copyBulkMessage ("$"%byte :: d :: ds) s)
  = Done (Some ERROR_BAD_BULK_FORMAT) /\
  Bufio.output (Bufio.destination
    (snd (Protocol.copyBulkMessage ("$"%byte :: d :: ds) s)))
  = Bufio.output (Bufio.destination s)
    ++ ("$"%byte :: d :: ds) ++ CRLF ++ payload.
Proof.
  intros Herr Hw Hds Hval Hfit Hs Hbad.
  unfold Protocol.copyBulkMessage.
  rewrite bad_first_line_sigil, bind_ret. cbv iota.
  rewrite digit_header_not_null
    by (simpl in Hds; apply andb_prop in Hds; tauto).
  rewrite slice_from_tail, bind_ret.
  rewrite (ParseInt_exact (d :: ds) Hds) by (rewrite Hval; exact Hfit).
  rewrite Hval.
  destruct (writeLine_healthy ("$"%byte :: d :: ds) s Hw) as (w1 & H1 & Hw1 & Ho1).
  rewrite (bind_step _ _ _ _ _ H1). cbv beta iota.
  destruct (io_CopyN_stream (Bufio.mkStreams (Bufio.source s) w1)
              payload (t1 :: t2 :: rest) Herr Hw1 Hs)
    as (s2 & H2 & Hs2 & He2 & Hw2 & Ho2).
  rewrite (bind_step _ _ _ _ _ H2). cbv beta iota.
  rewrite Z.eqb_refl. change (negb true) with false. cbv iota.
  destruct (read_newline_bad (Bufio.source s2) t1 t2 rest He2 Hs2 Hbad)
    as (r3 & H3).
  rewrite (bind_on_source _ _ _ _ _ H3). simpl.
  split; [reflexivity|].
  rewrite Ho2. simpl Bufio.destination. rewrite Ho1, <- !app_assoc. reflexivity.
Qed.

Lemma copyBulkMessage_bad_terminator_witness :
  fst (Protocol.copyBulkMessage (bs "$3") (copying (bs "foobar" ++ CRLF)))
  = Done (Some ERROR_BAD_BULK_FORMAT) /\
  Bufio.output (Bufio.destination
    (snd (Protocol.copyBulkMessage (bs "$3") (copying (bs "foobar" ++ CRLF)))))
  = Bufio.output empty_writer ++ bs "$3" ++ CRLF ++ bs "foo".
Proof.
  apply (copyBulkMessage_bad_terminator (copying (bs "foobar" ++ CRLF))
           "3"%byte "b"%byte "a"%byte [] (bs "foo") (bs "r" ++ CRLF)).
  - reflexivity.
  - split; reflexivity.
  - reflexivity.
  - reflexivity.
  - vm_compute. congruence.
  - reflexivity.
  - left. discriminate.
Defined.

(** ** No panic on the copying side *)

Lemma never_panics_source_Read (k : Z) : never_panics (Protocol.source_Read k).
Proof.
  intros r p. unfold Protocol.source_Read.
  destruct (Bufio.Read k r) as [[c e] r']. discriminate.
Qed.

Lemma never_panics_ignore_loop (fuel : nat) (n : Z) :
  never_panics (Protocol.ignore_loop fuel n).
Proof.
  revert n. induction fuel as [|fuel IH]; intros n; simpl.
  - destruct (0 <? n); apply never_panics_ret.
  - destruct (0 <? n); [|apply never_panics_ret].
    apply never_panics_bind.
    + destruct (BUFFER_SIZE <? n); apply never_panics_source_Read.
    + intros [copied [e|]]; [apply never_panics_ret|].
      destruct (copied =? 0); [apply never_panics_ret | apply IH].
Qed.

Lemma never_panics_ignoreBulkMessage (firstLine : list byte) :
  never_panics (Protocol.ignoreBulkMessage firstLine).
Proof.
  unfold Protocol.ignoreBulkMessage.
  destruct (@bad_first_line_cases Bufio.Reader firstLine "$"%byte)
    as [-> | (Hlen & b & ->)]; rewrite bind_ret.
  - apply never_panics_ret.
  - destruct b; [apply never_panics_ret|].
    destruct (bytes_Equal firstLine ERR_RESPONSE); [apply never_panics_ret|].
    destruct (@slice_from_in_range Bufio.Reader firstLine 1 ltac:(lia)) as [t ->].
    rewrite bind_ret.
    destruct (Protocol.ParseInt t) as [n [e|]]; [apply never_panics_ret|].
    apply never_panics_bind; [apply never_panics_ignore_loop|].
    intros [e|]; [apply never_panics_ret | apply never_panics_read_newline].
Qed.

(** X10.  Whatever the source delivers and whatever the state of the
    destination, [CopyServerResponse], [CopyMultiBulkMessage],
    [copyBulkMessage] and [ignoreBulkMessage] end without a panic,
    for every first line they are given: each index and slice
    expression they evaluate is in bounds. *)
Theorem copying_never_panics :
  never_panics Protocol.CopyServerResponse /\
  (forall firstLine, never_panics (Protocol.CopyMultiBulkMessage firstLine)) /\
  (forall firstLine, never_panics (Protocol.copyBulkMessage firstLine)) /\
  (forall firstLine, never_panics (Protocol.ignoreBulkMessage firstLine)).
Proof.
  split; [exact never_panics_CopyServerResponse|].
  split; [exact never_panics_CopyMultiBulkMessage|].
  split; [exact never_panics_copyBulkMessage|].
  exact never_panics_ignoreBulkMessage.
Qed.

(** ** [GetCommand] on complete elements *)

Lemma GetCommand_command_only
    (r : Bufio.Reader) (h x c1 c2 : byte) (ds cmd : list byte) :
  Bufio.buffered r = h :: ds ++ CR :: x :: cmd ++ [c1; c2] ->
  Bufio.Buffered r <= Bufio.defaultBufSize ->
  byte_eqb h CR = false ->
  forallb is_digit ds = true ->
  decimal_value ds = len cmd ->
  Protocol.GetCommand r
  = (Done (Some (map Protocol.lowercaseize cmd), None, None),
     Bufio.set_buffered
       (h :: ds ++ CR :: x :: map Protocol.lowercaseize cmd ++ [c1; c2]) r).
Proof.
  intros Hbuf Hsize Hh Hds Hcmd.
  pose proof (decimal_value_nonneg ds Hds) as Hn.
  pose proof (len_nonneg ds) as Hl.
  set (cmd' := map Protocol.lowercaseize cmd).
  set (contents := h :: ds ++ CR :: x :: cmd ++ [c1; c2]).
  change (Bufio.buffered r = contents) in Hbuf.
  set (contents' := h :: ds ++ CR :: x :: cmd' ++ [c1; c2]).
  assert (Hlen : len contents = len ds + len cmd + 5).
  { unfold contents. lens. lia. }
  assert (Hlen' : len contents' = len contents).
  { unfold contents', contents, cmd'. lens. lia. }
  assert (Hsz : len contents <= 4096).
  { unfold Bufio.Buffered in Hsize. rewrite Hbuf in Hsize. exact Hsize. }
  assert (S1 : contents = [h] ++ ds ++ CR :: x :: cmd ++ [c1; c2])
    by reflexivity.
  assert (S2 : contents = (h :: ds ++ [CR; x]) ++ cmd ++ [c1; c2]).
  { unfold contents. simpl. now rewrite <- app_assoc. }
  assert (S3 : contents' = (h :: ds ++ [CR; x]) ++ cmd' ++ [c1; c2]).
  { unfold contents'. simpl. now rewrite <- app_assoc. }
  unfold Protocol.GetCommand. rewrite bind_Buffered_Peek.
  unfold peeked. rewrite (proj2 (Z.ltb_ge _ _) Hsize), Hbuf.
  cbv zeta.
  assert (I1 : IndexByte contents CR = 1 + len ds)
    by (apply IndexByte_header; assumption).
  rewrite I1.
  replace (1 + len ds =? -1) with false by (symmetry; apply Z.eqb_neq; lia).
  rewrite S1 at 1.
  rewrite (slice_middle [h] ds) by (lens; lia).
  rewrite bind_ret.
  rewrite (ParseInt_exact ds Hds) by (unfold int_max; lia).
  rewrite (int_add_small (1 + len ds) 2) by (unfold int_min, int_max; lia).
  rewrite (int_add_small (1 + len ds + 2)) by (unfold int_min, int_max; lia).
  rewrite (int_add_small (1 + len ds + 2 + decimal_value ds))
    by (unfold int_min, int_max; lia).
  replace (len contents <? 1 + len ds + 2 + decimal_value ds + 2)
    with false by (symmetry; apply Z.ltb_ge; lia).
  rewrite S2 at 1.
  rewrite (slice_middle (h :: ds ++ [CR; x]) cmd) by (lens; lia).
  rewrite bind_ret. fold cmd'.
  rewrite bind_store. rewrite Hbuf.
  rewrite S2.
  rewrite (overwrite_middle (h :: ds ++ [CR; x]) cmd)
    by (try (lens; lia); unfold cmd'; now rewrite length_map).
  rewrite <- S3.
  replace (1 + len ds + 2 + decimal_value ds + 2 =? len contents')
    with true by (symmetry; apply Z.eqb_eq; lia).
  reflexivity.
Qed.

Lemma GetCommand_with_argument
    (r : Bufio.Reader) (h x c1 c2 h2 y c3 c4 : byte)
    (ds cmd ds2 arg more : list byte) :
  Bufio.buffered r
  = h :: ds ++ CR :: x :: cmd ++ c1 :: c2
      :: h2 :: ds2 ++ CR :: y :: arg ++ c3 :: c4 :: more ->
  Bufio.Buffered r <= Bufio.defaultBufSize ->
  byte_eqb h CR = false ->
  forallb is_digit ds = true ->
  decimal_value ds = len cmd ->
  byte_eqb h2 CR = false ->
  forallb is_digit ds2 = true ->
  decimal_value ds2 = len arg ->
  Protocol.GetCommand r
  = (Done (Some (map Protocol.lowercaseize cmd), Some arg, None),
     Bufio.set_buffered
       (h :: ds ++ CR :: x :: map Protocol.lowercaseize cmd ++ c1 :: c2
          :: h2 :: ds2 ++ CR :: y :: arg ++ c3 :: c4 :: more) r).
Proof.
  intros Hbuf Hsize Hh Hds Hcmd Hh2 Hds2 Harg.
  pose proof (decimal_value_nonneg ds Hds) as Hn.
  pose proof (decimal_value_nonneg ds2 Hds2) as Hn2.
  pose proof (len_nonneg ds) as Hl.
  pose proof (len_nonneg ds2) as Hl2.
  pose proof (len_nonneg more) as Hlr.
  set (cmd' := map Protocol.lowercaseize cmd).
  set (rest := y :: arg ++ c3 :: c4 :: more).
  set (tail2 := h2 :: ds2 ++ CR :: rest).
  set (contents := h :: ds ++ CR :: x :: cmd ++ c1 :: c2 :: tail2).
  change (Bufio.buffered r = contents) in Hbuf.
  set (contents' := h :: ds ++ CR :: x :: cmd' ++ c1 :: c2 :: tail2).
  assert (Hlen : len contents
                 = len ds + len cmd + len ds2 + len arg + len more + 10).
  { unfold contents, tail2, rest. lens. lia. }
  assert (Hlen' : len contents' = len contents).
  { unfold contents', contents, tail2, cmd'. lens. lia. }
  assert (Hsz : len contents <= 4096).
  { unfold Bufio.Buffered in Hsize. rewrite Hbuf in Hsize. exact Hsize. }
  assert (S1 : contents = [h] ++ ds ++ CR :: x :: cmd ++ c1 :: c2 :: tail2)
    by reflexivity.
  assert (S2 : contents = (h :: ds ++ [CR; x]) ++ cmd ++ c1 :: c2 :: tail2).
  { unfold contents. simpl. now rewrite <- app_assoc. }
  assert (S3 : contents' = (h :: ds ++ [CR; x]) ++ cmd' ++ c1 :: c2 :: tail2).
  { unfold contents'. simpl. now rewrite <- app_assoc. }
  assert (S4 : contents'
               = (h :: ds ++ CR :: x :: cmd' ++ [c1; c2]) ++ tail2 ++ []).
  { unfold contents'. simpl. rewrite app_nil_r.
    rewrite <- !app_assoc. simpl. rewrite <- app_assoc. reflexivity. }
  assert (S5 : contents'
               = (h :: ds ++ CR :: x :: cmd' ++ [c1; c2; h2]) ++ ds2 ++ CR :: rest).
  { unfold contents', tail2. simpl.
    rewrite <- !app_assoc. simpl. rewrite <- app_assoc. reflexivity. }
  assert (S6 : contents'
               = (h :: ds ++ CR :: x :: cmd' ++ c1 :: c2 :: h2 :: ds2 ++ [CR; y])
                   ++ arg ++ c3 :: c4 :: more).
  { unfold contents', tail2, rest. simpl.
    repeat (rewrite <- app_assoc; simpl). reflexivity. }
  unfold Protocol.GetCommand. rewrite bind_Buffered_Peek.
  unfold peeked. rewrite (proj2 (Z.ltb_ge _ _) Hsize), Hbuf.
  cbv zeta.
  assert (I1 : IndexByte contents CR = 1 + len ds)
    by (apply IndexByte_header; assumption).
  rewrite I1.
  replace (1 + len ds =? -1) with false by (symmetry; apply Z.eqb_neq; lia).
  rewrite S1 at 1.
  rewrite (slice_middle [h] ds) by (lens; lia).
  rewrite bind_ret.
  rewrite (ParseInt_exact ds Hds) by (unfold int_max; lia).
  rewrite (int_add_small (1 + len ds) 2) by (unfold int_min, int_max; lia).
  rewrite (int_add_small (1 + len ds + 2)) by (unfold int_min, int_max; lia).
  rewrite (int_add_small (1 + len ds + 2 + decimal_value ds))
    by (unfold int_min, int_max; lia).
  replace (len contents <? 1 + len ds + 2 + decimal_value ds + 2)
    with false by (symmetry; apply Z.ltb_ge; lia).
  rewrite S2 at 1.
  rewrite (slice_middle (h :: ds ++ [CR; x]) cmd) by (lens; lia).
  rewrite bind_ret. fold cmd'.
  rewrite bind_store. rewrite Hbuf.
  rewrite S2.
  rewrite (overwrite_middle (h :: ds ++ [CR; x]) cmd)
    by (try (lens; lia); unfold cmd'; now rewrite length_map).
  rewrite <- S3.
  set (m := 1 + len ds + 2 + decimal_value ds + 2).
  assert (Hm : m = len ds + len cmd + 5) by (unfold m; lia).
  replace (m =? len contents') with false by (symmetry; apply Z.eqb_neq; lia).
  assert (F1 : @slice_from Bufio.Reader contents' m = ret tail2).
  { unfold slice_from. rewrite S4. apply slice_middle.
    - unfold cmd'. lens. lia.
    - unfold cmd'. lens. lia. }
  rewrite F1, bind_ret.
  assert (I2 : IndexByte tail2 CR = 1 + len ds2)
    by (apply IndexByte_header; assumption).
  rewrite I2.
  replace (1 + len ds2 =? -1) with false by (symmetry; apply Z.eqb_neq; lia).
  rewrite (int_add_small m 1) by (unfold int_min, int_max; lia).
  rewrite (int_add_small (1 + len ds2) m) by (unfold int_min, int_max; lia).
  assert (F2 : @slice Bufio.Reader contents' (m + 1) (1 + len ds2 + m) = ret ds2).
  { rewrite S5. apply slice_middle.
    - unfold cmd'. lens. lia.
    - unfold cmd'. lens. lia. }
  rewrite F2, bind_ret.
  rewrite (ParseInt_exact ds2 Hds2) by (unfold int_max; lia).
  rewrite (int_add_small (1 + len ds2 + m) 2) by (unfold int_min, int_max; lia).
  rewrite (int_add_small (1 + len ds2 + m + 2))
    by (unfold int_min, int_max; lia).
  rewrite (int_add_small (1 + len ds2 + m + 2 + decimal_value ds2))
    by (unfold int_min, int_max; lia).
  replace (len contents' <? 1 + len ds2 + m + 2 + decimal_value ds2 + 2)
    with false by (symmetry; apply Z.ltb_ge; lia).
  assert (F3 : @slice Bufio.Reader contents' (1 + len ds2 + m + 2)
                 (1 + len ds2 + m + 2 + decimal_value ds2) = ret arg).
  { rewrite S6. apply slice_middle.
    - unfold cmd'. lens. lia.
    - unfold cmd'. lens. lia. }
  rewrite F3, bind_ret.
  reflexivity.
Qed.

(** X11.  On a buffer of at most 4096 bytes that starts with a
    complete element [h<digits> CR x <command> c1 c2], where the
    header byte [h] is any byte but CR, [GetCommand] returns the
    command with every byte mapped by the loop's rule, and no error.
    If the buffer ends there it returns no argument; if a second
    complete element follows, its header byte again any byte but CR,
    it returns that element's payload, unchanged, as the first
    argument, whatever comes after it.  The command is rewritten in
    the reader's buffer and nothing else is.  A header byte need not
    be ['$'], and the bytes [x], [c1], [c2] at the places of the line
    feed and of the line end behind a payload may be any bytes. *)
Theorem GetCommand_reads_elements :
  (forall (r : Bufio.Reader) (h x c1 c2 : byte) (ds cmd : list byte),
      Bufio.buffered r = h :: ds ++ CR :: x :: cmd ++ [c1; c2] ->
      Bufio.Buffered r <= Bufio.defaultBufSize ->
      byte_eqb h CR = false ->
      forallb is_digit ds = true ->
      decimal_value ds = len cmd ->
      Protocol.GetCommand r
      = (Done (Some (map Protocol.lowercaseize cmd), None, None),
         Bufio.set_buffered
           (h :: ds ++ CR :: x :: map Protocol.lowercaseize cmd ++ [c1; c2]) r)) /\
  (forall (r : Bufio.Reader) (h x c1 c2 h2 y c3 c4 : byte)
          (ds cmd ds2 arg more : list byte),
      Bufio.buffered r
      = h :: ds ++ CR :: x :: cmd ++ c1 :: c2
          :: h2 :: ds2 ++ CR :: y :: arg ++ c3 :: c4 :: more ->
      Bufio.Buffered r <= Bufio.defaultBufSize ->
      byte_eqb h CR = false ->
      forallb is_digit ds = true ->
      decimal_value ds = len cmd ->
      byte_eqb h2 CR = false ->
      forallb is_digit ds2 = true ->
      decimal_value ds2 = len arg ->
      Protocol.GetCommand r
      = (Done (Some (map Protocol.lowercaseize cmd), Some arg, None),
         Bufio.set_buffered
           (h :: ds ++ CR :: x :: map Protocol.lowercaseize cmd ++ c1 :: c2
              :: h2 :: ds2 ++ CR :: y :: arg ++ c3 :: c4 :: more) r)).
Proof.
  split.
  - exact GetCommand_command_only.
  - exact GetCommand_with_argument.
Qed.

Lemma GetCommand_reads_elements_witness :
  Protocol.GetCommand (buf_reader (bs "$4" ++ CRLF ++ bs "PING" ++ CRLF))
  = (Done (Some (bs "ping"), None, None),
     Bufio.set_buffered (bs "$4" ++ CRLF ++ bs "ping" ++ CRLF)
       (buf_reader (bs "$4" ++ CRLF ++ bs "PING" ++ CRLF))) /\
  Protocol.GetCommand
    (buf_reader (bs "$3" ++ CRLF ++ bs "SET" ++ CRLF ++ bs "$3" ++ CRLF
                 ++ bs "Key" ++ CRLF ++ bs "$1" ++ CRLF ++ bs "v" ++ CRLF))
  = (Done (Some (bs "set"), Some (bs "Key"), None),
     Bufio.set_buffered
       (bs "$3" ++ CRLF ++ bs "set" ++ CRLF ++ bs "$3" ++ CRLF
        ++ bs "Key" ++ CRLF ++ bs "$1" ++ CRLF ++ bs "v" ++ CRLF)
       (buf_reader (bs "$3" ++ CRLF ++ bs "SET" ++ CRLF ++ bs "$3" ++ CRLF
                    ++ bs "Key" ++ CRLF ++ bs "$1" ++ CRLF ++ bs "v" ++ CRLF))).
Proof.
  split.
  - apply (proj1 GetCommand_reads_elements
             (buf_reader (bs "$4" ++ CRLF ++ bs "PING" ++ CRLF))
             "$"%byte LF CR LF (bs "4") (bs "PING"));
      try reflexivity; vm_compute; congruence.
  - apply (proj2 GetCommand_reads_elements
             (buf_reader (bs "$3" ++ CRLF ++ bs "SET" ++ CRLF ++ bs "$3" ++ CRLF
                          ++ bs "Key" ++ CRLF ++ bs "$1" ++ CRLF ++ bs "v" ++ CRLF))
             "$"%byte LF CR LF "$"%byte LF CR LF
             (bs "3") (bs "SET") (bs "3") (bs "Key") (bs "$1" ++ CRLF ++ bs "v" ++ CRLF));
      try reflexivity; vm_compute; congruence.
Defined.

(** ** The command tables and the letter case *)

Lemma lowercaseize_to_lower (b : byte) :
  is_lower (to_lower b) = true -> Protocol.lowercaseize b = to_lower b.
Proof. destruct b; intros H; try discriminate H; reflexivity. Qed.

Lemma lowercaseize_small_letters (cmd : list byte) :
  forallb is_lower (map to_lower cmd) = true ->
  map Protocol.lowercaseize cmd = map to_lower cmd.
Proof.
  induction cmd as [|b cmd IH]; simpl; [reflexivity|].
  intros H. apply andb_prop in H. destruct H as [Hb Hcmd].
  rewrite (lowercaseize_to_lower b Hb), (IH Hcmd). reflexivity.
Qed.

Lemma known_commands_small_letters :
  forallb (fun key => forallb is_lower (bs key)) known_commands = true.
Proof. vm_compute. reflexivity. Qed.

(** X12.  The keys of the three command tables are made of small
    letters, so the rule of [GetCommand]'s loop finds them: a command
    that is a key of a table in some letter case comes out of the loop
    as the key itself and is looked up with success.  No key is in two
    tables. *)
Theorem known_commands_any_case :
  (forall (key : string) (cmd : list byte),
      In key known_commands ->
      map to_lower cmd = bs key ->
      map Protocol.lowercaseize cmd = bs key /\
      Protocol.lookup known_commands (map Protocol.lowercaseize cmd) = true) /\
  tables_apart Protocol.UNSAFE_FUNCTIONS Protocol.SINGLE_DB_FUNCTIONS = true /\
  tables_apart Protocol.UNSAFE_FUNCTIONS Protocol.PUBSUB_FUNCTIONS = true /\
  tables_apart Protocol.SINGLE_DB_FUNCTIONS Protocol.PUBSUB_FUNCTIONS = true.
Proof.
  split; [|repeat split].
  intros key cmd Hin Hcase.
  pose proof known_commands_small_letters as Hsmall.
  rewrite forallb_forall in Hsmall. specialize (Hsmall key Hin).
  assert (Hcmd : map Protocol.lowercaseize cmd = bs key).
  { rewrite lowercaseize_small_letters; [exact Hcase|]. now rewrite Hcase. }
  split; [exact Hcmd|].
  rewrite Hcmd. unfold Protocol.lookup. apply existsb_exists.
  exists key. split; [exact Hin|]. now apply bytes_Equal_eq.
Qed.

Lemma known_commands_any_case_witness :
  map Protocol.lowercaseize (bs "FlushALL") = bs "flushall" /\
  Protocol.lookup known_commands (map Protocol.lowercaseize (bs "FlushALL")) = true.
Proof.
  apply (proj1 known_commands_any_case "flushall"%string (bs "FlushALL")).
  - vm_compute. tauto.
  - reflexivity.
Defined.

(** ** The connection keeps its invariant *)

Ltac run_connection :=
  cbv [Connection.SelectDatabase Connection.authenticate
       Connection.CheckConnection Connection.IsConnected
       Connection.ReconnectIfNecessary Connection.Disconnect
       Connection.WriteLine Connection.Reader_ReadLine
       Connection.socket_Read
       Connection.get Connection.modify Connection.emit
       Connection.is_nil bind ret throw];
  simpl.

(** Case analysis on the innermost scrutinee first, so that what
    encloses it reduces. *)
Ltac split_matches :=
  repeat (simpl;
          match goal with
          | |- context [match ?x with _ => _ end] =>
              lazymatch x with
              | context [match _ with _ => _ end] => fail
              | _ => destruct x
              end
          end).

Ltac settle_consistent :=
  simpl;
  split;
  [ eexists; reflexivity
  | unfold consistent, torn_down, live; simpl;
    first [ left; repeat split; reflexivity
          | right; repeat split; discriminate ] ].

Lemma consistent_cases (c : Connection.Connection) :
  consistent c ->
  (Connection.connection c = None /\ Connection.Reader c = None /\
   Connection.Writer c = None /\ Connection.DatabaseId c = 0) \/
  (exists s r w, Connection.connection c = Some s /\
                 Connection.Reader c = Some r /\ Connection.Writer c = Some w).
Proof.
  intros [H | (Hc & Hr & Hw)]; [left; exact H | right].
  destruct (Connection.connection c) as [s|]; [|contradiction].
  destruct (Connection.Reader c) as [r|]; [|contradiction].
  destruct (Connection.Writer c) as [w|]; [|contradiction].
  exists s, r, w. repeat split.
Qed.

Lemma Disconnect_keeps_consistent : keeps_consistent Connection.Disconnect.
Proof.
  intros w _. rewrite Disconnect_unfold. settle_consistent.
Qed.

Lemma SelectDatabase_keeps_consistent (id : Z) :
  keeps_consistent (Connection.SelectDatabase id).
Proof.
  intros [c t] Hc. destruct (consistent_cases c Hc) as [H | (s & r & w & H)];
    destruct c as [conn db rd wr p e u pw ct rt wt]; simpl in H;
    decompose [and] H; subst; run_connection.
  - settle_consistent.
  - split_matches; settle_consistent.
Qed.

Lemma authenticate_keeps_consistent : keeps_consistent Connection.authenticate.
Proof.
  intros [c t] Hc. destruct (consistent_cases c Hc) as [H | (s & r & w & H)];
    destruct c as [conn db rd wr p e u pw ct rt wt]; simpl in H;
    decompose [and] H; subst; run_connection.
  - settle_consistent.
  - split_matches; settle_consistent.
Qed.

Lemma CheckConnection_keeps_consistent : keeps_consistent Connection.CheckConnection.
Proof.
  intros [c t] Hc. destruct (consistent_cases c Hc) as [H | (s & r & w & H)];
    destruct c as [conn db rd wr p e u pw ct rt wt]; simpl in H;
    decompose [and] H; subst; run_connection.
  - settle_consistent.
  - split_matches; settle_consistent.
Qed.

Lemma IsConnected_keeps_consistent (quiet : Connection.quiet_socket) :
  keeps_consistent (Connection.IsConnected quiet).
Proof.
  intros [c t] Hc. destruct (consistent_cases c Hc) as [H | (s & r & w & H)];
    destruct c as [conn db rd wr p e u pw ct rt wt]; simpl in H;
    decompose [and] H; subst; run_connection.
  - settle_consistent.
  - split_matches; settle_consistent.
Qed.

Lemma ReconnectIfNecessary_keeps_consistent
      (quiet : Connection.quiet_socket) (dial : Connection.dial_result) :
  keeps_consistent (Connection.ReconnectIfNecessary quiet dial).
Proof.
  intros [c t] Hc. destruct (consistent_cases c Hc) as [H | (s & r & w & H)];
    destruct c as [conn db rd wr p e u pw ct rt wt]; simpl in H;
    decompose [and] H; subst; run_connection.
  - split_matches; settle_consistent.
  - split_matches; settle_consistent.
Qed.

Lemma Reader_ReadLine_world (c : Connection.Connection) (t : list Connection.event)
      (r : Bufio.Reader) :
  Connection.Reader c = Some r ->
  Connection.Reader_ReadLine (Connection.mkWorld c t)
  = (Done (fst (Bufio.ReadLine r)),
     Connection.mkWorld
       (Connection.set_Reader (Some (snd (Bufio.ReadLine r))) c) t).
Proof.
  intros Hr. cbv [Connection.Reader_ReadLine Connection.get Connection.modify bind ret].
  simpl. rewrite Hr. destruct (Bufio.ReadLine r) as [[[line p] e] r']. reflexivity.
Qed.

(** X13.  [authenticate] on a connection with a socket.  Without a
    password it does nothing and succeeds.  With one, once the AUTH
    command has been written, it reads one reply: on exactly [+OK]
    it succeeds and the connection stays as it is; on any other
    reply (a read error, a prefix of a longer line, another line) it
    disconnects and returns the authentication error. *)
Theorem authenticate_reply
    (w : Connection.World) (socket : Z) (rd : Bufio.Reader) :
  Connection.connection (Connection.this w) = Some socket ->
  Connection.Reader (Connection.this w) = Some rd ->
  if String.eqb (Connection.authPassword (Connection.this w)) ""
  then Connection.authenticate w = (Done None, w)
  else
    fst (Connection.WriteLine
           (Connection.auth_command
              (Connection.authUser (Connection.this w))
              (Connection.authPassword (Connection.this w))) true w)
    = Done None ->
    let '(line, isPrefix, err, _) := Bufio.ReadLine rd in
    let w' := snd (Connection.authenticate w) in
    if acknowledged line isPrefix err then
      fst (Connection.authenticate w) = Done None /\
      Connection.connection (Connection.this w') = Some socket /\
      Connection.DatabaseId (Connection.this w')
      = Connection.DatabaseId (Connection.this w) /\
      Connection.trace w' = Connection.trace w
    else
      fst (Connection.authenticate w)
      = Done (Some (errors_New "invalid authentication response")) /\
      Connection.connection (Connection.this w') = None /\
      Connection.Reader (Connection.this w') = None /\
      Connection.Writer (Connection.this w') = None /\
      Connection.DatabaseId (Connection.this w') = 0 /\
      Connection.trace w'
      = Connection.trace w
        ++ [Connection.socket_Close socket;
            Connection.graphite_Increment "disconnect"].
Proof.
  destruct w as [c t]. simpl. intros Hc Hr.
  destruct (String.eqb (Connection.authPassword c) "") eqn:Hpw.
  - unfold Connection.authenticate. cbv [bind Connection.get ret]. simpl.
    rewrite Hc, Hpw. reflexivity.
  - intros Hw.
    destruct (Connection.Writer c) as [wr|] eqn:Hwr.
    2:{ revert Hw. cbv [Connection.WriteLine Connection.get bind throw]. simpl.
        rewrite Hwr. discriminate. }
    destruct (WriteLine_world
                (Connection.auth_command (Connection.authUser c)
                   (Connection.authPassword c)) true c t wr Hwr)
      as (e & wr' & HW).
    rewrite HW in Hw. simpl in Hw. injection Hw as ->.
    destruct (Bufio.ReadLine rd) as [[[line isPrefix] err] rd'] eqn:HRL.
    cbv zeta.
    unfold Connection.authenticate.
    cbv [bind Connection.get ret]. simpl. rewrite Hc, Hpw. simpl.
    rewrite HW.
    rewrite (Reader_ReadLine_world _ t rd) by exact Hr.
    rewrite HRL. simpl.
    unfold acknowledged.
    destruct err as [e|]; simpl.
    + rewrite Disconnect_unfold. simpl. rewrite Hc. repeat split.
    + destruct isPrefix; simpl.
      * rewrite Disconnect_unfold. simpl. rewrite Hc. repeat split.
      * destruct (bytes_Equal line OK_RESPONSE); simpl.
        -- rewrite Hc. repeat split.
        -- rewrite Disconnect_unfold. simpl. rewrite Hc. repeat split.
Qed.

Lemma authenticate_reply_witness :
  fst (Connection.authenticate (session "" "secret" 3 (bs "-ERR invalid password" ++ CRLF)))
  = Done (Some (errors_New "invalid authentication response")) /\
  Connection.connection (Connection.this
    (snd (Connection.authenticate
            (session "" "secret" 3 (bs "-ERR invalid password" ++ CRLF))))) = None /\
  Connection.Reader (Connection.this
    (snd (Connection.authenticate
            (session "" "secret" 3 (bs "-ERR invalid password" ++ CRLF))))) = None /\
  Connection.Writer (Connection.this
    (snd (Connection.authenticate
            (session "" "secret" 3 (bs "-ERR invalid password" ++ CRLF))))) = None /\
  Connection.DatabaseId (Connection.this
    (snd (Connection.authenticate
            (session "" "secret" 3 (bs "-ERR invalid password" ++ CRLF))))) = 0 /\
  Connection.trace
    (snd (Connection.authenticate
            (session "" "secret" 3 (bs "-ERR invalid password" ++ CRLF))))
  = [] ++ [Connection.socket_Close 7; Connection.graphite_Increment "disconnect"].
Proof.
  exact (authenticate_reply
           (session "" "secret" 3 (bs "-ERR invalid password" ++ CRLF)) 7
           (buf_reader (bs "-ERR invalid password" ++ CRLF))
           eq_refl eq_refl eq_refl).
Defined.

(** X14.  The verdict of [CheckConnection], on any connection.  When
    it returns [false] the connection has no socket afterwards.  When
    it returns [true] the socket, the recorded database and the
    effects so far are as before.  On a connection with a socket,
    once the ping has been written, it returns [true] exactly when
    the reply is the whole line [+PONG]. *)
Theorem CheckConnection_verdict (w : Connection.World) :
  (fst (Connection.CheckConnection w) = Done false ->
   Connection.connection (Connection.this (snd (Connection.CheckConnection w)))
   = None) /\
  (fst (Connection.CheckConnection w) = Done true ->
   Connection.connection (Connection.this (snd (Connection.CheckConnection w)))
   = Connection.connection (Connection.this w) /\
   Connection.connection (Connection.this w) <> None /\
   Connection.DatabaseId (Connection.this (snd (Connection.CheckConnection w)))
   = Connection.DatabaseId (Connection.this w) /\
   Connection.trace (snd (Connection.CheckConnection w)) = Connection.trace w) /\
  (forall (socket : Z) (rd : Bufio.Reader),
      Connection.connection (Connection.this w) = Some socket ->
      Connection.Reader (Connection.this w) = Some rd ->
      fst (Connection.WriteLine SHORT_PING_COMMAND true w) = Done None ->
      let '(line, isPrefix, err, _) := Bufio.ReadLine rd in
      fst (Connection.CheckConnection w) = Done (ponged line isPrefix err)).
Proof.
  destruct w as [c t].
  destruct c as [conn db rd wr p e u pw ct rt wt].
  split; [|split].
  - run_connection. split_matches; simpl; intros H;
      try discriminate H; reflexivity.
  - run_connection. split_matches; simpl; intros H;
      try discriminate H; repeat split; discriminate.
  - simpl. intros socket rd0 -> -> Hw.
    destruct wr as [wr|].
    2:{ revert Hw. cbv [Connection.WriteLine Connection.get bind throw]. simpl.
        discriminate. }
    match type of Hw with
    | fst (Connection.WriteLine _ _ (Connection.mkWorld ?c _)) = _ =>
        destruct (WriteLine_world SHORT_PING_COMMAND true c t wr eq_refl)
          as (e0 & wr' & HW)
    end.
    rewrite HW in Hw. simpl in Hw. injection Hw as ->.
    destruct (Bufio.ReadLine rd0) as [[[line isPrefix] err] rd'] eqn:HRL.
    unfold Connection.CheckConnection.
    cbv [bind Connection.get ret]. simpl.
    rewrite HW.
    rewrite (Reader_ReadLine_world _ t rd0) by reflexivity.
    rewrite HRL. simpl. unfold ponged.
    destruct (Connection.is_nil err && negb isPrefix
              && bytes_Equal line PONG_RESPONSE).
    + reflexivity.
    + rewrite Disconnect_unfold. reflexivity.
Qed.

Lemma CheckConnection_verdict_witness :
  fst (Connection.CheckConnection (connected 3 (bs "+PONG" ++ CRLF)))
  = Done (ponged (bs "+PONG") false None).
Proof.
  exact (proj2 (proj2 (CheckConnection_verdict (connected 3 (bs "+PONG" ++ CRLF))))
           7 (buf_reader (bs "+PONG" ++ CRLF)) eq_refl eq_refl eq_refl).
Defined.

(** X15.  [IsConnected] probes the socket with a read of four bytes.
    Without a socket the answer is [false].  When no byte is waiting
    the answer is [true] if the read's deadline passes and [false] if
    the read fails, and the connection is untouched.  When bytes are
    waiting the answer is [true] and between one and four of them
    have been taken off the socket: they are missing from what the
    connection's reader will see, and nothing else has changed. *)
Theorem IsConnected_probe (w : Connection.World) (quiet : Connection.quiet_socket) :
  (Connection.connection (Connection.this w) = None ->
   Connection.IsConnected quiet w = (Done false, w)) /\
  (forall (socket : Z) (r : Bufio.Reader),
      Connection.connection (Connection.this w) = Some socket ->
      Connection.Reader (Connection.this w) = Some r ->
      Bufio.pending r = [] ->
      Connection.IsConnected quiet w
      = (Done (match quiet with
               | Connection.deadline_passes => true
               | Connection.read_fails => false
               end), w)) /\
  (forall (socket : Z) (r : Bufio.Reader),
      Connection.connection (Connection.this w) = Some socket ->
      Connection.Reader (Connection.this w) = Some r ->
      Bufio.pending r <> [] ->
      fst (Connection.IsConnected quiet w) = Done true /\
      exists (taken : list byte) (r' : Bufio.Reader),
        Connection.this (snd (Connection.IsConnected quiet w))
        = Connection.set_Reader (Some r') (Connection.this w) /\
        Connection.trace (snd (Connection.IsConnected quiet w))
        = Connection.trace w /\
        1 <= len taken <= 4 /\
        Bufio.buffered r' = Bufio.buffered r /\
        stream r = Bufio.buffered r ++ taken
                   ++ concat (map Bufio.chunk_bytes (Bufio.pending r'))).
Proof.
  destruct w as [c t]. simpl. split; [|split].
  - intros Hc. cbv [Connection.IsConnected bind Connection.get ret]. simpl.
    rewrite Hc. reflexivity.
  - intros socket r Hc Hr Hp.
    cbv [Connection.IsConnected bind Connection.get ret]. simpl.
    rewrite Hc, Hr, Hp. reflexivity.
  - intros socket r Hc Hr Hp.
    cbv [Connection.IsConnected bind Connection.get ret Connection.modify
         Connection.socket_Read]. simpl.
    rewrite Hc, Hr. simpl.
    pose proof (src_Read_stream 4 r) as HS.
    destruct (Bufio.pending r) as [|ch rest] eqn:Hpend; [contradiction|].
    destruct (Bufio.src_Read 4 r) as [[got err] r1].
    destruct HS as (Hs & Hb & He & Hl & Hc' & Hgot). simpl.
    split; [reflexivity|].
    exists got. eexists. split; [reflexivity|]. split; [reflexivity|].
    simpl. split.
    + specialize (Hgot ltac:(lia)). destruct got; [contradiction|].
      rewrite len_cons in *. pose proof (len_nonneg got). lia.
    + split; [reflexivity|]. unfold stream. rewrite Hpend, Hs. reflexivity.
Qed.

Lemma IsConnected_probe_witness :
  fst (Connection.IsConnected Connection.deadline_passes
         (Connection.mkWorld
            (Connection.set_Reader
               (Some (net_reader [] ("+"%byte, bs "PONG" ++ CRLF)))
               (Connection.this (connected 0 [])))
            [])) = Done true /\
  exists (taken : list byte) (r' : Bufio.Reader),
    Connection.this
      (snd (Connection.IsConnected Connection.deadline_passes
              (Connection.mkWorld
                 (Connection.set_Reader
                    (Some (net_reader [] ("+"%byte, bs "PONG" ++ CRLF)))
                    (Connection.this (connected 0 [])))
                 [])))
    = Connection.set_Reader (Some r')
        (Connection.set_Reader
           (Some (net_reader [] ("+"%byte, bs "PONG" ++ CRLF)))
           (Connection.this (connected 0 []))) /\
    Connection.trace
      (snd (Connection.IsConnected Connection.deadline_passes
              (Connection.mkWorld
                 (Connection.set_Reader
                    (Some (net_reader [] ("+"%byte, bs "PONG" ++ CRLF)))
                    (Connection.this (connected 0 [])))
                 []))) = [] /\
    1 <= len taken <= 4 /\
    Bufio.buffered r' = [] /\
    bs "+PONG" ++ CRLF
    = [] ++ taken ++ concat (map Bufio.chunk_bytes (Bufio.pending r')).
Proof.
  apply (proj2 (proj2 (IsConnected_probe
           (Connection.mkWorld
              (Connection.set_Reader
                 (Some (net_reader [] ("+"%byte, bs "PONG" ++ CRLF)))
                 (Connection.this (connected 0 [])))
              [])
           Connection.deadline_passes))
           7 (net_reader [] ("+"%byte, bs "PONG" ++ CRLF))).
  - reflexivity.
  - reflexivity.
  - discriminate.
Defined.

(** X16.  [ReconnectIfNecessary].  When the probe answers [true] it
    does nothing more: no dial, no authentication, and it returns no
    error.  When the probe answers [false], which leaves the
    connection as it was, it disconnects and dials.
    - A dial error is returned with the connection torn down.
    - A new socket comes with a fresh reader and writer, and
      [authenticate] is run on them: the result is that of
      [authenticate] on the world [dialled]; when no password is
      configured it is no error.
    In both cases the old socket, if there was one, has been closed
    and the disconnect counted, once.  Whenever it has dialled and
    returns, the recorded database is 0, whatever it was before. *)
Theorem ReconnectIfNecessary_dials
    (w : Connection.World) (quiet : Connection.quiet_socket)
    (dial : Connection.dial_result) :
  (fst (Connection.IsConnected quiet w) = Done true ->
   Connection.ReconnectIfNecessary quiet dial w
   = (Done None, snd (Connection.IsConnected quiet w))) /\
  (fst (Connection.IsConnected quiet w) = Done false ->
   snd (Connection.IsConnected quiet w) = w /\
   (forall a, fst (Connection.ReconnectIfNecessary quiet dial w) = Done a ->
      Connection.DatabaseId
        (Connection.this (snd (Connection.ReconnectIfNecessary quiet dial w)))
      = 0) /\
   (forall e, dial = Connection.dial_error e ->
      fst (Connection.ReconnectIfNecessary quiet dial w) = Done (Some e) /\
      torn_down
        (Connection.this (snd (Connection.ReconnectIfNecessary quiet dial w))) /\
      Connection.trace (snd (Connection.ReconnectIfNecessary quiet dial w))
      = Connection.trace w ++ closing (Connection.this w)) /\
   (forall socket incoming refuses,
      dial = Connection.dial_socket socket incoming refuses ->
      Connection.ReconnectIfNecessary quiet dial w
      = Connection.authenticate (dialled socket incoming refuses w)) /\
   (forall socket incoming refuses,
      dial = Connection.dial_socket socket incoming refuses ->
      Connection.authPassword (Connection.this w) = ""%string ->
      fst (Connection.ReconnectIfNecessary quiet dial w) = Done None /\
      Connection.connection
        (Connection.this (snd (Connection.ReconnectIfNecessary quiet dial w)))
      = Some socket /\
      Connection.Reader
        (Connection.this (snd (Connection.ReconnectIfNecessary quiet dial w)))
      = Some (Bufio.mkReader [] incoming 0 0 None) /\
      Connection.Writer
        (Connection.this (snd (Connection.ReconnectIfNecessary quiet dial w)))
      = Some (Bufio.mkWriter [] [] None refuses) /\
      Connection.trace (snd (Connection.ReconnectIfNecessary quiet dial w))
      = Connection.trace w ++ closing (Connection.this w))).
Proof.
  split.
  - intros H. unfold Connection.ReconnectIfNecessary, bind.
    destruct (Connection.IsConnected quiet w) as [[b|p] w'].
    + simpl in H. injection H as Hb. subst b. reflexivity.
    + discriminate H.
  - intros H.
    assert (Hsame : snd (Connection.IsConnected quiet w) = w).
    { revert H. destruct w as [c t]. run_connection.
      split_matches; intros H; try discriminate H; reflexivity. }
    split; [exact Hsame|].
    unfold Connection.ReconnectIfNecessary, bind.
    destruct (Connection.IsConnected quiet w) as [[b|p] w'] eqn:HI;
      [|discriminate H].
    simpl in H. injection H as Hb. subst b.
    simpl in Hsame. subst w'. clear HI.
    destruct w as [c t].
    destruct c as [conn db rd wr p e u pw ct rt wt].
    unfold dialled, closing. cbn [Connection.this Connection.trace
      Connection.connection Connection.protocol Connection.endpoint
      Connection.authUser Connection.authPassword Connection.connectTimeout
      Connection.readTimeout Connection.writeTimeout].
    split; [|split; [|split]].
    + intros a. destruct dial as [e0 | s inc refuses]; run_connection.
      * split_matches; reflexivity.
      * split_matches; intros Ha; try discriminate Ha; reflexivity.
    + intros e0 ->. run_connection. unfold torn_down.
      split_matches; repeat split;
        simpl; rewrite <- ?app_assoc, ?app_nil_r; reflexivity.
    + intros s inc refuses ->. run_connection.
      destruct conn; simpl; rewrite <- ?app_assoc, ?app_nil_r; reflexivity.
    + intros s inc refuses -> Hnone. simpl in Hnone. subst pw.
      run_connection.
      split_matches; repeat split;
        simpl; rewrite <- ?app_assoc, ?app_nil_r; reflexivity.
Qed.

Lemma ReconnectIfNecessary_dials_witness :
  fst (Connection.ReconnectIfNecessary Connection.read_fails
         (Connection.dial_socket 9 [] None) (connected 3 [])) = Done None /\
  Connection.connection (Connection.this
    (snd (Connection.ReconnectIfNecessary Connection.read_fails
            (Connection.dial_socket 9 [] None) (connected 3 [])))) = Some 9 /\
  Connection.Reader (Connection.this
    (snd (Connection.ReconnectIfNecessary Connection.read_fails
            (Connection.dial_socket 9 [] None) (connected 3 []))))
  = Some (Bufio.mkReader [] [] 0 0 None) /\
  Connection.Writer (Connection.this
    (snd (Connection.ReconnectIfNecessary Connection.read_fails
            (Connection.dial_socket 9 [] None) (connected 3 []))))
  = Some (Bufio.mkWriter [] [] None None) /\
  Connection.trace
    (snd (Connection.ReconnectIfNecessary Connection.read_fails
            (Connection.dial_socket 9 [] None) (connected 3 [])))
  = Connection.trace (connected 3 []) ++ closing (Connection.this (connected 3 [])).
Proof.
  apply (proj2 (proj2 (proj2 (proj2
           (proj2 (ReconnectIfNecessary_dials (connected 3 [])
                     Connection.read_fails (Connection.dial_socket 9 [] None))
              eq_refl))))
           9 [] None eq_refl eq_refl).
Defined.

(** X17.  The connection is either torn down (no socket, no reader,
    no writer, database 0) or live (socket, reader and writer all
    present).  A new connection is torn down, and every operation
    started on a connection in one of the two states ends normally,
    without a nil dereference, on a connection in one of the two
    states. *)
Theorem connection_stays_consistent :
  (forall Protocol Endpoint ConnectTimeout ReadTimeout WriteTimeout user password,
      torn_down (Connection.NewConnection Protocol Endpoint ConnectTimeout
                   ReadTimeout WriteTimeout user password)) /\
  keeps_consistent Connection.Disconnect /\
  (forall id, keeps_consistent (Connection.SelectDatabase id)) /\
  keeps_consistent Connection.authenticate /\
  keeps_consistent Connection.CheckConnection /\
  (forall quiet, keeps_consistent (Connection.IsConnected quiet)) /\
  (forall quiet dial, keeps_consistent (Connection.ReconnectIfNecessary quiet dial)).
Proof.
  split; [intros; repeat split|].
  split; [exact Disconnect_keeps_consistent|].
  split; [exact SelectDatabase_keeps_consistent|].
  split; [exact authenticate_keeps_consistent|].
  split; [exact CheckConnection_keeps_consistent|].
  split; [exact IsConnected_keeps_consistent|].
  exact ReconnectIfNecessary_keeps_consistent.
Qed.

Lemma connection_stays_consistent_witness :
  (exists a, fst (Connection.SelectDatabase 5 (connected 3 (bs "-ERR" ++ CRLF)))
             = Done a) /\
  consistent (Connection.this
    (snd (Connection.SelectDatabase 5 (connected 3 (bs "-ERR" ++ CRLF))))).
Proof.
  apply (proj1 (proj2 (proj2 connection_stays_consistent)) 5
           (connected 3 (bs "-ERR" ++ CRLF))).
  right. repeat split; discriminate.
Defined.

(** ** The line writer *)

Lemma Write_fits (p : list byte) (w : Bufio.Writer) :
  Bufio.werr w = None -> len p <= Bufio.Available w ->
  Bufio.Write p w = (None, Bufio.buffer_bytes p w).
Proof.
  intros He Hfit. unfold Bufio.Write. simpl. rewrite He.
  replace (len p <=? Bufio.Available w) with true
    by (symmetry; apply Z.leb_le; exact Hfit).
  reflexivity.
Qed.

(** X18.  On a destination that accepts writes, [FlushLine] has the
    line and CR LF, and whatever was buffered before them, delivered
    when it returns, and nothing is left in the buffer; [writeLine]
    alone adds the line and CR LF to the output and, when they fit
    the buffer, delivers nothing yet.  Neither touches the source. *)
Theorem FlushLine_delivers (s : Bufio.Streams) (line : list byte) :
  healthy (Bufio.destination s) ->
  (fst (Protocol.FlushLine line s) = Done None /\
   Bufio.sent (Bufio.destination (snd (Protocol.FlushLine line s)))
   = Bufio.output (Bufio.destination s) ++ line ++ CRLF /\
   Bufio.wbuf (Bufio.destination (snd (Protocol.FlushLine line s))) = [] /\
   Bufio.source (snd (Protocol.FlushLine line s)) = Bufio.source s) /\
  (fst (Protocol.writeLine line s) = Done None /\
   Bufio.output (Bufio.destination (snd (Protocol.writeLine line s)))
   = Bufio.output (Bufio.destination s) ++ line ++ CRLF /\
   Bufio.source (snd (Protocol.writeLine line s)) = Bufio.source s) /\
  (len (Bufio.wbuf (Bufio.destination s)) + len line + 2 <= Bufio.defaultBufSize ->
   Bufio.sent (Bufio.destination (snd (Protocol.writeLine line s)))
   = Bufio.sent (Bufio.destination s) /\
   Bufio.wbuf (Bufio.destination (snd (Protocol.writeLine line s)))
   = Bufio.wbuf (Bufio.destination s) ++ line ++ CRLF).
Proof.
  intros Hw.
  destruct (writeLine_healthy line s Hw) as (w1 & H1 & Hw1 & Ho1).
  split; [|split].
  - unfold Protocol.FlushLine. rewrite (bind_step _ _ _ _ _ H1). cbv beta iota.
    destruct (destination_Flush_healthy (Bufio.mkStreams (Bufio.source s) w1) Hw1)
      as (w2 & H2 & Hw2 & Hb2 & Hs2).
    rewrite H2. simpl. repeat split; try assumption.
    rewrite Hs2. exact Ho1.
  - rewrite H1. simpl. repeat split. exact Ho1.
  - intros Hfit. destruct Hw as [He Hs].
    unfold Protocol.writeLine, bind, Protocol.destination_Write.
    rewrite (Write_fits line (Bufio.destination s) He)
      by (unfold Bufio.Available; lia).
    cbv beta iota.
    assert (Hroom : len REDIS_NEWLINE
                    <= Bufio.Available
                         (Bufio.buffer_bytes line (Bufio.destination s))).
    { unfold Bufio.Available, Bufio.buffer_bytes. simpl Bufio.wbuf.
      rewrite len_app. change (len REDIS_NEWLINE) with 2. lia. }
    cbn [Bufio.source Bufio.destination].
    rewrite (Write_fits REDIS_NEWLINE
               (Bufio.buffer_bytes line (Bufio.destination s)) He Hroom).
    simpl. split; [reflexivity|]. now rewrite <- app_assoc.
Qed.

Lemma FlushLine_delivers_witness :
  fst (Protocol.FlushLine (bs "PING") (copying [])) = Done None /\
  Bufio.sent (Bufio.destination (snd (Protocol.FlushLine (bs "PING") (copying []))))
  = Bufio.output empty_writer ++ bs "PING" ++ CRLF /\
  Bufio.wbuf (Bufio.destination (snd (Protocol.FlushLine (bs "PING") (copying []))))
  = [] /\
  Bufio.source (snd (Protocol.FlushLine (bs "PING") (copying [])))
  = Bufio.source (copying []).
Proof.
  apply (proj1 (FlushLine_delivers (copying []) (bs "PING")
                  (conj eq_refl eq_refl))).
Defined.

Lemma Write_refused (p : list byte) (w : Bufio.Writer) (e : error) :
  Bufio.werr w = None -> Bufio.sink_err w = Some e ->
  Bufio.Write p w = (None, Bufio.buffer_bytes p w) \/
  exists w', Bufio.Write p w = (Some e, w') /\ Bufio.werr w' = Some e /\
             Bufio.sent w' = Bufio.sent w.
Proof.
  intros He Hs. unfold Bufio.Write. simpl. rewrite He.
  destruct (len p <=? Bufio.Available w); [left; reflexivity|].
  right. destruct (Bufio.wbuf w) as [|x l] eqn:Hb.
  - unfold Bufio.sink_Write. rewrite Hs. eexists. repeat split.
  - unfold Bufio.Flush, Bufio.buffer_bytes, Bufio.sink_Write. simpl.
    rewrite He, Hb, Hs. simpl. eexists. repeat split.
Qed.

Lemma Write_after_error (p : list byte) (w : Bufio.Writer) (e : error) :
  Bufio.werr w = Some e -> Bufio.Write p w = (Some e, w).
Proof. intros He. unfold Bufio.Write. simpl. rewrite He. reflexivity. Qed.

Lemma writeLine_after_error (line : list byte) (s : Bufio.Streams) (e : error) :
  Bufio.werr (Bufio.destination s) = Some e ->
  Protocol.writeLine line s = (Done (Some e), s).
Proof.
  intros He. unfold Protocol.writeLine, bind, Protocol.destination_Write.
  rewrite (Write_after_error line _ e He). destruct s. reflexivity.
Qed.

(** X19.  When the destination refuses writes, [FlushLine] returns
    the destination's own error, nothing has been delivered, and the
    writer keeps the error: every later [writeLine] and [FlushLine]
    returns it at once and changes nothing. *)
Theorem FlushLine_refused (s : Bufio.Streams) (line : list byte) (e : error) :
  Bufio.werr (Bufio.destination s) = None ->
  Bufio.sink_err (Bufio.destination s) = Some e ->
  fst (Protocol.FlushLine line s) = Done (Some e) /\
  Bufio.sent (Bufio.destination (snd (Protocol.FlushLine line s)))
  = Bufio.sent (Bufio.destination s) /\
  forall line',
    Protocol.writeLine line' (snd (Protocol.FlushLine line s))
    = (Done (Some e), snd (Protocol.FlushLine line s)) /\
    Protocol.FlushLine line' (snd (Protocol.FlushLine line s))
    = (Done (Some e), snd (Protocol.FlushLine line s)).
Proof.
  intros He Hs.
  assert (Hkey : exists s',
    Protocol.FlushLine line s = (Done (Some e), s') /\
    Bufio.werr (Bufio.destination s') = Some e /\
    Bufio.sent (Bufio.destination s') = Bufio.sent (Bufio.destination s)).
  { unfold Protocol.FlushLine, Protocol.writeLine, bind,
      Protocol.destination_Write, Protocol.destination_Flush.
    destruct (Write_refused line _ e He Hs) as [H1 | (w1 & H1 & He1 & Hs1)];
      rewrite H1; cbv beta iota.
    2:{ eexists. split; [reflexivity|]. split; assumption. }
    destruct (Write_refused REDIS_NEWLINE
                (Bufio.buffer_bytes line (Bufio.destination s)) e He Hs)
      as [H2 | (w2 & H2 & He2 & Hs2)]; simpl Bufio.source;
      simpl Bufio.destination; rewrite H2; cbv beta iota.
    2:{ eexists. split; [reflexivity|]. split; assumption. }
    unfold Bufio.Flush, Bufio.buffer_bytes, Bufio.sink_Write. simpl.
    rewrite He, Hs.
    destruct ((Bufio.wbuf (Bufio.destination s) ++ line) ++ REDIS_NEWLINE)
      as [|x l] eqn:Hb.
    - destruct (Bufio.wbuf (Bufio.destination s) ++ line); discriminate Hb.
    - eexists. split; [reflexivity|]. split; reflexivity. }
  destruct Hkey as (s' & H & He' & Hs').
  rewrite H. simpl. split; [reflexivity|]. split; [exact Hs'|].
  intros line'. split.
  - apply writeLine_after_error, He'.
  - unfold Protocol.FlushLine.
    rewrite (bind_step _ _ _ _ _ (writeLine_after_error line' s' e He')).
    reflexivity.
Qed.

Lemma FlushLine_refused_witness :
  fst (Protocol.FlushLine (bs "PING")
         (Bufio.mkStreams (buf_reader [])
            (Bufio.mkWriter [] [] None (Some io_ErrShortWrite))))
  = Done (Some io_ErrShortWrite) /\
  Bufio.sent (Bufio.destination
    (snd (Protocol.FlushLine (bs "PING")
            (Bufio.mkStreams (buf_reader [])
               (Bufio.mkWriter [] [] None (Some io_ErrShortWrite))))))
  = [] /\
  forall line',
    Protocol.writeLine line'
      (snd (Protocol.FlushLine (bs "PING")
              (Bufio.mkStreams (buf_reader [])
                 (Bufio.mkWriter [] [] None (Some io_ErrShortWrite)))))
    = (Done (Some io_ErrShortWrite),
       snd (Protocol.FlushLine (bs "PING")
              (Bufio.mkStreams (buf_reader [])
                 (Bufio.mkWriter [] [] None (Some io_ErrShortWrite))))) /\
    Protocol.FlushLine line'
      (snd (Protocol.FlushLine (bs "PING")
              (Bufio.mkStreams (buf_reader [])
                 (Bufio.mkWriter [] [] None (Some io_ErrShortWrite)))))
    = (Done (Some io_ErrShortWrite),
       snd (Protocol.FlushLine (bs "PING")
              (Bufio.mkStreams (buf_reader [])
                 (Bufio.mkWriter [] [] None (Some io_ErrShortWrite))))).
Proof.
  apply (FlushLine_refused
           (Bufio.mkStreams (buf_reader [])
              (Bufio.mkWriter [] [] None (Some io_ErrShortWrite)))
           (bs "PING") io_ErrShortWrite eq_refl eq_refl).
Defined.

(** X20.  What [SelectDatabase] does before any reply.  Without a
    socket it returns its error and touches nothing.  When the write
    of the command fails it returns the write's error as it is and
    does not disconnect: socket, recorded database and effects are
    as before. *)
Theorem SelectDatabase_before_reply (w : Connection.World) (id : Z) :
  (Connection.connection (Connection.this w) = None ->
   Connection.SelectDatabase id w
   = (Done (Some (errors_New "Selecting database on an invalid connection")), w)) /\
  (forall e : error,
      Connection.connection (Connection.this w) <> None ->
      fst (Connection.WriteLine (Connection.select_command id) true w)
      = Done (Some e) ->
      fst (Connection.SelectDatabase id w) = Done (Some e) /\
      Connection.connection (Connection.this (snd (Connection.SelectDatabase id w)))
      = Connection.connection (Connection.this w) /\
      Connection.DatabaseId (Connection.this (snd (Connection.SelectDatabase id w)))
      = Connection.DatabaseId (Connection.this w) /\
      Connection.trace (snd (Connection.SelectDatabase id w)) = Connection.trace w).
Proof.
  destruct w as [c t]. simpl. split.
  - intros Hc. unfold Connection.SelectDatabase.
    cbv [bind Connection.get ret]. simpl. rewrite Hc. reflexivity.
  - intros e Hc Hw.
    destruct (Connection.connection c) as [s|] eqn:Hconn; [|contradiction].
    destruct (Connection.Writer c) as [wr|] eqn:Hwr.
    2:{ revert Hw. cbv [Connection.WriteLine Connection.get bind throw]. simpl.
        rewrite Hwr. discriminate. }
    destruct (WriteLine_world (Connection.select_command id) true c t wr Hwr)
      as (e0 & wr' & HW).
    rewrite HW in Hw. simpl in Hw. injection Hw as He0. subst e0.
    unfold Connection.SelectDatabase.
    cbv [bind Connection.get ret]. simpl. rewrite Hconn. simpl.
    rewrite HW. simpl. rewrite Hconn. repeat split.
Qed.

Lemma SelectDatabase_before_reply_witness :
  fst (Connection.SelectDatabase 5
         (Connection.mkWorld
            (Connection.set_Writer
               (Some (Bufio.mkWriter [] [] None (Some io_ErrShortWrite)))
               (Connection.this (connected 3 [])))
            []))
  = Done (Some io_ErrShortWrite) /\
  Connection.connection (Connection.this
    (snd (Connection.SelectDatabase 5
            (Connection.mkWorld
               (Connection.set_Writer
                  (Some (Bufio.mkWriter [] [] None (Some io_ErrShortWrite)))
                  (Connection.this (connected 3 [])))
               [])))) = Some 7 /\
  Connection.DatabaseId (Connection.this
    (snd (Connection.SelectDatabase 5
            (Connection.mkWorld
               (Connection.set_Writer
                  (Some (Bufio.mkWriter [] [] None (Some io_ErrShortWrite)))
                  (Connection.this (connected 3 [])))
               [])))) = 3 /\
  Connection.trace
    (snd (Connection.SelectDatabase 5
            (Connection.mkWorld
               (Connection.set_Writer
                  (Some (Bufio.mkWriter [] [] None (Some io_ErrShortWrite)))
                  (Connection.this (connected 3 [])))
               []))) = [].
Proof.
  apply (proj2 (SelectDatabase_before_reply
                  (Connection.mkWorld
                     (Connection.set_Writer
                        (Some (Bufio.mkWriter [] [] None (Some io_ErrShortWrite)))
                        (Connection.this (connected 3 [])))
                     []) 5) io_ErrShortWrite).
  - discriminate.
  - reflexivity.
Defined.

(** ** Payloads cut short and lengths that wrap *)

Lemma ReadFrom_loop_short (fuel : nat) :
  forall (left n : Z) (s : Bufio.Streams) (data : list byte),
    Bufio.rerr (Bufio.source s) = None ->
    healthy (Bufio.destination s) ->
    stream (Bufio.source s) = data ->
    len data < left ->
    len data < Z.of_nat fuel ->
    exists s',
      Protocol.ReadFrom_loop fuel left n s
      = (Done (n + len data, None), s') /\
      healthy (Bufio.destination s') /\
      Bufio.output (Bufio.destination s')
      = Bufio.output (Bufio.destination s) ++ data.
Proof.
  induction fuel as [|fuel IH]; intros left n s data Herr Hw Hs Hlen Hfuel.
  - pose proof (len_nonneg data). lia.
  - cbn [Protocol.ReadFrom_loop].
    destruct (flush_if_full_healthy s Hw) as (w1 & HF & Hw1 & Ho1 & Hroom).
    rewrite (bind_step _ _ _ _ _ HF). cbv beta iota.
    rewrite bind_destination_Available. cbn [Bufio.source Bufio.destination].
    assert (Hle : (left <=? 0) = false)
      by (apply Z.leb_gt; pose proof (len_nonneg data); lia).
    set (k := Z.min (Bufio.Available w1) left).
    assert (Hk : 0 < k).
    { unfold k. pose proof (len_nonneg data). lia. }
    pose proof (Read_stream k (Bufio.source s) Herr Hk) as HR.
    destruct (Bufio.Read k (Bufio.source s)) as [[got err] r1] eqn:HRead.
    destruct HR as (Hsplit & Herr1 & Hgot & Hcase).
    erewrite bind_on_source
      by (unfold Protocol.limited_Read, Protocol.source_Read_bytes;
          cbn [Bufio.source]; rewrite Hle; fold k; rewrite HRead; reflexivity).
    cbv beta iota. rewrite bind_destination_store. cbv beta iota.
    cbn [Bufio.source Bufio.destination].
    destruct Hcase as [[-> Hne] | (-> & -> & Hnil)].
    + destruct (buffer_bytes_healthy got w1 Hw1) as [Hw2 Ho2].
      assert (Hpos : 1 <= len got).
      { destruct got; [contradiction|]. rewrite len_cons.
        pose proof (len_nonneg got). lia. }
      rewrite Hs in Hsplit.
      destruct (IH (left - len got) (n + len got)
                   (Bufio.mkStreams r1 (Bufio.buffer_bytes got w1)) (stream r1))
        as (s' & HC & Hw' & Hout'); try assumption; try reflexivity.
      * rewrite Hsplit, len_app in Hlen. lia.
      * rewrite Hsplit, len_app in Hfuel. lia.
      * exists s'. rewrite HC. split.
        { f_equal. f_equal. f_equal. rewrite Hsplit, len_app. lia. }
        split; [exact Hw'|].
        rewrite Hout'. cbn [Bufio.source Bufio.destination].
        rewrite Ho2, Ho1, Hsplit. now rewrite app_assoc.
    + destruct (ReadFrom_end (n + len (@nil byte)) r1 w1 Hw1)
        as (w' & HE & Hw' & Ho').
      rewrite HE. subst data. rewrite Hnil.
      eexists. split; [reflexivity|].
      cbn [Bufio.source Bufio.destination]. split; [exact Hw'|].
      rewrite Ho', Ho1. now rewrite app_nil_r.
Qed.

Lemma ReadFrom_short (left : Z) (s : Bufio.Streams) (data : list byte) :
  Bufio.rerr (Bufio.source s) = None ->
  healthy (Bufio.destination s) ->
  stream (Bufio.source s) = data ->
  len data < left ->
  exists s',
    Protocol.ReadFrom left s = (Done (len data, None), s') /\
    healthy (Bufio.destination s') /\
    Bufio.output (Bufio.destination s')
    = Bufio.output (Bufio.destination s) ++ data.
Proof.
  intros Herr Hw Hs Hlen.
  destruct (ReadFrom_loop_short (S (Z.to_nat left)) left 0 s data
              Herr Hw Hs Hlen)
    as (s' & HC & H); [lia|].
  exists s'. split; [|exact H].
  unfold Protocol.ReadFrom. rewrite (proj1 Hw), HC, Z.add_0_l. reflexivity.
Qed.

(** Nothing to copy: the limited reader ends the copy at once. *)
Lemma ReadFrom_nothing (left : Z) (s : Bufio.Streams) :
  healthy (Bufio.destination s) ->
  left <= 0 ->
  exists w',
    Protocol.ReadFrom left s
    = (Done (0, None), Bufio.mkStreams (Bufio.source s) w') /\
    healthy w' /\
    Bufio.output w' = Bufio.output (Bufio.destination s).
Proof.
  intros Hw Hleft. unfold Protocol.ReadFrom. rewrite (proj1 Hw).
  replace (Z.to_nat left) with 0%nat by lia.
  cbn [Protocol.ReadFrom_loop].
  destruct (flush_if_full_healthy s Hw) as (w1 & HF & Hw1 & Ho1 & Hroom).
  rewrite (bind_step _ _ _ _ _ HF). cbv beta iota.
  rewrite bind_destination_Available. cbn [Bufio.source Bufio.destination].
  erewrite bind_on_source
    by (unfold Protocol.limited_Read; cbn [Bufio.source];
        rewrite (proj2 (Z.leb_le _ _) Hleft); reflexivity).
  cbv beta iota. rewrite bind_destination_store. cbv beta iota.
  cbn [Bufio.source Bufio.destination].
  destruct (ReadFrom_end (0 + len (@nil byte)) (Bufio.source s) w1 Hw1)
    as (w' & HE & Hw' & Ho').
  rewrite HE. exists w'. split; [reflexivity|]. split; [exact Hw'|].
  rewrite Ho'. exact Ho1.
Qed.

(** X21.  A bulk payload cut short by the end of the source is not a
    format error: [copyBulkMessage] returns [io.EOF], the error of
    the copy, after it has forwarded the header line and the bytes
    that did arrive. *)
Theorem copyBulkMessage_cut_short
    (s : Bufio.Streams) (d : byte) (ds arrived : list byte) :
  Bufio.rerr (Bufio.source s) = None ->
  healthy (Bufio.destination s) ->
  forallb is_digit (d :: ds) = true ->
  decimal_value (d :: ds) <= int_max ->
  stream (Bufio.source s) = arrived ->
  len arrived < decimal_value (d :: ds) ->
  fst (Protocol.copyBulkMessage ("$"%byte :: d :: ds) s) = Done (Some io_EOF) /\
  Bufio.output (Bufio.destination
    (snd (Protocol.copyBulkMessage ("$"%byte :: d :: ds) s)))
  = Bufio.output (Bufio.destination s)
    ++ ("$"%byte :: d :: ds) ++ CRLF ++ arrived.
Proof.
  intros Herr Hw Hds Hfit Hs Hshort.
  unfold Protocol.copyBulkMessage.
  rewrite bad_first_line_sigil, bind_ret. cbv iota.
  rewrite digit_header_not_null
    by (simpl in Hds; apply andb_prop in Hds; tauto).
  rewrite slice_from_tail, bind_ret.
  rewrite (ParseInt_exact (d :: ds) Hds Hfit).
  set (n := decimal_value (d :: ds)) in *.
  destruct (writeLine_healthy ("$"%byte :: d :: ds) s Hw) as (w1 & H1 & Hw1 & Ho1).
  rewrite (bind_step _ _ _ _ _ H1). cbv beta iota.
  destruct (ReadFrom_short n
              (Bufio.mkStreams (Bufio.source s) w1) arrived Herr Hw1 Hs Hshort)
    as (s2 & H2 & Hw2 & Ho2).
  assert (H3 : Protocol.io_CopyN n (Bufio.mkStreams (Bufio.source s) w1)
               = (Done (len arrived, Some io_EOF), s2)).
  { unfold Protocol.io_CopyN. rewrite (bind_step _ _ _ _ _ H2).
    replace (len arrived =? n) with false by (symmetry; apply Z.eqb_neq; lia).
    replace (len arrived <? n) with true by (symmetry; apply Z.ltb_lt; lia).
    reflexivity. }
  rewrite (bind_step _ _ _ _ _ H3).
  simpl. split; [reflexivity|].
  rewrite Ho2. simpl Bufio.destination. rewrite Ho1, <- !app_assoc. reflexivity.
Qed.

Lemma copyBulkMessage_cut_short_witness :
  fst (Protocol.copyBulkMessage (bs "$10") (copying (bs "foo"))) = Done (Some io_EOF) /\
  Bufio.output (Bufio.destination
    (snd (Protocol.copyBulkMessage (bs "$10") (copying (bs "foo")))))
  = Bufio.output empty_writer ++ bs "$10" ++ CRLF ++ bs "foo".
Proof.
  apply (copyBulkMessage_cut_short (copying (bs "foo")) "1"%byte (bs "0") (bs "foo")).
  - reflexivity.
  - split; reflexivity.
  - reflexivity.
  - vm_compute. congruence.
  - reflexivity.
  - vm_compute. reflexivity.
Defined.

(** X22.  A length that wraps below zero is taken as it is.  When the
    digits of a bulk header read as a negative [int],
    [copyBulkMessage] forwards the header line, copies nothing, reads
    nothing and returns no error; with such a count
    [CopyMultiBulkMessage] forwards and flushes the header line alone,
    and [IgnoreMultiBulkMessage] returns at once. *)
Theorem negative_length_is_accepted (d : byte) (ds : list byte) :
  forallb is_digit (d :: ds) = true ->
  wrap (decimal_value (d :: ds)) < 0 ->
  (forall s : Bufio.Streams,
      healthy (Bufio.destination s) ->
      fst (Protocol.copyBulkMessage ("$"%byte :: d :: ds) s) = Done None /\
      Bufio.output (Bufio.destination
        (snd (Protocol.copyBulkMessage ("$"%byte :: d :: ds) s)))
      = Bufio.output (Bufio.destination s) ++ ("$"%byte :: d :: ds) ++ CRLF /\
      Bufio.source (snd (Protocol.copyBulkMessage ("$"%byte :: d :: ds) s))
      = Bufio.source s) /\
  (forall s : Bufio.Streams,
      healthy (Bufio.destination s) ->
      fst (Protocol.CopyMultiBulkMessage ("*"%byte :: d :: ds) s) = Done None /\
      Bufio.sent (Bufio.destination
        (snd (Protocol.CopyMultiBulkMessage ("*"%byte :: d :: ds) s)))
      = Bufio.output (Bufio.destination s) ++ ("*"%byte :: d :: ds) ++ CRLF /\
      Bufio.source (snd (Protocol.CopyMultiBulkMessage ("*"%byte :: d :: ds) s))
      = Bufio.source s) /\
  (forall r : Bufio.Reader,
      Protocol.IgnoreMultiBulkMessage ("*"%byte :: d :: ds) r = (Done None, r)).
Proof.
  intros Hds Hneg.
  pose proof (ParseInt_digits (d :: ds) Hds) as HP.
  set (n := wrap (decimal_value (d :: ds))) in *.
  assert (Hn : Z.to_nat n = 0%nat) by lia.
  split; [|split].
  - intros s Hw. unfold Protocol.copyBulkMessage.
    rewrite bad_first_line_sigil, bind_ret. cbv iota.
    rewrite digit_header_not_null
      by (simpl in Hds; apply andb_prop in Hds; tauto).
    rewrite slice_from_tail, bind_ret, HP.
    destruct (writeLine_healthy ("$"%byte :: d :: ds) s Hw) as (w1 & H1 & Hw1 & Ho1).
    rewrite (bind_step _ _ _ _ _ H1). cbv beta iota.
    destruct (ReadFrom_nothing n (Bufio.mkStreams (Bufio.source s) w1) Hw1)
      as (w2 & HR & Hw2 & Ho2); [lia|].
    cbn [Bufio.source Bufio.destination] in HR, Ho2.
    assert (H2 : Protocol.io_CopyN n (Bufio.mkStreams (Bufio.source s) w1)
                 = (Done (0, None), Bufio.mkStreams (Bufio.source s) w2)).
    { unfold Protocol.io_CopyN. rewrite (bind_step _ _ _ _ _ HR).
      replace (0 =? n) with false by (symmetry; apply Z.eqb_neq; lia).
      replace (0 <? n) with false by (symmetry; apply Z.ltb_ge; lia).
      reflexivity. }
    rewrite (bind_step _ _ _ _ _ H2). cbv beta iota.
    replace (0 =? n) with false by (symmetry; apply Z.eqb_neq; lia).
    simpl. repeat split. rewrite Ho2. exact Ho1.
  - intros s Hw. unfold Protocol.CopyMultiBulkMessage.
    rewrite bad_first_line_sigil, bind_ret. cbv iota.
    rewrite slice_from_tail, bind_ret, HP.
    destruct (writeLine_healthy ("*"%byte :: d :: ds) s Hw) as (w1 & H1 & Hw1 & Ho1).
    rewrite (bind_step _ _ _ _ _ H1). cbv beta iota.
    rewrite Hn. simpl Protocol.CopyMultiBulkMessage_loop. rewrite bind_ret.
    destruct (destination_Flush_healthy (Bufio.mkStreams (Bufio.source s) w1) Hw1)
      as (w2 & H2 & Hw2 & Hb2 & Hs2).
    rewrite H2. simpl. repeat split. rewrite Hs2. exact Ho1.
  - intros r. unfold Protocol.IgnoreMultiBulkMessage.
    rewrite bad_first_line_sigil, bind_ret. cbv iota.
    rewrite slice_from_tail, bind_ret, HP, Hn. reflexivity.
Qed.

Lemma negative_length_is_accepted_witness :
  (forall s : Bufio.Streams,
      healthy (Bufio.destination s) ->
      fst (Protocol.copyBulkMessage (bs "$9223372036854775808") s) = Done None /\
      Bufio.output (Bufio.destination
        (snd (Protocol.copyBulkMessage (bs "$9223372036854775808") s)))
      = Bufio.output (Bufio.destination s) ++ bs "$9223372036854775808" ++ CRLF /\
      Bufio.source (snd (Protocol.copyBulkMessage (bs "$9223372036854775808") s))
      = Bufio.source s) /\
  (forall s : Bufio.Streams,
      healthy (Bufio.destination s) ->
      fst (Protocol.CopyMultiBulkMessage (bs "*9223372036854775808") s) = Done None /\
      Bufio.sent (Bufio.destination
        (snd (Protocol.CopyMultiBulkMessage (bs "*9223372036854775808") s)))
      = Bufio.output (Bufio.destination s) ++ bs "*9223372036854775808" ++ CRLF /\
      Bufio.source (snd (Protocol.CopyMultiBulkMessage (bs "*9223372036854775808") s))
      = Bufio.source s) /\
  (forall r : Bufio.Reader,
      Protocol.IgnoreMultiBulkMessage (bs "*9223372036854775808") r = (Done None, r)).
Proof.
  apply (negative_length_is_accepted "9"%byte (bs "223372036854775808")).
  - reflexivity.
  - vm_compute. reflexivity.
Defined.

(** ** [ParseInt] and the decimal notation *)

Lemma bs_String (a : Ascii.ascii) (s : string) :
  bs (String a s) = Ascii.byte_of_ascii a :: bs s.
Proof. reflexivity. Qed.

Lemma bs_app (s t : string) : bs (s ++ t) = bs s ++ bs t.
Proof.
  induction s as [|a s IH]; [reflexivity|].
  cbn [String.append]. rewrite !bs_String, IH. reflexivity.
Qed.

Lemma decimal_of_uint_acc (u : Decimal.uint) (acc : positive) :
  fold_left (fun a b => a * 10 + (byte_val b - 48))
            (bs (NilEmpty.string_of_uint u)) (Z.pos acc)
  = Z.pos (Pos.of_uint_acc u acc) /\
  forallb is_digit (bs (NilEmpty.string_of_uint u)) = true.
Proof.
  revert acc. induction u as [|u IH|u IH|u IH|u IH|u IH|u IH|u IH|u IH|u IH|u IH];
    intros acc; cbn [NilEmpty.string_of_uint Pos.of_uint_acc];
    [split; reflexivity | ..].
  all: rewrite bs_String; cbn [fold_left forallb].
  all: match goal with
       | |- _ = Z.pos (Pos.of_uint_acc _ ?a) /\ _ =>
           destruct (IH a) as [H1 H2]; rewrite <- H1; split;
           [ f_equal | rewrite H2; reflexivity ]
       end.
  all: vm_compute byte_val; lia.
Qed.

Lemma decimal_of_uint (u : Decimal.uint) :
  decimal_value (bs (NilEmpty.string_of_uint u)) = Z.of_N (Pos.of_uint u) /\
  forallb is_digit (bs (NilEmpty.string_of_uint u)) = true.
Proof.
  unfold decimal_value.
  induction u as [|u IH|u IH|u IH|u IH|u IH|u IH|u IH|u IH|u IH|u IH];
    cbn [NilEmpty.string_of_uint Pos.of_uint];
    [split; reflexivity | ..].
  all: rewrite bs_String; cbn [fold_left forallb].
  - destruct IH as [H1 H2]. split; [exact H1 | rewrite H2; reflexivity].
  - destruct (decimal_of_uint_acc u 1) as [H1 H2]. split; [exact H1 | rewrite H2; reflexivity].
  - destruct (decimal_of_uint_acc u 2) as [H1 H2]. split; [exact H1 | rewrite H2; reflexivity].
  - destruct (decimal_of_uint_acc u 3) as [H1 H2]. split; [exact H1 | rewrite H2; reflexivity].
  - destruct (decimal_of_uint_acc u 4) as [H1 H2]. split; [exact H1 | rewrite H2; reflexivity].
  - destruct (decimal_of_uint_acc u 5) as [H1 H2]. split; [exact H1 | rewrite H2; reflexivity].
  - destruct (decimal_of_uint_acc u 6) as [H1 H2]. split; [exact H1 | rewrite H2; reflexivity].
  - destruct (decimal_of_uint_acc u 7) as [H1 H2]. split; [exact H1 | rewrite H2; reflexivity].
  - destruct (decimal_of_uint_acc u 8) as [H1 H2]. split; [exact H1 | rewrite H2; reflexivity].
  - destruct (decimal_of_uint_acc u 9) as [H1 H2]. split; [exact H1 | rewrite H2; reflexivity].
Qed.

(** The text that [%d] prints for a number that is not negative. *)
Lemma decimal_text (n : Z) :
  0 <= n ->
  decimal_value (bs (NilZero.string_of_int (Z.to_int n))) = n /\
  forallb is_digit (bs (NilZero.string_of_int (Z.to_int n))) = true.
Proof.
  intros Hn. destruct n as [|p|p]; [split; reflexivity | | lia].
  cbn [Z.to_int NilZero.string_of_int].
  unfold NilZero.string_of_uint.
  pose proof (DecimalPos.Unsigned.to_uint_nonnil p) as Hnil.
  pose proof (DecimalPos.Unsigned.of_to p) as Hof.
  destruct (decimal_of_uint (Pos.to_uint p)) as [H1 H2].
  destruct (Pos.to_uint p) eqn:Hu; [congruence | ..];
    (split; [rewrite H1, Hof; reflexivity | exact H2]).
Qed.

(** X23.  The decimal text that [SelectDatabase] prints after the word
    [select] for an index between 0 and the greatest [int] is made of
    digits only, and [ParseInt] reads it back as that index; the text
    printed for a negative index starts with a minus sign and
    [ParseInt] answers it with [ERROR_INVALID_INT]. *)
Theorem ParseInt_reads_printed_index (n : Z) :
  (0 <= n <= int_max ->
   exists digits,
     Connection.select_command n = bs "select " ++ digits /\
     forallb is_digit digits = true /\
     Protocol.ParseInt digits = (n, None)) /\
  (n < 0 ->
   exists text,
     Connection.select_command n = bs "select " ++ "-"%byte :: text /\
     snd (Protocol.ParseInt ("-"%byte :: text)) = Some ERROR_INVALID_INT).
Proof.
  split.
  - intros [Hlo Hhi]. destruct (decimal_text n Hlo) as [Hval Hds].
    exists (bs (NilZero.string_of_int (Z.to_int n))).
    split; [|split; [exact Hds|]].
    + unfold Connection.select_command. rewrite bs_app. reflexivity.
    + rewrite (ParseInt_exact _ Hds) by (rewrite Hval; lia).
      rewrite Hval. reflexivity.
  - intros Hneg. destruct n as [|p|p]; try lia.
    exists (bs (NilZero.string_of_uint (Pos.to_uint p))). split.
    + unfold Connection.select_command. rewrite bs_app. reflexivity.
    + unfold Protocol.ParseInt. rewrite ParseInt_loop_err. reflexivity.
Qed.

Lemma ParseInt_reads_printed_index_witness :
  (exists digits,
     Connection.select_command 15 = bs "select " ++ digits /\
     forallb is_digit digits = true /\
     Protocol.ParseInt digits = (15, None)) /\
  (exists text,
     Connection.select_command (-3) = bs "select " ++ "-"%byte :: text /\
     snd (Protocol.ParseInt ("-"%byte :: text)) = Some ERROR_INVALID_INT).
Proof.
  split.
  - apply (proj1 (ParseInt_reads_printed_index 15)). unfold int_max. lia.
  - apply (proj2 (ParseInt_reads_printed_index (-3))). lia.
Defined.

(** ** Lines longer than the reader's buffer *)

Lemma fill_bounded (r : Bufio.Reader) :
  Bufio.Buffered r <= Bufio.defaultBufSize ->
  Bufio.Buffered (Bufio.fill r) <= Bufio.defaultBufSize.
Proof.
  intros H. unfold Bufio.fill, Bufio.src_Read, Bufio.Buffered in *.
  set (room := Bufio.defaultBufSize - len (Bufio.buffered r)).
  destruct (Bufio.pending r) as [|c rest].
  - cbn [Bufio.buffered]. rewrite app_nil_r. exact H.
  - pose proof (len_firstn_le room (Bufio.chunk_bytes c)) as Hf.
    cbn [Bufio.buffered]. rewrite len_app. unfold room in *. lia.
Qed.

Lemma ReadSlice_loop_full (fuel : nat) :
  forall (r : Bufio.Reader) (full back : list byte),
    Bufio.rerr r = None ->
    Bufio.Buffered r <= Bufio.defaultBufSize ->
    stream r = full ++ back ->
    absent LF full ->
    len full = Bufio.defaultBufSize ->
    (Bufio.pending_size r < fuel)%nat ->
    exists r',
      Bufio.ReadSlice_loop fuel LF r = (full, Some bufio_ErrBufferFull, r') /\
      stream r' = back /\ Bufio.rerr r' = None /\ Bufio.buffered r' = [].
Proof.
  induction fuel as [|fuel IH]; intros r full back Herr Hsize Hs Hfull Hlen Hfuel;
    [lia|].
  cbn [Bufio.ReadSlice_loop].
  unfold stream in Hs.
  destruct (app_prefix_split (Bufio.buffered r) _ full back Hs)
    as (more & Hmore & Hpend).
  { unfold Bufio.Buffered, len in *. lia. }
  assert (Hab : absent LF (Bufio.buffered r)).
  { rewrite Hmore in Hfull. apply absent_app in Hfull. tauto. }
  destruct (IndexByte_spec (Bufio.buffered r) LF)
    as [[Hi _] | (a & b & Hbuf & Ha & Hi)].
  2:{ exfalso. rewrite Hbuf in Hab. apply absent_app in Hab.
      destruct Hab as [_ Hab]. apply absent_cons in Hab.
      destruct Hab as [Hne _]. apply Hne. reflexivity. }
  rewrite Hi. simpl (0 <=? -1). cbv iota. rewrite Herr.
  destruct (Bufio.defaultBufSize <=? Bufio.Buffered r) eqn:Hfullb.
  - apply Z.leb_le in Hfullb.
    assert (Hm : more = []).
    { destruct more as [|x more]; [reflexivity|].
      rewrite Hmore, len_app, len_cons in Hlen. unfold Bufio.Buffered in *.
      pose proof (len_nonneg more). lia. }
    subst more. rewrite app_nil_r in Hmore. simpl in Hpend.
    eexists. split; [rewrite Hmore; reflexivity|].
    split; [|split; [exact Herr | reflexivity]].
    unfold stream. simpl. exact Hpend.
  - apply Z.leb_gt in Hfullb.
    pose proof (fill_stream r) as [Hs' Hc].
    destruct (Bufio.pending r) as [|ch chs] eqn:Hp.
    + exfalso. simpl in Hpend. destruct more; [|discriminate].
      rewrite app_nil_r in Hmore. rewrite Hmore in Hlen.
      unfold Bufio.Buffered in Hfullb. lia.
    + destruct Hc as [He Hprog].
      destruct (Hprog ltac:(unfold Bufio.Buffered in Hfullb; lia)) as [Hdec _].
      apply IH; try assumption.
      * apply fill_bounded, Hsize.
      * rewrite Hs'. unfold stream. rewrite Hp. exact Hs.
      * lia.
Qed.

Lemma cut_line_spec (full : list byte) :
  cut_line full = full \/ full = cut_line full ++ [CR].
Proof.
  unfold cut_line. destruct (rev full) as [|last front] eqn:Hrev; [now left|].
  destruct (byte_eqb last CR) eqn:Hb; [|now left].
  right. apply byte_eqb_eq in Hb. subst last.
  apply (f_equal (@rev byte)) in Hrev. rewrite rev_involutive in Hrev.
  exact Hrev.
Qed.

(** [ReadLine] on a stream whose first 4096 bytes hold no line feed:
    the buffer fills up, and what it holds is handed out as the prefix
    of a line. *)
Lemma ReadLine_stream_full (r : Bufio.Reader) (full back : list byte) :
  Bufio.rerr r = None ->
  Bufio.Buffered r <= Bufio.defaultBufSize ->
  stream r = full ++ back ->
  absent LF full ->
  len full = Bufio.defaultBufSize ->
  exists r',
    Bufio.ReadLine r = (cut_line full, true, None, r') /\
    cut_line full ++ stream r' = full ++ back /\
    Bufio.rerr r' = None.
Proof.
  intros Herr Hsize Hs Hfull Hlen.
  destruct (ReadSlice_loop_full (S (Bufio.pending_size r)) r full back)
    as (r1 & HR & Hs1 & He1 & Hb1); try assumption; [lia|].
  unfold Bufio.ReadLine, Bufio.ReadSlice. rewrite HR. cbv iota.
  unfold cut_line.
  destruct (rev full) as [|last front] eqn:Hrev.
  - exists r1. rewrite Hs1. repeat split; assumption.
  - destruct (byte_eqb last CR) eqn:Hb.
    + apply byte_eqb_eq in Hb. subst last.
      apply (f_equal (@rev byte)) in Hrev. rewrite rev_involutive in Hrev.
      simpl in Hrev.
      exists (Bufio.set_buffered [CR] r1). split; [reflexivity|].
      split; [|exact He1].
      rewrite stream_set_buffered. unfold stream in Hs1. rewrite Hb1 in Hs1.
      simpl in Hs1. rewrite Hs1, Hrev, <- app_assoc. reflexivity.
    + exists r1. rewrite Hs1. repeat split; assumption.
Qed.

Lemma is_plain_line_cut (full : list byte) :
  2 < len full -> is_plain_line (cut_line full) = is_plain_line full.
Proof.
  intros Hlen. destruct (cut_line_spec full) as [-> | H]; [reflexivity|].
  rewrite H at 2. rewrite H, len_app in Hlen.
  destruct (cut_line full) as [|c0 [|c1 l]]; try reflexivity;
    unfold len in Hlen; simpl in Hlen; lia.
Qed.

(** [CopyServerResponse] drops the second result of [ReadLine]: what
    it has read is forwarded as a whole line, prefix or not. *)
Lemma CopyServerResponse_line_read
    (s : Bufio.Streams) (text : list byte) (isPrefix : bool) (r1 : Bufio.Reader) :
  Protocol.source_ReadLine (Bufio.source s) = (Done (text, isPrefix, None), r1) ->
  healthy (Bufio.destination s) ->
  is_plain_line text = true ->
  exists w',
    Protocol.CopyServerResponse s = (Done None, Bufio.mkStreams r1 w') /\
    healthy w' /\ Bufio.wbuf w' = [] /\
    Bufio.sent w' = Bufio.output (Bufio.destination s) ++ text ++ CRLF.
Proof.
  intros HR Hw Hplain. unfold Protocol.CopyServerResponse.
  destruct text as [|c0 [|c1 text]]; try discriminate Hplain.
  rewrite (bind_on_source _ _ _ _ _ HR). cbv beta iota.
  replace (len (c0 :: c1 :: text) <? 2) with false
    by (symmetry; apply Z.ltb_ge; rewrite !len_cons;
        pose proof (len_nonneg text); lia).
  rewrite !index_in_range
    by (rewrite !len_cons; pose proof (len_nonneg text); lia).
  rewrite bind_ret. simpl nth.
  simpl in Hplain. apply andb_prop in Hplain. destruct Hplain as [H0 H1].
  apply negb_true_iff in H0. rewrite H0.
  assert (Hmulti :
    (if byte_eqb c0 "*"%byte
     then bind (@ret Bufio.Streams byte c1)
               (fun c => ret (negb (byte_eqb c "-"%byte)))
     else ret false) = ret false).
  { destruct (byte_eqb c0 "*"%byte); [|reflexivity].
    simpl in H1. rewrite bind_ret, H1. reflexivity. }
  rewrite Hmulti, bind_ret. cbv iota.
  destruct (writeLine_healthy (c0 :: c1 :: text)
              (Bufio.mkStreams r1 (Bufio.destination s)) Hw)
    as (w2 & H2 & Hw2 & Ho2).
  rewrite (bind_step _ _ _ _ _ H2). cbv beta iota.
  destruct (destination_Flush_healthy (Bufio.mkStreams r1 w2) Hw2)
    as (w3 & H3 & Hw3 & Hb3 & Hsent3).
  rewrite (bind_step _ _ _ _ _ H3).
  exists w3. split; [reflexivity|]. cbn [Bufio.source Bufio.destination] in *.
  repeat split; try assumption; try apply Hw3.
  rewrite Hsent3, Ho2. reflexivity.
Qed.

(** X24.  [CopyServerResponse] does not look at whether [ReadLine] has
    handed out a whole line.  Of a status, error or integer line whose
    first 4096 bytes hold no line feed it forwards those bytes, or the
    first 4095 when the last of them is a CR, and writes CR LF behind
    them, which the server has not sent there; the rest of the line
    stays in the source, where the next call takes it for a reply. *)
Theorem CopyServerResponse_long_line
    (s : Bufio.Streams) (full back : list byte) :
  Bufio.rerr (Bufio.source s) = None ->
  Bufio.Buffered (Bufio.source s) <= Bufio.defaultBufSize ->
  healthy (Bufio.destination s) ->
  is_plain_line full = true ->
  absent LF full ->
  len full = Bufio.defaultBufSize ->
  stream (Bufio.source s) = full ++ back ->
  fst (Protocol.CopyServerResponse s) = Done None /\
  Bufio.sent (Bufio.destination (snd (Protocol.CopyServerResponse s)))
  = Bufio.output (Bufio.destination s) ++ cut_line full ++ CRLF /\
  Bufio.wbuf (Bufio.destination (snd (Protocol.CopyServerResponse s))) = [] /\
  cut_line full ++ stream (Bufio.source (snd (Protocol.CopyServerResponse s)))
  = full ++ back /\
  (cut_line full = full \/ full = cut_line full ++ [CR]).
Proof.
  intros Herr Hsize Hw Hplain Hfull Hlen Hs.
  destruct (ReadLine_stream_full _ full back Herr Hsize Hs Hfull Hlen)
    as (r1 & HR & Hs1 & He1).
  assert (HRL : Protocol.source_ReadLine (Bufio.source s)
                = (Done (cut_line full, true, None), r1)).
  { unfold Protocol.source_ReadLine. rewrite HR. reflexivity. }
  assert (Hplain' : is_plain_line (cut_line full) = true).
  { rewrite is_plain_line_cut; [exact Hplain|].
    rewrite Hlen. unfold Bufio.defaultBufSize. lia. }
  destruct (CopyServerResponse_line_read s (cut_line full) true r1 HRL Hw Hplain')
    as (w' & H & _ & Hb & Hsent).
  rewrite H. cbn [fst snd Bufio.source Bufio.destination].
  repeat split; try assumption. apply cut_line_spec.
Qed.

Lemma CopyServerResponse_long_line_witness :
  fst (Protocol.CopyServerResponse long_line_source) = Done None /\
  Bufio.sent (Bufio.destination (snd (Protocol.CopyServerResponse long_line_source)))
  = Bufio.output empty_writer ++ cut_line long_line ++ CRLF /\
  Bufio.wbuf (Bufio.destination (snd (Protocol.CopyServerResponse long_line_source)))
  = [] /\
  cut_line long_line
    ++ stream (Bufio.source (snd (Protocol.CopyServerResponse long_line_source)))
  = long_line ++ bs "yz" ++ CRLF /\
  (cut_line long_line = long_line \/ long_line = cut_line long_line ++ [CR]).
Proof.
  apply (CopyServerResponse_long_line long_line_source long_line (bs "yz" ++ CRLF)).
  - reflexivity.
  - vm_compute. congruence.
  - split; reflexivity.
  - reflexivity.
  - vm_compute. reflexivity.
  - vm_compute. reflexivity.
  - vm_compute. reflexivity.
Defined.

(** ** [GetCommand] where the bound check wraps *)

Lemma wrap_over (z : Z) :
  int_max < z -> z <= int_max + 2 ^ 64 -> wrap z = z - 2 ^ 64.
Proof.
  unfold wrap, int_max. intros Hlo Hhi.
  replace (z + 2 ^ 63) with (z - 2 ^ 63 + 1 * 2 ^ 64) by lia.
  rewrite Z.mod_add by lia. rewrite Z.mod_small by lia. lia.
Qed.

Lemma slice_out {S} (s : list byte) (lo hi : Z) :
  hi < lo \/ len s < hi ->
  @slice S s lo hi = throw slice_bounds_out_of_range.
Proof.
  intros H. unfold slice.
  replace ((0 <=? lo) && (lo <=? hi) && (hi <=? len s)) with false; [reflexivity|].
  symmetry. rewrite !andb_false_iff, !Z.leb_gt. lia.
Qed.

(** The two sums of the bound check, [nextLine + messageLength] and
    that plus 2, when the exact sum passes the greatest [int]: the
    second is negative, and the first is negative or past any buffer. *)
Lemma bound_check_wraps (next value size : Z) :
  0 <= next <= 2 * Bufio.defaultBufSize ->
  0 <= size <= Bufio.defaultBufSize ->
  0 <= value <= int_max ->
  int_max < next + value + 2 ->
  (size <? int_add (int_add next value) 2) = false /\
  (int_add next value < next \/ size < int_add next value).
Proof.
  unfold Bufio.defaultBufSize, int_add. intros Hn Hs Hv Hover.
  destruct (Z_le_gt_dec (next + value) int_max) as [Hfit | Hwrap].
  - rewrite (wrap_small (next + value)) by (unfold int_min, int_max in *; lia).
    rewrite (wrap_over (next + value + 2)) by (unfold int_max in *; lia).
    split; [apply Z.ltb_ge | right]; unfold int_max in *; lia.
  - rewrite (wrap_over (next + value)) by (unfold int_max in *; lia).
    rewrite (wrap_small (next + value - 2 ^ 64 + 2))
      by (unfold int_min, int_max in *; lia).
    split; [apply Z.ltb_ge | left]; unfold int_max in *; lia.
Qed.

Lemma GetCommand_header_CR (r : Bufio.Reader) (rest : list byte) :
  Bufio.buffered r = CR :: rest ->
  Bufio.Buffered r <= Bufio.defaultBufSize ->
  Protocol.GetCommand r = (Panic slice_bounds_out_of_range, r).
Proof.
  intros Hbuf Hsize.
  unfold Protocol.GetCommand. rewrite bind_Buffered_Peek.
  unfold peeked. rewrite (proj2 (Z.ltb_ge _ _) Hsize), Hbuf.
  cbv zeta.
  change (IndexByte (CR :: rest) CR) with 0.
  change (0 =? -1) with false. cbv iota.
  rewrite slice_out by lia. reflexivity.
Qed.

Lemma GetCommand_command_wraps
    (r : Bufio.Reader) (h : byte) (ds rest : list byte) :
  Bufio.buffered r = h :: ds ++ CR :: rest ->
  Bufio.Buffered r <= Bufio.defaultBufSize ->
  byte_eqb h CR = false ->
  forallb is_digit ds = true ->
  decimal_value ds <= int_max ->
  int_max < declared_end 0 ds ->
  Protocol.GetCommand r = (Panic slice_bounds_out_of_range, r).
Proof.
  intros Hbuf Hsize Hh Hds Hval Hover.
  pose proof (decimal_value_nonneg ds Hds) as Hn.
  pose proof (len_nonneg ds) as Hl.
  pose proof (len_nonneg rest) as Hlr.
  assert (Hsz : len (h :: ds ++ CR :: rest) <= Bufio.defaultBufSize).
  { unfold Bufio.Buffered in Hsize. rewrite Hbuf in Hsize. exact Hsize. }
  unfold declared_end in Hover.
  unfold Protocol.GetCommand. rewrite bind_Buffered_Peek.
  unfold peeked. rewrite (proj2 (Z.ltb_ge _ _) Hsize), Hbuf.
  cbv zeta. rewrite (IndexByte_header h ds rest Hh Hds).
  replace (1 + len ds =? -1) with false by (symmetry; apply Z.eqb_neq; lia).
  change (h :: ds ++ CR :: rest) with ([h] ++ ds ++ CR :: rest).
  rewrite (slice_middle [h] ds (CR :: rest)) by (lens; lia).
  rewrite bind_ret.
  rewrite (ParseInt_exact ds Hds Hval).
  rewrite (int_add_small (1 + len ds) 2)
    by (revert Hsz; unfold int_min, int_max, Bufio.defaultBufSize; lens; lia).
  assert (Hlen : len ([h] ++ ds ++ CR :: rest) = len ds + len rest + 2)
    by (lens; lia).
  change (len (h :: ds ++ CR :: rest)) with (len ([h] ++ ds ++ CR :: rest)) in Hsz.
  destruct (bound_check_wraps (1 + len ds + 2) (decimal_value ds)
              (len ([h] ++ ds ++ CR :: rest))) as [Hcheck Hslice].
  { unfold Bufio.defaultBufSize in *. lia. }
  { lia. }
  { lia. }
  { lia. }
  rewrite Hcheck. rewrite slice_out by exact Hslice. reflexivity.
Qed.

Lemma GetCommand_argument_wraps
    (r : Bufio.Reader) (h x c1 c2 h2 : byte) (ds cmd ds2 rest : list byte) :
  Bufio.buffered r
  = h :: ds ++ CR :: x :: cmd ++ c1 :: c2 :: h2 :: ds2 ++ CR :: rest ->
  Bufio.Buffered r <= Bufio.defaultBufSize ->
  byte_eqb h CR = false ->
  forallb is_digit ds = true ->
  decimal_value ds = len cmd ->
  byte_eqb h2 CR = false ->
  forallb is_digit ds2 = true ->
  decimal_value ds2 <= int_max ->
  int_max < declared_end (declared_end 0 ds) ds2 ->
  Protocol.GetCommand r
  = (Panic slice_bounds_out_of_range,
     Bufio.set_buffered
       (h :: ds ++ CR :: x :: map Protocol.lowercaseize cmd
          ++ c1 :: c2 :: h2 :: ds2 ++ CR :: rest) r).
Proof.
  intros Hbuf Hsize Hh Hds Hcmd Hh2 Hds2 Hval Hover.
  unfold declared_end in Hover.
  pose proof (decimal_value_nonneg ds Hds) as Hn.
  pose proof (decimal_value_nonneg ds2 Hds2) as Hn2.
  pose proof (len_nonneg ds) as Hl.
  pose proof (len_nonneg ds2) as Hl2.
  pose proof (len_nonneg rest) as Hlr.
  set (cmd' := map Protocol.lowercaseize cmd).
  set (tail2 := h2 :: ds2 ++ CR :: rest).
  set (contents := h :: ds ++ CR :: x :: cmd ++ c1 :: c2 :: tail2).
  change (Bufio.buffered r = contents) in Hbuf.
  set (contents' := h :: ds ++ CR :: x :: cmd' ++ c1 :: c2 :: tail2).
  assert (Hlen : len contents = len ds + len cmd + len ds2 + len rest + 7).
  { unfold contents, tail2. lens. lia. }
  assert (Hlen' : len contents' = len contents).
  { unfold contents', contents, tail2, cmd'. lens. lia. }
  assert (Hsz : len contents <= 4096).
  { unfold Bufio.Buffered in Hsize. rewrite Hbuf in Hsize. exact Hsize. }
  assert (S1 : contents = [h] ++ ds ++ CR :: x :: cmd ++ c1 :: c2 :: tail2)
    by reflexivity.
  assert (S2 : contents = (h :: ds ++ [CR; x]) ++ cmd ++ c1 :: c2 :: tail2).
  { unfold contents. simpl. now rewrite <- app_assoc. }
  assert (S3 : contents' = (h :: ds ++ [CR; x]) ++ cmd' ++ c1 :: c2 :: tail2).
  { unfold contents'. simpl. now rewrite <- app_assoc. }
  assert (S4 : contents'
               = (h :: ds ++ CR :: x :: cmd' ++ [c1; c2]) ++ tail2 ++ []).
  { unfold contents'. simpl. rewrite app_nil_r.
    rewrite <- !app_assoc. simpl. rewrite <- app_assoc. reflexivity. }
  assert (S5 : contents'
               = (h :: ds ++ CR :: x :: cmd' ++ [c1; c2; h2]) ++ ds2 ++ CR :: rest).
  { unfold contents', tail2. simpl.
    rewrite <- !app_assoc. simpl. rewrite <- app_assoc. reflexivity. }
  unfold Protocol.GetCommand. rewrite bind_Buffered_Peek.
  unfold peeked. rewrite (proj2 (Z.ltb_ge _ _) Hsize), Hbuf.
  cbv zeta.
  assert (I1 : IndexByte contents CR = 1 + len ds)
    by (apply IndexByte_header; assumption).
  rewrite I1.
  replace (1 + len ds =? -1) with false by (symmetry; apply Z.eqb_neq; lia).
  rewrite S1 at 1.
  rewrite (slice_middle [h] ds) by (lens; lia).
  rewrite bind_ret.
  rewrite (ParseInt_exact ds Hds) by (unfold int_max; lia).
  rewrite (int_add_small (1 + len ds) 2) by (unfold int_min, int_max; lia).
  rewrite (int_add_small (1 + len ds + 2)) by (unfold int_min, int_max; lia).
  rewrite (int_add_small (1 + len ds + 2 + decimal_value ds))
    by (unfold int_min, int_max; lia).
  replace (len contents <? 1 + len ds + 2 + decimal_value ds + 2)
    with false by (symmetry; apply Z.ltb_ge; lia).
  rewrite S2 at 1.
  rewrite (slice_middle (h :: ds ++ [CR; x]) cmd) by (lens; lia).
  rewrite bind_ret. fold cmd'.
  rewrite bind_store. rewrite Hbuf.
  rewrite S2.
  rewrite (overwrite_middle (h :: ds ++ [CR; x]) cmd)
    by (try (lens; lia); unfold cmd'; now rewrite length_map).
  rewrite <- S3.
  set (m := 1 + len ds + 2 + decimal_value ds + 2).
  assert (Hm : m = len ds + len cmd + 5) by (unfold m; lia).
  replace (m =? len contents') with false by (symmetry; apply Z.eqb_neq; lia).
  assert (F1 : @slice_from Bufio.Reader contents' m = ret tail2).
  { unfold slice_from. rewrite S4. apply slice_middle.
    - unfold cmd'. lens. lia.
    - unfold cmd'. lens. lia. }
  rewrite F1, bind_ret.
  assert (I2 : IndexByte tail2 CR = 1 + len ds2)
    by (apply IndexByte_header; assumption).
  rewrite I2.
  replace (1 + len ds2 =? -1) with false by (symmetry; apply Z.eqb_neq; lia).
  rewrite (int_add_small m 1) by (unfold int_min, int_max; lia).
  rewrite (int_add_small (1 + len ds2) m) by (unfold int_min, int_max; lia).
  assert (F2 : @slice Bufio.Reader contents' (m + 1) (1 + len ds2 + m) = ret ds2).
  { rewrite S5. apply slice_middle.
    - unfold cmd'. lens. lia.
    - unfold cmd'. lens. lia. }
  rewrite F2, bind_ret.
  rewrite (ParseInt_exact ds2 Hds2 Hval).
  rewrite (int_add_small (1 + len ds2 + m) 2) by (unfold int_min, int_max; lia).
  destruct (bound_check_wraps (1 + len ds2 + m + 2) (decimal_value ds2)
              (len contents')) as [Hcheck Hslice].
  { unfold Bufio.defaultBufSize. lia. }
  { unfold Bufio.defaultBufSize. lia. }
  { lia. }
  { lia. }
  rewrite Hcheck. rewrite slice_out by exact Hslice. reflexivity.
Qed.

(** X25.  Where [GetCommand] panics.  The slice expressions of
    [GetCommand] fail, with the panic of a slice out of bounds and no
    error returned, on a buffer of at most 4096 bytes
    - that starts with a CR, whose header is the slice
      [contents[1:0]];
    - whose first element declares, in digits that fit an [int], a
      length that puts the declared end of the element past the
      greatest [int]: the sum of the bound check wraps around and
      lets the length through;
    - whose second element, behind a complete first one, does the
      same; by then the command has been rewritten in the reader's
      buffer. *)
Theorem GetCommand_panics_where_the_check_wraps :
  (forall (r : Bufio.Reader) (rest : list byte),
      Bufio.buffered r = CR :: rest ->
      Bufio.Buffered r <= Bufio.defaultBufSize ->
      Protocol.GetCommand r = (Panic slice_bounds_out_of_range, r)) /\
  (forall (r : Bufio.Reader) (h : byte) (ds rest : list byte),
      Bufio.buffered r = h :: ds ++ CR :: rest ->
      Bufio.Buffered r <= Bufio.defaultBufSize ->
      byte_eqb h CR = false ->
      forallb is_digit ds = true ->
      decimal_value ds <= int_max ->
      int_max < declared_end 0 ds ->
      Protocol.GetCommand r = (Panic slice_bounds_out_of_range, r)) /\
  (forall (r : Bufio.Reader) (h x c1 c2 h2 : byte) (ds cmd ds2 rest : list byte),
      Bufio.buffered r
      = h :: ds ++ CR :: x :: cmd ++ c1 :: c2 :: h2 :: ds2 ++ CR :: rest ->
      Bufio.Buffered r <= Bufio.defaultBufSize ->
      byte_eqb h CR = false ->
      forallb is_digit ds = true ->
      decimal_value ds = len cmd ->
      byte_eqb h2 CR = false ->
      forallb is_digit ds2 = true ->
      decimal_value ds2 <= int_max ->
      int_max < declared_end (declared_end 0 ds) ds2 ->
      Protocol.GetCommand r
      = (Panic slice_bounds_out_of_range,
         Bufio.set_buffered
           (h :: ds ++ CR :: x :: map Protocol.lowercaseize cmd
              ++ c1 :: c2 :: h2 :: ds2 ++ CR :: rest) r)).
Proof.
  split; [exact GetCommand_header_CR|].
  split; [exact GetCommand_command_wraps | exact GetCommand_argument_wraps].
Qed.

Lemma GetCommand_panics_where_the_check_wraps_witness :
  Protocol.GetCommand (buf_reader (CR :: bs "$3" ++ CRLF))
  = (Panic slice_bounds_out_of_range, buf_reader (CR :: bs "$3" ++ CRLF)) /\
  Protocol.GetCommand (buf_reader (bs "$9223372036854775807" ++ CRLF ++ bs "GET" ++ CRLF))
  = (Panic slice_bounds_out_of_range,
     buf_reader (bs "$9223372036854775807" ++ CRLF ++ bs "GET" ++ CRLF)) /\
  Protocol.GetCommand
    (buf_reader (bs "$3" ++ CRLF ++ bs "GET" ++ CRLF
                 ++ bs "$9223372036854775800" ++ CRLF ++ bs "foo" ++ CRLF))
  = (Panic slice_bounds_out_of_range,
     Bufio.set_buffered
       (bs "$3" ++ CRLF ++ bs "get" ++ CRLF
        ++ bs "$9223372036854775800" ++ CRLF ++ bs "foo" ++ CRLF)
       (buf_reader (bs "$3" ++ CRLF ++ bs "GET" ++ CRLF
                    ++ bs "$9223372036854775800" ++ CRLF ++ bs "foo" ++ CRLF))).
Proof.
  split; [|split].
  - apply (proj1 GetCommand_panics_where_the_check_wraps
             (buf_reader (CR :: bs "$3" ++ CRLF)) (bs "$3" ++ CRLF));
      [reflexivity | vm_compute; congruence].
  - apply (proj1 (proj2 GetCommand_panics_where_the_check_wraps)
             (buf_reader (bs "$9223372036854775807" ++ CRLF ++ bs "GET" ++ CRLF))
             "$"%byte (bs "9223372036854775807") (LF :: bs "GET" ++ CRLF));
      try reflexivity; vm_compute; congruence.
  - apply (proj2 (proj2 GetCommand_panics_where_the_check_wraps)
             (buf_reader (bs "$3" ++ CRLF ++ bs "GET" ++ CRLF
                          ++ bs "$9223372036854775800" ++ CRLF ++ bs "foo" ++ CRLF))
             "$"%byte LF CR LF "$"%byte (bs "3") (bs "GET")
             (bs "9223372036854775800") (LF :: bs "foo" ++ CRLF));
      try reflexivity; vm_compute; congruence.
Defined.
